(** * sync.py: one-directional reconciliation of a target tree against a source tree

    A shallow embedding of [src/sync.py] and the properties of its planner,
    change summary and execution phases.

    Data model.  A path is the list of its components (the string
    ['E:\\a\\b.txt'] is [["E:"; "a"; "b.txt"]]), the file system is one tree of
    files and directories, and a modification time is a binary64 float, as
    [os.path.getmtime] returns it.  The functions of [os], [os.path] and
    [shutil] that the script calls are modelled after their documented
    behaviour on such a tree (no symbolic links).  Line 94 rewrites a path
    as a string: the third walk is modelled on path strings as well, and
    compared with the one on components. *)

From Stdlib Require Import Floats Sorted Ascii.
From stdpp Require Import base option list strings.

Open Scope string_scope.
Open Scope list_scope.

(** * The program *)

(** ** Paths and the file-system tree *)

Definition name := string.

Definition path := list name.

Unset Elimination Schemes.
Inductive node :=
  | File (mtime : float) (content : string)
  | Dir (mtime : float) (entries : list (name * node)).
Set Elimination Schemes.

Definition is_dir (n : node) : bool :=
  match n with Dir _ _ => true | File _ _ => false end.

Definition node_mtime (n : node) : float :=
  match n with File m _ => m | Dir m _ => m end.

(** The entry called [c] of a directory listing (the first one, should the
    listing repeat a name; a well-formed tree does not, see [wf_node]). *)
Fixpoint find_entry (c : name) (es : list (name * node)) : option node :=
  match es with
  | [] => None
  | (d, n) :: es' => if String.eqb c d then Some n else find_entry c es'
  end.

(** What the path [p] names below the node [n]. *)
Fixpoint lookup_path (n : node) (p : path) : option node :=
  match p with
  | [] => Some n
  | c :: p' =>
      match n with
      | Dir _ es =>
          match find_entry c es with
          | Some n' => lookup_path n' p'
          | None => None
          end
      | File _ _ => None
      end
  end.

(** Names of the sub-directories and of the other entries of a listing, in
    listing order: the [dirs] and [nondirs] lists that [os.walk] builds from
    [os.scandir]. *)
Fixpoint dir_names (es : list (name * node)) : list name :=
  match es with
  | [] => []
  | (d, n) :: es' => if is_dir n then d :: dir_names es' else dir_names es'
  end.

Fixpoint file_names (es : list (name * node)) : list name :=
  match es with
  | [] => []
  | (d, n) :: es' => if is_dir n then file_names es' else d :: file_names es'
  end.

(** ** [os.path] *)

Definition os_path_join (a b : path) : path := a ++ b.

Definition os_path_dirname (p : path) : path := removelast p.

Definition os_path_basename (p : path) : name := List.last p "".

Definition os_path_exists (fs : node) (p : path) : bool :=
  match lookup_path fs p with Some _ => true | None => false end.

Definition os_path_isdir (fs : node) (p : path) : bool :=
  match lookup_path fs p with Some n => is_dir n | None => false end.

(** [os.path.getmtime] raises [OSError] on a missing path: [None]. *)
Definition os_path_getmtime (fs : node) (p : path) : option float :=
  match lookup_path fs p with Some n => Some (node_mtime n) | None => None end.

Fixpoint commonprefix (a b : path) : path :=
  match a, b with
  | x :: a', y :: b' => if String.eqb x y then x :: commonprefix a' b' else []
  | _, _ => []
  end.

Definition pardir : name := "..".

Definition curdir : name := ".".

(** [os.path.relpath p start]: one [pardir] for every component of [start]
    past the common prefix, then the rest of [p]; [curdir] when nothing is
    left.  The script asks for the relative path of entries that a walk of
    [start] has listed, where no [pardir] arises ([relpath_under]). *)
Definition os_path_relpath (p start : path) : path :=
  let i := length (commonprefix start p) in
  let rel_list := repeat pardir (length start - i) ++ drop i p in
  match rel_list with
  | [] => [curdir]
  | _ => rel_list
  end.

(** Does [l] begin with [old]? *)
Fixpoint starts_with (old l : path) : bool :=
  match old, l with
  | [] , _ => true
  | x :: old', y :: l' => String.eqb x y && starts_with old' l'
  | _ :: _, [] => false
  end.

(** [s.replace(old, new, 1)] on lists of components: the leftmost occurrence
    of [old] in [s] gives way to [new]; [s] is returned as it is when [old]
    does not occur.  The script calls it on paths that a walk of [old] has
    built, which begin with [old] ([str_replace_first_prefix]).  A list of
    components is a root written without a separator at its end; line 94 is
    modelled on the strings themselves further down ([str_replace]), and
    [scan_source_files_on_strings] tells for which roots the two agree. *)
Fixpoint str_replace_first (old new s : path) : path :=
  if starts_with old s then new ++ drop (length old) s
  else match s with
       | [] => []
       | x :: s' => x :: str_replace_first old new s'
       end.

(** ** [os.walk] *)

Definition walk_item : Type := path * list name * list name.

(** [os.walk(top)] (top-down) as the loops of the script drive it: the loop
    body rewrites [dirs] in place ([dirs[:] = [d for d in dirs if keep d]])
    before the generator resumes, so only the kept directories are entered,
    and the body sees the rewritten list. *)
Fixpoint walk_topdown (keep : name -> bool) (top : path) (n : node)
  : list walk_item :=
  match n with
  | File _ _ => []
  | Dir _ es =>
      (top, List.filter keep (dir_names es), file_names es)
      :: flat_map (fun e : name * node =>
                     if is_dir e.2 && keep e.1
                     then walk_topdown keep (top ++ [e.1]) e.2 else []) es
  end.

(** [os.walk(top, topdown=False)]: every sub-directory is walked before its
    parent is yielded, so the rewrite of [dirs] by the loop body comes too
    late to prune anything; it only changes the list the body itself goes
    through. *)
Fixpoint walk_bottomup (keep : name -> bool) (top : path) (n : node)
  : list walk_item :=
  match n with
  | File _ _ => []
  | Dir _ es =>
      flat_map (fun e : name * node =>
                  if is_dir e.2 then walk_bottomup keep (top ++ [e.1]) e.2
                  else []) es
      ++ [(top, List.filter keep (dir_names es), file_names es)]
  end.

(** A walk of a path that is missing or not a directory yields nothing
    ([os.walk] swallows the error of [os.scandir]).  The walks run before
    anything is changed, so the items of the generator are listed at once. *)
Definition os_walk (fs : node) (keep : name -> bool) (topdown : bool)
    (top : path) : list walk_item :=
  match lookup_path fs top with
  | Some n => if topdown then walk_topdown keep top n
              else walk_bottomup keep top n
  | None => []
  end.

(** ** Constants of the script *)

Definition EXCLUDE_DIRS : list name := ["System Volume Information"].

Definition TIME_TOLERANCE : float := 2.0%float.

Definition name_in (d : name) (l : list name) : bool :=
  existsb (String.eqb d) l.

(** [d not in EXCLUDE_DIRS] *)
Definition not_excluded (d : name) : bool := negb (name_in d EXCLUDE_DIRS).

(** ** The two tests *)

Definition should_delete_file (fs : node) (target_file source_dir target_dir : path)
  : bool :=
  let relative_path := os_path_relpath target_file target_dir in
  let source_file_path := os_path_join source_dir relative_path in
  let file_exists := os_path_exists fs source_file_path in
  negb file_exists.

(** [a > b] on floats *)
Definition float_gt (a b : float) : bool := PrimFloat.ltb b a.

Definition should_overwrite_mtimes (target_mtime source_mtime : float) : string :=
  let time_difference := PrimFloat.abs (PrimFloat.sub target_mtime source_mtime) in
  if PrimFloat.leb time_difference TIME_TOLERANCE then "same"
  else if float_gt target_mtime source_mtime then "true" else "false".

Definition should_overwrite_file (fs : node) (target_file source_file : path)
  : option string :=
  target_mtime ← os_path_getmtime fs target_file;
  source_mtime ← os_path_getmtime fs source_file;
  Some (should_overwrite_mtimes target_mtime source_mtime).

(** ** The change summary *)

Fixpoint path_eqb (a b : path) : bool :=
  match a, b with
  | [], [] => true
  | x :: a', y :: b' => String.eqb x y && path_eqb a' b'
  | _, _ => false
  end.

(** A [dict] from directory to the files seen in it; it keeps its keys in
    insertion order. *)
Definition dict : Type := list (path * list path).

(** [directories[directory].append(file)] when the key is there,
    [directories[directory] = [file]] otherwise. *)
Fixpoint dict_append (directory file : path) (directories : dict) : dict :=
  match directories with
  | [] => [(directory, [file])]
  | (k, files) :: rest =>
      if path_eqb k directory then (k, files ++ [file]) :: rest
      else (k, files) :: dict_append directory file rest
  end.

Definition group_files_by_directory (files_list : list path) : dict :=
  fold_left (fun directories file =>
               dict_append (os_path_dirname file) file directories)
            files_list [].

(** A path as the messages print it. *)
Definition path_str (p : path) : string := String.concat "/" p.

(** The two summary loops differ in their wording only. *)
Definition summarize (collapsed single : string) (groups : dict) : list string :=
  flat_map (fun g : path * list path =>
              if Nat.ltb 20 (length g.2)
              then [collapsed +:+ path_str g.1]
              else map (fun file => single +:+ path_str file) g.2)
           groups.

Definition deletion_summary (delete_candidates : list path) : list string :=
  summarize "Delete 20+ files in directory: " "Delete file: "
            (group_files_by_directory delete_candidates).

Definition overwrite_summary (overwrite_candidates : list path) : list string :=
  summarize "Overwrite 20+ files in directory: " "Overwrite file: "
            (group_files_by_directory overwrite_candidates).

(** ** The planner: the three walks of [sync_directories] *)

(** A [for] loop whose body may raise: the first exception ends the loop and
    propagates ([None]). *)
Fixpoint for_each {A S : Type} (body : A -> S -> option S) (xs : list A) (s : S)
  : option S :=
  match xs with
  | [] => Some s
  | x :: xs' => s' ← body x s; for_each body xs' s'
  end.

(** The three candidate lists of one run. *)
Record plan := Plan {
  delete_candidates : list path;
  overwrite_candidates : list path;
  copy_candidates : list (path * path)
}.

Section Planner.
(** The file system as the walks find it, the two roots and
    [os.path.basename(__file__)]. *)
Variable fs : node.
Variables source target : path.
Variable script_name : name.

(** Body of the first walk for one file name: the state is
    [(delete_candidates, overwrite_candidates)]. *)
Definition target_file_body (root : path) (name : name)
    (st : list path * list path) : option (list path * list path) :=
  if String.eqb name script_name then Some st
  else
    let target_file := os_path_join root [name] in
    let relative_path := os_path_relpath target_file target in
    let source_file := os_path_join source relative_path in
    if should_delete_file fs target_file source target
    then Some (st.1 ++ [target_file], st.2)
    else if os_path_exists fs source_file
    then r ← should_overwrite_file fs target_file source_file;
         Some (if String.eqb r "true" then (st.1, st.2 ++ [target_file]) else st)
    else Some st.

Definition scan_target_files : option (list path * list path) :=
  for_each (fun '(root, _, files) => for_each (target_file_body root) files)
           (os_walk fs not_excluded true target) ([], []).

(** Body of the second (bottom-up) walk for one directory name: the state
    is [delete_candidates]. *)
Definition target_dir_body (root : path) (name : name) (dc : list path)
  : list path :=
  let target_dir_path := os_path_join root [name] in
  let relative_path := os_path_relpath target_dir_path target in
  let source_dir_path := os_path_join source relative_path in
  if negb (os_path_exists fs source_dir_path) then dc ++ [target_dir_path]
  else dc.

Definition scan_target_dirs (dc : list path) : list path :=
  fold_left (fun dc '(root, dirs, _) =>
               fold_left (fun dc name => target_dir_body root name dc) dirs dc)
            (os_walk fs not_excluded false target) dc.

(** Body of the third walk for one file name: the state is
    [copy_candidates]. *)
Definition source_file_body (root : path) (name : name)
    (cc : list (path * path)) : option (list (path * path)) :=
  if String.eqb name script_name then Some cc
  else
    let source_file := os_path_join root [name] in
    let target_file := str_replace_first source target source_file in
    if negb (os_path_exists fs target_file)
    then Some (cc ++ [(source_file, target_file)])
    else
      s ← os_path_getmtime fs source_file;
      t ← os_path_getmtime fs target_file;
      Some (if float_gt s t then cc ++ [(source_file, target_file)] else cc).

Definition scan_source_files : option (list (path * path)) :=
  for_each (fun '(root, _, files) => for_each (source_file_body root) files)
           (os_walk fs not_excluded true source) [].

(** Lines 52-97 of [sync_directories]: [None] when a stat raised. *)
Definition plan_candidates : option plan :=
  '(dc, oc) ← scan_target_files;
  let dc := scan_target_dirs dc in
  cc ← scan_source_files;
  Some (Plan dc oc cc).

End Planner.

(** ** The third walk on path strings *)

(** The planner above takes the two roots as lists of components.  The
    first two walks go from a target path to the source side with
    [os.path.relpath] and [os.path.join], which look at the components of
    the roots only.  Line 94 goes the other way with [str.replace] on the
    path strings themselves, and a root string can end in a separator
    ([DEF_TARGET] does).  What follows is the third walk on path strings, as
    written, with [os.sep] as a parameter.  The strings are those of roots
    that name their directories by [os.sep] and the names of the tree, with
    no [.] or [..] among them and, where [os.sep] is the backslash, no bare
    drive ([E:]) as a root: there [os.path.join] is what [os_path_join_str]
    says.  [scan_source_files_on_strings] shows that the walk lists the
    pairs of [scan_source_files] unless the source root ends in a separator
    and the target root does not, and [line_94_pairs] what it lists in
    either case. *)

(** [os.sep] where [os.path] is [posixpath], and where it is [ntpath]. *)
Definition posix_sep : ascii := "/"%char.

Definition nt_sep : ascii := ascii_of_nat 92.

Fixpoint string_drop (n : nat) (s : string) : string :=
  match n, s with
  | S n', String _ s' => string_drop n' s'
  | _, _ => s
  end.

(** [s.replace(old, new, 1)] *)
Fixpoint str_replace (old new s : string) : string :=
  if String.prefix old s then new +:+ string_drop (String.length old) s
  else match s with
       | EmptyString => EmptyString
       | String c s' => String c (str_replace old new s')
       end.

Section PathStrings.
(** [os.sep] *)
Variable sep : ascii.

Definition starts_with_sep (s : string) : bool :=
  match s with
  | String c _ => Ascii.eqb c sep
  | EmptyString => false
  end.

Fixpoint ends_with_sep (s : string) : bool :=
  match s with
  | EmptyString => false
  | String c EmptyString => Ascii.eqb c sep
  | String _ s' => ends_with_sep s'
  end.

(** [os.path.join(a, b)] *)
Definition os_path_join_str (a b : string) : string :=
  if starts_with_sep b then b
  else if String.eqb a EmptyString || ends_with_sep a then a +:+ b
  else a +:+ String sep b.

(** [s.split(os.sep)] *)
Fixpoint split_sep (s : string) : list string :=
  match s with
  | EmptyString => [EmptyString]
  | String c s' =>
      if Ascii.eqb c sep then EmptyString :: split_sep s'
      else match split_sep s' with
           | x :: xs => String c x :: xs
           | [] => [String c EmptyString]
           end
  end.

(** The components that a path string names: a doubled or a trailing
    separator counts as one, and a leading one is dropped, the tree being
    rooted where the path strings start from (the working directory is the
    root directory). *)
Definition path_components (s : string) : path :=
  List.filter (fun c => negb (String.eqb c EmptyString)) (split_sep s).

(** The string of a list of components. *)
Definition path_string (p : path) : string :=
  String.concat (String sep EmptyString) p.

(** [os.path.exists] and [os.path.getmtime] of a path string; the empty
    string names nothing. *)
Definition os_path_exists_str (fs : node) (s : string) : bool :=
  negb (String.eqb s EmptyString) && os_path_exists fs (path_components s).

Definition os_path_getmtime_str (fs : node) (s : string) : option float :=
  if String.eqb s EmptyString then None
  else os_path_getmtime fs (path_components s).

(** [os.walk(top)] with the roots it yields: [top] as it is given, then
    [os.path.join(top, d)] for every directory [d] it enters. *)
Fixpoint walk_topdown_str (keep : name -> bool) (top : string) (n : node)
  : list (string * list name * list name) :=
  match n with
  | File _ _ => []
  | Dir _ es =>
      (top, List.filter keep (dir_names es), file_names es)
      :: flat_map (fun e : name * node =>
                     if is_dir e.2 && keep e.1
                     then walk_topdown_str keep (os_path_join_str top e.1) e.2
                     else []) es
  end.

Definition os_walk_str (fs : node) (keep : name -> bool) (top : string)
  : list (string * list name * list name) :=
  if String.eqb top EmptyString then []
  else match lookup_path fs (path_components top) with
       | Some n => walk_topdown_str keep top n
       | None => []
       end.

Variable fs : node.
Variables source target : string.
Variable script_name : name.

(** Lines 89-97 for one file name. *)
Definition source_file_body_str (root : string) (name : name)
    (cc : list (string * string)) : option (list (string * string)) :=
  if String.eqb name script_name then Some cc
  else
    let source_file := os_path_join_str root name in
    let target_file := str_replace source target source_file in
    if negb (os_path_exists_str fs target_file)
    then Some (cc ++ [(source_file, target_file)])
    else
      s ← os_path_getmtime_str fs source_file;
      t ← os_path_getmtime_str fs target_file;
      Some (if float_gt s t then cc ++ [(source_file, target_file)] else cc).

(** Lines 87-97. *)
Definition scan_source_files_str : option (list (string * string)) :=
  for_each (fun '(root, _, files) => for_each (source_file_body_str root) files)
           (os_walk_str fs not_excluded source) [].

End PathStrings.

(** ** The execution phases *)

(** The answer to the prompt.  [input()] returns a text, a sequence of
    Unicode code points; [answer] holds its UTF-8 bytes, and [utf8_decode]
    gives the text back.  A byte that no well-formed sequence accounts for
    (no text encodes to it) stands as the code point [0xDC00 + byte], which
    is neither blank nor a letter. *)
Definition code_point : Type := N.

Definition continuation (c : ascii) : option N :=
  let b := N_of_ascii c in
  if N.leb 128 b && N.ltb b 192 then Some (b - 128)%N else None.

Fixpoint utf8_decode (s : string) : list code_point :=
  match s with
  | EmptyString => []
  | String c s1 =>
      let b := N_of_ascii c in
      let lone := (56320 + b)%N :: utf8_decode s1 in
      if N.ltb b 128 then b :: utf8_decode s1
      else if N.leb 194 b && N.ltb b 224 then
        match s1 with
        | String c1 s2 =>
            match continuation c1 with
            | Some x1 => ((b - 192) * 64 + x1)%N :: utf8_decode s2
            | None => lone
            end
        | EmptyString => lone
        end
      else if N.leb 224 b && N.ltb b 240 then
        match s1 with
        | String c1 (String c2 s3) =>
            match continuation c1, continuation c2 with
            | Some x1, Some x2 =>
                let n := ((b - 224) * 4096 + x1 * 64 + x2)%N in
                if N.leb 2048 n && negb (N.leb 55296 n && N.ltb n 57344)
                then n :: utf8_decode s3 else lone
            | _, _ => lone
            end
        | _ => lone
        end
      else if N.leb 240 b && N.ltb b 245 then
        match s1 with
        | String c1 (String c2 (String c3 s4)) =>
            match continuation c1, continuation c2, continuation c3 with
            | Some x1, Some x2, Some x3 =>
                let n := ((b - 240) * 262144 + x1 * 4096 + x2 * 64 + x3)%N in
                if N.leb 65536 n && N.ltb n 1114112
                then n :: utf8_decode s4 else lone
            | _, _, _ => lone
            end
        | _ => lone
        end
      else lone
  end.

(** The code points that [str.strip()] removes: those of [str.isspace()],
    U+0009 to U+000D, U+001C to U+0020, U+0085, U+00A0, U+1680, U+2000 to
    U+200A, U+2028, U+2029, U+202F, U+205F and U+3000. *)
Definition is_space (c : code_point) : bool :=
  (N.leb 9 c && N.leb c 13) || (N.leb 28 c && N.leb c 32)
  || N.eqb c 133 || N.eqb c 160 || N.eqb c 5760
  || (N.leb 8192 c && N.leb c 8202)
  || N.eqb c 8232 || N.eqb c 8233 || N.eqb c 8239 || N.eqb c 8287
  || N.eqb c 12288.

Fixpoint lstrip (s : list code_point) : list code_point :=
  match s with
  | c :: s' => if is_space c then lstrip s' else s
  | [] => []
  end.

(** [str.strip()] *)
Definition strip (s : list code_point) : list code_point :=
  rev (lstrip (rev (lstrip s))).

(** [str.lower()], as far as the comparison with ['y'] can tell: [Y] is the
    one code point other than [y] that it maps to [y]. *)
Definition lower_char (c : code_point) : code_point :=
  if N.leb 65 c && N.leb c 90 then (c + 32)%N else c.

Definition lower (s : list code_point) : list code_point := map lower_char s.

(** [input(...).strip().lower() == 'y'] *)
Definition confirms (answer : string) : bool :=
  match lower (strip (utf8_decode answer)) with
  | [c] => N.eqb c 121
  | _ => false
  end.

(** How a statement ends: normally, or with an exception and its message. *)
Inductive outcome (A : Type) : Type :=
  | Done (a : A)
  | Raised (e : string).
Arguments Done {A} a.
Arguments Raised {A} e.

(** The file operations of the execution phases. *)
Inductive call : Type :=
  | Rmtree (p : path)
  | Remove (p : path)
  | Copy2 (src dst : path)
  | Makedirs (p : path).

(** The tests of the execution phases on the world as it is then. *)
Inductive test : Type :=
  | IsDir (p : path)
  | Exists (p : path).

(** What a run does to the outside world, step by step: the answer of a
    test, the outcome of a file operation. *)
Inductive event : Type :=
  | Tested (q : test) (answer : bool)
  | Called (c : call) (r : outcome unit).

(** [os.path.isdir(p)], [os.path.exists(p)] *)
Definition test_answer (q : test) (fs : node) : bool :=
  match q with
  | IsDir p => os_path_isdir fs p
  | Exists p => os_path_exists fs p
  end.

Section Engine.
(** The outside world: what [os.path] sees of it, and what a file operation
    does to it, which way it ends included.  Nothing is assumed of either. *)
Variable world : Type.
Variable view : world -> node.
Variable os_call : call -> world -> world * outcome unit.

(** The state of a run: the world, [error_paths], what was printed, and the
    tests and file operations so far, with their answers and outcomes. *)
Record run_state : Type := RunState {
  st_world : world;
  st_errors : list string;
  st_output : list string;
  st_trace : list event
}.

Definition run (A : Type) : Type := run_state -> run_state * outcome A.

Definition run_ret {A} (a : A) : run A := fun st => (st, Done a).

Definition run_bind {A B} (m : run A) (k : A -> run B) : run B :=
  fun st =>
    match m st with
    | (st', Done a) => k a st'
    | (st', Raised e) => (st', Raised e)
    end.

Definition raise {A} (e : string) : run A := fun st => (st, Raised e).

(** [try: body except Exception as e: handler(e)] *)
Definition try_except (body : run unit) (handler : string -> run unit) : run unit :=
  fun st =>
    match body st with
    | (st', Done tt) => (st', Done tt)
    | (st', Raised e) => handler e st'
    end.

Definition print (line : string) : run unit :=
  fun st => (RunState (st_world st) (st_errors st) (st_output st ++ [line])
                      (st_trace st), Done tt).

(** [error_paths.append(line)] *)
Definition record_error (line : string) : run unit :=
  fun st => (RunState (st_world st) (st_errors st ++ [line]) (st_output st)
                      (st_trace st), Done tt).

Definition read {A} (f : node -> A) : run A :=
  fun st => (st, Done (f (view (st_world st)))).

Definition get_errors : run (list string) :=
  fun st => (st, Done (st_errors st)).

(** [os.path.isdir] and [os.path.exists] on the world as it is now. *)
Definition probe (q : test) : run bool :=
  fun st =>
    let answer := test_answer q (view (st_world st)) in
    (RunState (st_world st) (st_errors st) (st_output st)
              (st_trace st ++ [Tested q answer]), Done answer).

(** One file operation: it changes the world and ends normally or raises. *)
Definition perform (c : call) : run unit :=
  fun st =>
    let '(w, r) := os_call c (st_world st) in
    (RunState w (st_errors st) (st_output st) (st_trace st ++ [Called c r]), r).

Fixpoint for_in {A} (xs : list A) (body : A -> run unit) : run unit :=
  match xs with
  | [] => run_ret tt
  | x :: xs' => run_bind (body x) (fun _ => for_in xs' body)
  end.

Notation "x <- m ;; k" := (run_bind m (fun x => k))
  (at level 100, m at next level, right associativity, only parsing).
Notation "m ;;; k" := (run_bind m (fun _ => k))
  (at level 100, right associativity, only parsing).

Variables source target : path.

(** Lines 128-137, one delete-candidate. *)
Definition delete_body (path : path) : run unit :=
  try_except
    (isdir <- probe (IsDir path) ;;
     if isdir
     then perform (Rmtree path) ;;;
          print ("Deleted directory: " +:+ path_str path)
     else perform (Remove path) ;;;
          print ("Deleted " +:+ path_str path))
    (fun e => record_error ("Error deleting " +:+ path_str path +:+ ": " +:+ e)).

(** Lines 140-147, one overwrite-candidate. *)
Definition overwrite_body (target_file : path) : run unit :=
  try_except
    (let relative_path := os_path_relpath target_file target in
     let source_file := os_path_join source relative_path in
     perform (Copy2 source_file target_file) ;;;
     print ("Overwritten " +:+ path_str target_file))
    (fun e => record_error
                ("Error overwriting " +:+ path_str target_file +:+ ": " +:+ e)).

(** Lines 150-158, one copy-candidate. *)
Definition copy_body (pair : path * path) : run unit :=
  let '(source_file, target_file) := pair in
  try_except
    (let target_dir := os_path_dirname target_file in
     present <- probe (Exists target_dir) ;;
     (if negb present then perform (Makedirs target_dir) else run_ret tt) ;;;
     perform (Copy2 source_file target_file) ;;;
     print ("Copied " +:+ path_str source_file +:+ " to " +:+ path_str target_file))
    (fun e => record_error
                ("Error copying " +:+ path_str source_file +:+ ": " +:+ e)).

Definition prompt : string := "Proceed with these changes? (y/n): ".

Definition errors_header : string :=
  String (ascii_of_nat 10) "The script encountered errors with the following paths:".

(** Lines 160-164. *)
Definition report_errors : run unit :=
  error_paths <- get_errors ;;
  match error_paths with
  | [] => run_ret tt
  | _ => print errors_header ;;; for_in error_paths print
  end.

(** Lines 99-164 of [sync_directories], for the candidate lists [p] and the
    answer the user gives if asked. *)
Definition execute (p : plan) (answer : string) : run unit :=
  let deletion_summary := deletion_summary (delete_candidates p) in
  let overwrite_summary := overwrite_summary (overwrite_candidates p) in
  (if Nat.ltb 0 (length deletion_summary) || Nat.ltb 0 (length overwrite_summary)
   then for_in (deletion_summary ++ overwrite_summary) print ;;;
        print prompt ;;;
        if confirms answer
        then for_in (delete_candidates p) delete_body ;;;
             for_in (overwrite_candidates p) overwrite_body
        else run_ret tt
   else run_ret tt) ;;;
  for_in (copy_candidates p) copy_body ;;;
  report_errors.

(** [sync_directories(source, target)]: the walks read the world as it is
    when the run starts; a stat that raises there ends the run. *)
Definition sync_directories (script_name : name) (answer : string) : run unit :=
  planned <- read (fun fs => plan_candidates fs source target script_name) ;;
  match planned with
  | None => raise "OSError"
  | Some p => execute p answer
  end.

Definition start (w : world) : run_state := RunState w [] [] [].

End Engine.

Arguments RunState {world}.
Arguments st_world {world}.
Arguments st_errors {world}.
Arguments st_output {world}.
Arguments st_trace {world}.

(** ** The entry point *)

Definition backslash : string := String (ascii_of_nat 92) EmptyString.

Definition DEF_TARGET : string := "E:" +:+ backslash.

Definition DEF_SOURCE : string := "G:" +:+ backslash +:+ "dev".

(** What [parse_arguments()] returns: the values given to [--source] and
    [--target] on the command line, the defaults where none was given. *)
Record namespace : Type := Namespace { args_source : string; args_target : string }.

Definition parse_arguments (given_source given_target : option string) : namespace :=
  Namespace (default DEF_SOURCE given_source) (default DEF_TARGET given_target).

(** Lines 166-178: the two directories that [sync_directories] is called
    with, from the arguments and [os.getcwd()]. *)
Definition main_roots (args : namespace) (cwd : string) : string * string :=
  let source_dir := args_source args in
  let target_dir := args_target args in
  if negb (String.prefix target_dir cwd)
  then (target_dir, source_dir)
  else (source_dir, target_dir).

(** * The vocabulary of the properties *)

(** ** Scanned entries and what selects them *)

(** The pairs [(root, name)] that the nested loops over a walk go through:
    over the files, and over the directories. *)
Definition walk_files (items : list walk_item) : list (path * name) :=
  flat_map (fun it : walk_item => map (pair it.1.1) it.2) items.

Definition walk_dirs (items : list walk_item) : list (path * name) :=
  flat_map (fun it : walk_item => map (pair it.1.1) it.1.2) items.

Section Selection.
Variable fs : node.
Variables source target : path.
Variable script_name : name.

(** The source-side counterpart of a target-side path, as the first two
    walks compute it. *)
Definition source_side (target_path : path) : path :=
  os_path_join source (os_path_relpath target_path target).

Definition entry_path (rn : path * name) : path := os_path_join rn.1 [rn.2].

Definition selects_delete (rn : path * name) : bool :=
  negb (String.eqb rn.2 script_name)
  && should_delete_file fs (entry_path rn) source target.

Definition selects_overwrite (rn : path * name) : bool :=
  negb (String.eqb rn.2 script_name)
  && negb (should_delete_file fs (entry_path rn) source target)
  && os_path_exists fs (source_side (entry_path rn))
  && match should_overwrite_file fs (entry_path rn) (source_side (entry_path rn)) with
     | Some r => String.eqb r "true"
     | None => false
     end.

Definition selects_dir_delete (rn : path * name) : bool :=
  negb (os_path_exists fs (source_side (entry_path rn))).

Definition copy_pair (rn : path * name) : path * path :=
  (entry_path rn, str_replace_first source target (entry_path rn)).

Definition selects_copy (rn : path * name) : bool :=
  negb (String.eqb rn.2 script_name)
  && (negb (os_path_exists fs (copy_pair rn).2)
      || match os_path_getmtime fs (copy_pair rn).1,
               os_path_getmtime fs (copy_pair rn).2 with
         | Some s, Some t => float_gt s t
         | _, _ => false
         end).

End Selection.

(** ** Well-formed trees, and the order of the delete list *)

(** No directory lists a name twice. *)
Fixpoint no_dup_names (l : list name) : bool :=
  match l with
  | [] => true
  | x :: l' => negb (name_in x l') && no_dup_names l'
  end.

Fixpoint wf_node (n : node) : bool :=
  match n with
  | File _ _ => true
  | Dir _ es => no_dup_names (map fst es) && forallb (fun e => wf_node e.2) es
  end.

(** [b] lies strictly below [a]. *)
Definition below (a b : path) : Prop := exists r, r <> [] /\ b = a ++ r.

(** The order the delete list has: nothing is followed by one of its own
    descendants. *)
Definition children_first (l : list path) : Prop :=
  StronglySorted (fun a b => ~ below a b) l.

(** ** Groups of the summary *)

Fixpoint dict_get (directory : path) (directories : dict) : option (list path) :=
  match directories with
  | [] => None
  | (k, files) :: rest =>
      if path_eqb k directory then Some files else dict_get directory rest
  end.

(** The candidates whose containing directory is [directory]. *)
Definition files_in (directory : path) (candidates : list path) : list path :=
  List.filter (fun file => path_eqb (os_path_dirname file) directory) candidates.

(** The lines of one group: one collapsed line, or one line per entry. *)
Definition group_lines (collapsed single : string) (directory : path)
    (files : list path) : list string :=
  if Nat.ltb 20 (length files) then [collapsed +:+ path_str directory]
  else map (fun file => single +:+ path_str file) files.

(** ** Trees without their contents *)

(** The tree [n] with every file emptied: names, kinds and modification
    times stay. *)
Fixpoint erase_content (n : node) : node :=
  match n with
  | File m _ => File m EmptyString
  | Dir m es => Dir m (map (fun e : name * node => (e.1, erase_content e.2)) es)
  end.

Definition erase_entries (es : list (name * node)) : list (name * node) :=
  map (fun e : name * node => (e.1, erase_content e.2)) es.

(** ** Names as a file system has them *)

(** A name is not empty and holds no separator. *)
Fixpoint no_sep (sep : ascii) (s : string) : bool :=
  match s with
  | EmptyString => true
  | String c s' => negb (Ascii.eqb c sep) && no_sep sep s'
  end.

Definition plain (sep : ascii) (name : string) : bool :=
  negb (String.eqb name EmptyString) && no_sep sep name.

Fixpoint plain_tree (sep : ascii) (n : node) : bool :=
  match n with
  | File _ _ => true
  | Dir _ es => forallb (fun e => plain sep e.1 && plain_tree sep e.2) es
  end.

(** [os.path.join] over a list of names, from the left. *)
Definition join_all (sep : ascii) (top : string) (q : path) : string :=
  fold_left (os_path_join_str sep) q top.

(** What [os.path.join] puts after [top] on the way down the names [q]. *)
Definition rel_string (sep : ascii) (top : string) (q : path) : string :=
  if ends_with_sep sep top then path_string sep q
  else String sep (path_string sep q).

(** The root that the walk on strings yields where the walk on components,
    started at [p], yields [root]. *)
Definition str_root (sep : ascii) (top : string) (p root : path) : string :=
  join_all sep top (drop (length p) root).


(** ** Blank texts *)

(** Every code point is one that [str.strip()] removes. *)
Definition all_space (s : list code_point) : bool := forallb is_space s.

(** ** What one run attempts *)

(** The units of work of the execution phases, in the order of the run. *)
Inductive task : Type :=
  | Delete (p : path)
  | Overwrite (target_file : path)
  | Copy (source_file target_file : path).

Definition tasks (p : plan) (proceed : bool) : list task :=
  (if proceed
   then map Delete (delete_candidates p) ++ map Overwrite (overwrite_candidates p)
   else [])
  ++ map (fun pair : path * path => Copy pair.1 pair.2) (copy_candidates p).

(** The exception an attempt ended with, if any: that of its last operation. *)
Definition failure (chunk : list event) : option string :=
  match last chunk with
  | Some (Called _ (Raised e)) => Some e
  | _ => None
  end.

Definition task_error_prefix (t : task) : string :=
  match t with
  | Delete p => "Error deleting " +:+ path_str p
  | Overwrite target_file => "Error overwriting " +:+ path_str target_file
  | Copy source_file _ => "Error copying " +:+ path_str source_file
  end.

(** The entry an attempt adds to [error_paths]. *)
Definition task_errors (t : task) (chunk : list event) : list string :=
  match failure chunk with
  | Some e => [task_error_prefix t +:+ ": " +:+ e]
  | None => []
  end.

(** The progress line an attempt prints. *)
Definition task_progress (t : task) (chunk : list event) : list string :=
  match failure chunk with
  | Some _ => []
  | None =>
      match t, last chunk with
      | Delete p, Some (Called (Rmtree _) _) =>
          ["Deleted directory: " +:+ path_str p]
      | Delete p, _ => ["Deleted " +:+ path_str p]
      | Overwrite target_file, _ => ["Overwritten " +:+ path_str target_file]
      | Copy source_file target_file, _ =>
          ["Copied " +:+ path_str source_file +:+ " to " +:+ path_str target_file]
      end
  end.

(** The steps of one attempt at a copy-candidate: the destination directory
    is tested; the copy follows when it is there, or once it has been
    created; there is no copy when that creation raised. *)
Definition copy_attempt (source_file target_file : path) (chunk : list event) : Prop :=
  let target_dir := os_path_dirname target_file in
  (exists r, chunk = [Tested (Exists target_dir) true;
                      Called (Copy2 source_file target_file) r])
  \/ (exists r, chunk = [Tested (Exists target_dir) false;
                        Called (Makedirs target_dir) (Done tt);
                        Called (Copy2 source_file target_file) r])
  \/ (exists e, chunk = [Tested (Exists target_dir) false;
                        Called (Makedirs target_dir) (Raised e)]).

Section Attempts.
Variable world : Type.
Variable view : world -> node.
Variable os_call : call -> world -> world * outcome unit.
Variables source target : path.

(** The steps of one attempt at a task. *)
Definition attempt (t : task) (chunk : list event) : Prop :=
  match t with
  | Delete p =>
      exists r, chunk = [Tested (IsDir p) true; Called (Rmtree p) r]
                \/ chunk = [Tested (IsDir p) false; Called (Remove p) r]
  | Overwrite target_file =>
      exists r, chunk = [Called (Copy2 (source_side source target target_file)
                                       target_file) r]
  | Copy source_file target_file => copy_attempt source_file target_file chunk
  end.

(** The steps [trace] lead from the world [w] to the world [w']: every test
    got the answer of the world as it was then, every operation the outcome
    it had then, and the world changed by the operations only. *)
Fixpoint replays (trace : list event) (w w' : world) : Prop :=
  match trace with
  | [] => w' = w
  | Tested q answer :: trace' =>
      answer = test_answer q (view w) /\ replays trace' w w'
  | Called c r :: trace' =>
      r = (os_call c w).2 /\ replays trace' (os_call c w).1 w'
  end.

(** The operations the copy phase may issue for the plan [p]. *)
Definition copy_phase_call (p : plan) (c : call) : Prop :=
  match c with
  | Rmtree _ | Remove _ => False
  | Copy2 source_file target_file =>
      In (source_file, target_file) (copy_candidates p)
  | Makedirs target_dir =>
      exists source_file target_file,
        In (source_file, target_file) (copy_candidates p)
        /\ target_dir = os_path_dirname target_file
  end.

Definition run_task (t : task) : run world unit :=
  match t with
  | Delete p => delete_body world view os_call p
  | Overwrite target_file => overwrite_body world os_call source target target_file
  | Copy source_file target_file =>
      copy_body world view os_call (source_file, target_file)
  end.

End Attempts.

(** The errors and the progress lines of a run of attempts. *)
Definition all_errors (ts : list task) (chunks : list (list event)) : list string :=
  concat (zip_with task_errors ts chunks).

Definition all_progress (ts : list task) (chunks : list (list event)) : list string :=
  concat (zip_with task_progress ts chunks).

(** What the summary and the prompt print before the destructive phase. *)
Definition review_lines (p : plan) : list string :=
  let summary := deletion_summary (delete_candidates p)
                 ++ overwrite_summary (overwrite_candidates p) in
  match summary with
  | [] => []
  | _ => summary ++ ["Proceed with these changes? (y/n): "]
  end.

(** The closing report. *)
Definition report_lines (error_paths : list string) : list string :=
  match error_paths with
  | [] => []
  | _ => String (ascii_of_nat 10)
                "The script encountered errors with the following paths:"
         :: error_paths
  end.

Definition call_target (c : call) : path :=
  match c with
  | Rmtree p | Remove p | Makedirs p => p
  | Copy2 _ dst => dst
  end.

(** The file operations among the steps of a run, in order. *)
Definition calls_of (trace : list event) : list call :=
  flat_map (fun e => match e with Called c _ => [c] | Tested _ _ => [] end) trace.

(** * A disk to run on, and example trees *)

(** The file operations on the tree, after the documentation of [os] and
    [shutil]: [rmtree] removes a directory with all it holds, [remove] a
    file, [copy2] copies content and time, into the destination when that is
    a directory, and [makedirs] creates every missing directory (with time 0:
    there is no clock).  A path in [disk_locked] refuses every operation on
    it, as a permission or sharing error would.  The examples run on this
    disk; the properties of the execution phases hold for any world. *)
Fixpoint remove_entry (c : name) (es : list (name * node)) : list (name * node) :=
  match es with
  | [] => []
  | (d, n) :: es' => if String.eqb c d then es' else (d, n) :: remove_entry c es'
  end.

Fixpoint set_entry (c : name) (new : node) (es : list (name * node))
  : list (name * node) :=
  match es with
  | [] => [(c, new)]
  | (d, n) :: es' =>
      if String.eqb c d then (c, new) :: es' else (d, n) :: set_entry c new es'
  end.

(** The tree without what [p] names. *)
Fixpoint tree_remove (p : path) (n : node) : option node :=
  match p, n with
  | [c], Dir m es =>
      match find_entry c es with
      | Some _ => Some (Dir m (remove_entry c es))
      | None => None
      end
  | c :: p', Dir m es =>
      match find_entry c es with
      | Some n' => n'' ← tree_remove p' n'; Some (Dir m (set_entry c n'' es))
      | None => None
      end
  | _, _ => None
  end.

(** The tree with [new] under the path [p], whose parent must be a
    directory. *)
Fixpoint tree_put (p : path) (new : node) (n : node) : option node :=
  match p, n with
  | [c], Dir m es => Some (Dir m (set_entry c new es))
  | c :: p', Dir m es =>
      match find_entry c es with
      | Some n' => n'' ← tree_put p' new n'; Some (Dir m (set_entry c n'' es))
      | None => None
      end
  | _, _ => None
  end.

(** The tree with every missing directory along [p] created. *)
Fixpoint tree_mkdirs (p : path) (n : node) : option node :=
  match p, n with
  | [], Dir _ _ => Some n
  | c :: p', Dir m es =>
      n'' ← tree_mkdirs p' (default (Dir 0%float []) (find_entry c es));
      Some (Dir m (set_entry c n'' es))
  | _, File _ _ => None
  end.

Record disk : Type := Disk { disk_tree : node; disk_locked : list path }.

Definition tree_call (c : call) (fs : node) : option node :=
  match c with
  | Rmtree p =>
      match lookup_path fs p with
      | Some (Dir _ _) => tree_remove p fs
      | _ => None
      end
  | Remove p =>
      match lookup_path fs p with
      | Some (File _ _) => tree_remove p fs
      | _ => None
      end
  | Copy2 src dst =>
      match lookup_path fs src with
      | Some (File m c) =>
          match lookup_path fs dst with
          | Some (Dir _ _) => tree_put (dst ++ [os_path_basename src]) (File m c) fs
          | _ => tree_put dst (File m c) fs
          end
      | _ => None
      end
  | Makedirs p =>
      if os_path_exists fs p then None else tree_mkdirs p fs
  end.

Definition disk_call (c : call) (d : disk) : disk * outcome unit :=
  if existsb (path_eqb (call_target c)) (disk_locked d)
  then (d, Raised "PermissionError")
  else match tree_call c (disk_tree d) with
       | Some fs' => (Disk fs' (disk_locked d), Done tt)
       | None => (d, Raised "OSError")
       end.

Definition run_on (d : disk) (answer : string) : run_state disk * outcome unit :=
  sync_directories disk disk_tree disk_call ["s"] ["t"] "sync.py" answer
                   (start disk d).

Definition root_of (es : list (name * node)) : node := Dir 0%float es.

(** [/s/a.txt] was changed one second after [/t/a.txt]. *)
Definition fs_one_second : node :=
  root_of [("s", Dir 50%float [("a.txt", File 101%float "new")]);
           ("t", Dir 50%float [("a.txt", File 100%float "old")])].

(** Two example trees: [/t/a.txt] is ten seconds newer than [/s/a.txt], and
    the other way round. *)
Definition fs_target_newer : node :=
  root_of [("s", Dir 50%float [("a.txt", File 100%float "theirs")]);
           ("t", Dir 50%float [("a.txt", File 110%float "mine")])].

Definition fs_target_older : node :=
  root_of [("s", Dir 50%float [("a.txt", File 110%float "theirs")]);
           ("t", Dir 50%float [("a.txt", File 100%float "mine")])].

(** [/t/orphan.txt] and the directory [/t/old] have no counterpart below
    [/s]; [/t/keep.txt] has one of the same age. *)
Definition fs_orphan : node :=
  root_of [("s", Dir 50%float [("keep.txt", File 100%float "k")]);
           ("t", Dir 50%float [("keep.txt", File 100%float "k");
                               ("orphan.txt", File 100%float "o");
                               ("old", Dir 60%float [])])].

Definition plan_orphan : plan :=
  Plan [["t"; "orphan.txt"]; ["t"; "old"]] [] [].

(** [/t/System Volume Information] holds a file and a directory with a file
    of its own; [/s] is empty. *)
Definition fs_excluded : node :=
  root_of [("s", Dir 50%float []);
           ("t", Dir 50%float
              [("System Volume Information", Dir 60%float
                  [("x.dat", File 70%float "x");
                   ("sub", Dir 60%float [("f.txt", File 70%float "f")])])])].

(** [/t/sync.py] is a directory, and [/s] has nothing of that name. *)
Definition fs_script_dir : node :=
  root_of [("s", Dir 50%float []);
           ("t", Dir 50%float [("sync.py", Dir 60%float [])])].

(** [/t/a/b/file.txt] where [/s] has no [a]. *)
Definition fs_nested : node :=
  root_of [("s", Dir 50%float []);
           ("t", Dir 50%float
              [("a", Dir 60%float
                  [("b", Dir 60%float [("file.txt", File 70%float "f")])])])].

Definition plan_nested : plan :=
  Plan [["t"; "a"; "b"; "file.txt"]; ["t"; "a"; "b"]; ["t"; "a"]] [] [].

(** Twenty-one candidates of one directory, and the first twenty of them. *)
Definition file_no (n : nat) : path :=
  ["t"; "d"; String (Ascii.ascii_of_nat (97 + n)) ".txt"].

Definition candidates_21 : list path := map file_no (seq 0 21).

Definition candidates_20 : list path := map file_no (seq 0 20).

(** [/t] holds an orphan file and a stale directory; [/s] holds a file
    that [/t] lacks, in a directory that [/t] lacks. *)
Definition fs_run : node :=
  root_of [("s", Dir 50%float
              [("new", Dir 50%float [("n.txt", File 100%float "n")])]);
           ("t", Dir 50%float
              [("orphan.txt", File 100%float "o");
               ("old", Dir 60%float [("x.txt", File 100%float "x")])])].

Definition disk_run : disk := Disk fs_run [].

(** A no-break space (U+00A0) and an em space (U+2003), in UTF-8. *)
Definition nbsp : string :=
  String (ascii_of_nat 194) (String (ascii_of_nat 160) EmptyString).

Definition em_space : string :=
  String (ascii_of_nat 226)
    (String (ascii_of_nat 128) (String (ascii_of_nat 131) EmptyString)).

(** [/s] and [/t] hold the same tree. *)
Definition tree_mirrored : node :=
  Dir 50%float [("a.txt", File 100%float "a");
                ("d", Dir 60%float [("b.txt", File 110%float "b")])].

Definition fs_mirrored : node :=
  root_of [("s", tree_mirrored); ("t", tree_mirrored)].

(** The same, after [/s/a.txt] was rewritten with its time kept. *)
Definition fs_mirrored_edited : node :=
  root_of [("s", Dir 50%float [("a.txt", File 100%float "changed");
                               ("d", Dir 60%float [("b.txt", File 110%float "b")])]);
           ("t", tree_mirrored)].

(** Two drives: [E:] holds [a.txt], and [dev] on [G:] holds the same file. *)
Definition fs_drives : node :=
  root_of [("E:", Dir 50%float [("a.txt", File 100%float "a")]);
           ("G:", Dir 50%float
              [("dev", Dir 50%float [("a.txt", File 100%float "a")])])].

(** [/s/x] is a file, [/t/x] an older directory that holds a file [x]. *)
Definition fs_shadowed : node :=
  root_of [("s", Dir 50%float [("x", File 200%float "sx")]);
           ("t", Dir 50%float [("x", Dir 100%float [("x", File 50%float "old")])])].

Definition plan_shadowed : plan :=
  Plan [["t"; "x"; "x"]] [] [(["s"; "x"], ["t"; "x"])].

Definition plan_run : plan :=
  Plan [["t"; "orphan.txt"]; ["t"; "old"; "x.txt"]; ["t"; "old"]] []
       [(["s"; "new"; "n.txt"], ["t"; "new"; "n.txt"])].

(** * Properties *)

(** ** Floats: [<] is asymmetric *)

Lemma SFcompare_swap (x y : spec_float) :
  SFcompare y x = option_map CompOpp (SFcompare x y).
Proof.
  destruct x as [sx|sx| |sx mx ex], y as [sy|sy| |sy my ey]; simpl;
    try reflexivity; try (destruct sx; reflexivity); try (destruct sy; reflexivity);
    try (destruct sx, sy; reflexivity).
  pose proof (Pos.compare_cont_antisym mx my Eq) as Hm. simpl in Hm.
  destruct sx, sy; simpl; try reflexivity; f_equal;
    rewrite (Z.compare_antisym ex ey);
    destruct (ex ?= ey)%Z; simpl; try reflexivity.
  - rewrite <- Hm. reflexivity.
  - rewrite <- Hm. destruct (Pos.compare_cont Eq mx my); reflexivity.
Qed.

Lemma float_lt_asym (a b : float) :
  PrimFloat.ltb a b = true -> PrimFloat.ltb b a = false.
Proof.
  rewrite !ltb_spec. unfold SFltb.
  rewrite (SFcompare_swap (Prim2SF a) (Prim2SF b)).
  destruct (SFcompare (Prim2SF a) (Prim2SF b)) as [[]|]; simpl; congruence.
Qed.

(** ** Loops *)

Lemma for_each_app {A S} (body : A -> S -> option S) xs ys s :
  for_each body (xs ++ ys) s = for_each body xs s ≫= for_each body ys.
Proof.
  revert s. induction xs as [|x xs IH]; intros s; simpl; [done|].
  destruct (body x s) as [s'|]; simpl; [apply IH|done].
Qed.

Lemma in_walk_files items root name :
  In (root, name) (walk_files items) <->
  exists dirs files, In (root, dirs, files) items /\ In name files.
Proof.
  unfold walk_files. rewrite in_flat_map. split.
  - intros ([[r ds] fs0] & Hit & Hin). simpl in Hin.
    apply in_map_iff in Hin as (x & [= <- <-] & Hx). eauto.
  - intros (ds & fs0 & Hit & Hn). exists (root, ds, fs0). split; [done|].
    simpl. apply in_map. done.
Qed.

Lemma in_walk_dirs items root name :
  In (root, name) (walk_dirs items) <->
  exists dirs files, In (root, dirs, files) items /\ In name dirs.
Proof.
  unfold walk_dirs. rewrite in_flat_map. split.
  - intros ([[r ds] fs0] & Hit & Hin). simpl in Hin.
    apply in_map_iff in Hin as (x & [= <- <-] & Hx). eauto.
  - intros (ds & fs0 & Hit & Hn). exists (root, ds, fs0). split; [done|].
    simpl. apply in_map. done.
Qed.

Lemma for_each_nested {S} (body : path -> name -> S -> option S) items s :
  for_each (fun '(root, _, files) => for_each (body root) files) items s
  = for_each (fun rn => body rn.1 rn.2) (walk_files items) s.
Proof.
  revert s. induction items as [|[[root ds] fs0] items IH]; intros s; [done|].
  cbn [for_each walk_files flat_map]. rewrite for_each_app.
  assert (Hin : forall s0, for_each (body root) fs0 s0
     = for_each (fun rn => body rn.1 rn.2) (map (pair root) fs0) s0).
  { clear. induction fs0 as [|f fs0 IHf]; intros s0; simpl; [done|].
    destruct (body root f s0); simpl; [apply IHf|done]. }
  simpl. rewrite <- Hin. destruct (for_each (body root) fs0 s); simpl; [|done].
  apply IH.
Qed.

(** A loop that appends [f x] for the [x] that [sel] picks, and raises on
    none or some of the others, has built the selected elements in order when
    it ends normally. *)
Lemma for_each_collect {A B} (body : A -> list B -> option (list B))
    (sel : A -> bool) (f : A -> B) xs :
  (forall x acc acc', body x acc = Some acc' ->
     acc' = acc ++ (if sel x then [f x] else [])) ->
  forall acc acc', for_each body xs acc = Some acc' ->
    acc' = acc ++ map f (List.filter sel xs).
Proof.
  intros Hbody. induction xs as [|x xs IH]; intros acc acc'; simpl.
  - intros [= <-]. by rewrite app_nil_r.
  - destruct (body x acc) as [acc1|] eqn:Hb; simpl; [|done].
    intros Hrest. apply IH in Hrest. apply Hbody in Hb. subst.
    destruct (sel x); simpl; by rewrite <- app_assoc.
Qed.

Lemma for_each_collect2 {A B} (body : A -> list B * list B -> option (list B * list B))
    (sel1 sel2 : A -> bool) (f : A -> B) xs :
  (forall x st st', body x st = Some st' ->
     st' = (st.1 ++ (if sel1 x then [f x] else []),
            st.2 ++ (if sel2 x then [f x] else []))) ->
  forall st st', for_each body xs st = Some st' ->
    st' = (st.1 ++ map f (List.filter sel1 xs), st.2 ++ map f (List.filter sel2 xs)).
Proof.
  intros Hbody. induction xs as [|x xs IH]; intros st st'; simpl.
  - intros [= <-]. rewrite !app_nil_r. by destruct st.
  - destruct (body x st) as [st1|] eqn:Hb; simpl; [|done].
    intros Hrest. apply IH in Hrest. apply Hbody in Hb. subst. simpl.
    destruct (sel1 x), (sel2 x); simpl; by rewrite <- ?app_assoc.
Qed.

Lemma fold_left_collect {A B} (sel : A -> bool) (f : A -> B) xs acc :
  fold_left (fun acc x => if sel x then acc ++ [f x] else acc) xs acc
  = acc ++ map f (List.filter sel xs).
Proof.
  revert acc. induction xs as [|x xs IH]; intros acc; simpl.
  - by rewrite app_nil_r.
  - rewrite IH. destruct (sel x); simpl; by rewrite <- ?app_assoc.
Qed.

Lemma fold_left_nested {S} (body : path -> name -> S -> S) items s :
  fold_left (fun s '(root, dirs, _) =>
               fold_left (fun s name => body root name s) dirs s) items s
  = fold_left (fun s rn => body rn.1 rn.2 s) (walk_dirs items) s.
Proof.
  revert s. induction items as [|[[root ds] fs0] items IH]; intros s; [done|].
  cbn [fold_left walk_dirs flat_map]. rewrite fold_left_app, IH. f_equal.
  simpl. generalize s. clear. induction ds as [|d ds IHd]; intros s; simpl; [done|].
  apply IHd.
Qed.

(** ** What the three walks collect *)

Section PlannerFacts.
Variable fs : node.
Variables source target : path.
Variable script_name : name.

Lemma scan_target_files_spec dc oc :
  scan_target_files fs source target script_name = Some (dc, oc) ->
  let scanned := walk_files (os_walk fs not_excluded true target) in
  dc = map entry_path (List.filter (selects_delete fs source target script_name) scanned)
  /\ oc = map entry_path (List.filter (selects_overwrite fs source target script_name) scanned).
Proof.
  unfold scan_target_files. rewrite for_each_nested. intros H.
  apply (for_each_collect2 _ (selects_delete fs source target script_name)
           (selects_overwrite fs source target script_name) entry_path) in H.
  - simpl in H. by injection H as -> ->.
  - clear. intros [root name] st st'. unfold target_file_body, selects_delete,
      selects_overwrite, source_side, entry_path. simpl.
    destruct (String.eqb name script_name); simpl.
    { intros [= <-]. rewrite !app_nil_r. by destruct st. }
    destruct (should_delete_file _ _ _ _) eqn:Hd; simpl.
    { intros [= <-]. by rewrite app_nil_r. }
    destruct (os_path_exists _ _); simpl.
    2:{ intros [= <-]. rewrite !app_nil_r. by destruct st. }
    destruct (should_overwrite_file _ _ _) as [r|]; simpl; [|done].
    intros [= <-]. destruct (String.eqb r "true"); simpl;
      rewrite ?app_nil_r; by destruct st.
Qed.

Lemma scan_target_dirs_spec dc :
  scan_target_dirs fs source target dc
  = dc ++ map entry_path
            (List.filter (selects_dir_delete fs source target)
               (walk_dirs (os_walk fs not_excluded false target))).
Proof.
  unfold scan_target_dirs.
  rewrite (fold_left_nested (fun root name dc => target_dir_body fs source target root name dc)).
  rewrite <- fold_left_collect. done.
Qed.

Lemma scan_source_files_spec cc :
  scan_source_files fs source target script_name = Some cc ->
  cc = map (copy_pair source target)
         (List.filter (selects_copy fs source target script_name) (walk_files (os_walk fs not_excluded true source))).
Proof.
  unfold scan_source_files. rewrite for_each_nested. intros H.
  apply (for_each_collect _ (selects_copy fs source target script_name)
           (copy_pair source target)) in H; [done|].
  clear. intros [root name] acc acc'. unfold source_file_body, selects_copy, copy_pair,
    entry_path. simpl.
  destruct (String.eqb name script_name); simpl.
  { intros [= <-]. by rewrite app_nil_r. }
  destruct (os_path_exists _ _); simpl; [|by intros [= <-]].
  destruct (os_path_getmtime fs (os_path_join root [name])) as [s|]; simpl; [|done].
  destruct (os_path_getmtime fs _) as [t|]; simpl; [|done].
  intros [= <-]. destruct (float_gt s t); by rewrite ?app_nil_r.
Qed.

Lemma plan_candidates_spec p :
  plan_candidates fs source target script_name = Some p ->
  let tfiles := walk_files (os_walk fs not_excluded true target) in
  let tdirs := walk_dirs (os_walk fs not_excluded false target) in
  let sfiles := walk_files (os_walk fs not_excluded true source) in
  delete_candidates p
    = map entry_path (List.filter (selects_delete fs source target script_name) tfiles)
      ++ map entry_path (List.filter (selects_dir_delete fs source target) tdirs)
  /\ overwrite_candidates p = map entry_path (List.filter (selects_overwrite fs source target script_name) tfiles)
  /\ copy_candidates p = map (copy_pair source target) (List.filter (selects_copy fs source target script_name) sfiles).
Proof.
  unfold plan_candidates.
  destruct (scan_target_files _ _ _ _) as [[dc oc]|] eqn:H1; simpl; [|done].
  destruct (scan_source_files _ _ _ _) as [cc|] eqn:H3; simpl; [|done].
  intros [= <-]. simpl. apply scan_target_files_spec in H1 as [-> ->].
  apply scan_source_files_spec in H3 as ->. rewrite scan_target_dirs_spec. done.
Qed.

End PlannerFacts.

Lemma entry_path_inj (rn rn' : path * name) :
  entry_path rn = entry_path rn' -> rn = rn'.
Proof.
  destruct rn as [r n], rn' as [r' n']. unfold entry_path, os_path_join. simpl.
  intros H. apply app_inj_tail in H as [-> ->]. done.
Qed.

Lemma in_map_entry_path (rn : path * name) (sel : path * name -> bool) l :
  In (entry_path rn) (map entry_path (List.filter sel l))
  <-> In rn l /\ sel rn = true.
Proof.
  rewrite in_map_iff. split.
  - intros (rn' & Heq & Hin). apply entry_path_inj in Heq as ->.
    by apply filter_In in Hin.
  - intros H. exists rn. split; [done|]. by apply filter_In.
Qed.


Lemma getmtime_exists fs p t :
  os_path_getmtime fs p = Some t -> os_path_exists fs p = true.
Proof.
  unfold os_path_getmtime, os_path_exists. by destruct (lookup_path fs p).
Qed.

Lemma exists_false_getmtime fs p :
  os_path_exists fs p = false -> os_path_getmtime fs p = None.
Proof.
  unfold os_path_getmtime, os_path_exists. by destruct (lookup_path fs p).
Qed.

(** ** Trees, paths and walks *)

Lemma node_ind (P : node -> Prop) :
  (forall m c, P (File m c)) ->
  (forall m es, Forall (fun e => P e.2) es -> P (Dir m es)) ->
  forall n, P n.
Proof.
  intros HF HD. fix IH 1. intros [m c|m es]; [apply HF|apply HD].
  revert es. fix IHes 1. intros [|e es]; constructor; [apply IH|apply IHes].
Qed.

Lemma name_in_In d l : name_in d l = true <-> In d l.
Proof.
  unfold name_in. rewrite existsb_exists. split.
  - intros (x & Hx & Heq). apply String.eqb_eq in Heq. by subst.
  - intros H. exists d. split; [done|apply String.eqb_refl].
Qed.

Lemma find_entry_In c es n : find_entry c es = Some n -> In (c, n) es.
Proof.
  induction es as [|[d n'] es IH]; simpl; [done|].
  destruct (String.eqb c d) eqn:E.
  - apply String.eqb_eq in E as ->. intros [= ->]. by left.
  - intros H. right. by apply IH.
Qed.

Lemma find_entry_unique c n es :
  no_dup_names (map fst es) = true -> In (c, n) es -> find_entry c es = Some n.
Proof.
  induction es as [|[d n'] es IH]; simpl; [done|].
  intros [Hnin Hnd]%andb_prop [[= -> ->]|Hin].
  - by rewrite String.eqb_refl.
  - destruct (String.eqb c d) eqn:E; [|by apply IH].
    apply String.eqb_eq in E as ->. apply negb_true_iff in Hnin.
    assert (name_in d (map fst es) = true); [|congruence].
    apply name_in_In. apply in_map_iff. by exists (d, n).
Qed.

Lemma in_dir_names d es : In d (dir_names es) <-> exists m es', In (d, Dir m es') es.
Proof.
  induction es as [|[d' [m c|m es']] es IH]; simpl.
  - split; [done|]. by intros (? & ? & []).
  - rewrite IH. split.
    + intros (m' & es' & H). eauto.
    + intros (m' & es' & [[=]|H]). eauto.
  - split.
    + intros [->|H]; [eauto|]. apply IH in H as (m' & es'' & H). eauto.
    + intros (m' & es'' & [[= -> -> ->]|H]); [by left|]. right. apply IH. eauto.
Qed.

Lemma in_file_names d es : In d (file_names es) <-> exists m c, In (d, File m c) es.
Proof.
  induction es as [|[d' [m c|m es']] es IH]; simpl.
  - split; [done|]. by intros (? & ? & []).
  - split.
    + intros [->|H]; [eauto|]. apply IH in H as (m' & c' & H). eauto.
    + intros (m' & c' & [[= -> -> ->]|H]); [by left|]. right. apply IH. eauto.
  - rewrite IH. split.
    + intros (m' & c' & H). eauto.
    + intros (m' & c' & [[=]|H]). eauto.
Qed.

Lemma lookup_path_app n p q :
  lookup_path n (p ++ q) = lookup_path n p ≫= fun n' => lookup_path n' q.
Proof.
  revert n. induction p as [|c p IH]; intros n; simpl; [done|].
  destruct n as [|m es]; [done|]. destruct (find_entry c es); [apply IH|done].
Qed.

Lemma lookup_path_snoc n r d n' :
  lookup_path n (r ++ [d]) = Some n' ->
  exists m es, lookup_path n r = Some (Dir m es) /\ find_entry d es = Some n'.
Proof.
  rewrite lookup_path_app. destruct (lookup_path n r) as [[m c|m es]|]; simpl; try done.
  destruct (find_entry d es) as [n1|] eqn:E; [|done]. intros [= <-]. eauto.
Qed.

Lemma wf_node_entry m es c n :
  wf_node (Dir m es) = true -> In (c, n) es -> wf_node n = true.
Proof.
  simpl. intros [_ Hall]%andb_prop Hin.
  rewrite forallb_forall in Hall. by apply (Hall (c, n)).
Qed.

Lemma wf_node_lookup n p n' :
  wf_node n = true -> lookup_path n p = Some n' -> wf_node n' = true.
Proof.
  revert n. induction p as [|c p IH]; intros n Hwf; simpl.
  - by intros [= <-].
  - destruct n as [|m es]; [done|]. destruct (find_entry c es) as [n1|] eqn:E; [|done].
    apply IH. eapply wf_node_entry; [done|]. by apply find_entry_In.
Qed.

(** Every item of a walk is the listing of a directory below the top; in a
    well-formed tree the path of the item leads to that directory. *)
Lemma walk_topdown_lookup keep n : forall top root dirs files,
  wf_node n = true ->
  In (root, dirs, files) (walk_topdown keep top n) ->
  exists r m es, root = top ++ r /\ lookup_path n r = Some (Dir m es)
    /\ dirs = List.filter keep (dir_names es) /\ files = file_names es.
Proof.
  induction n as [m c|m es IH] using node_ind; intros top root dirs files Hwf; [done|].
  simpl. intros [[= <- <- <-]|Hin].
  - exists [], m, es. by rewrite app_nil_r.
  - apply in_flat_map in Hin as ([d c] & Hes & Hin). simpl in Hin.
    destruct (is_dir c && keep d); [|done].
    rewrite List.Forall_forall in IH. apply (IH _ Hes) in Hin as (r & m' & es' & -> & Hl & -> & ->).
    2:{ by eapply wf_node_entry. }
    exists (d :: r), m', es'. rewrite <- app_assoc. split; [done|]. split; [|done].
    simpl. rewrite (find_entry_unique d c); [done| |done].
    simpl in Hwf. by apply andb_prop in Hwf as [? _].
Qed.

Lemma walk_bottomup_lookup keep n : forall top root dirs files,
  wf_node n = true ->
  In (root, dirs, files) (walk_bottomup keep top n) ->
  exists r m es, root = top ++ r /\ lookup_path n r = Some (Dir m es)
    /\ dirs = List.filter keep (dir_names es) /\ files = file_names es.
Proof.
  induction n as [m c|m es IH] using node_ind; intros top root dirs files Hwf; [done|].
  simpl. rewrite in_app_iff. intros [Hin|[[= <- <- <-]|[]]].
  - apply in_flat_map in Hin as ([d c] & Hes & Hin). simpl in Hin.
    destruct (is_dir c); [|done].
    rewrite List.Forall_forall in IH. apply (IH _ Hes) in Hin as (r & m' & es' & -> & Hl & -> & ->).
    2:{ by eapply wf_node_entry. }
    exists (d :: r), m', es'. rewrite <- app_assoc. split; [done|]. split; [|done].
    simpl. rewrite (find_entry_unique d c); [done| |done].
    simpl in Hwf. by apply andb_prop in Hwf as [? _].
  - exists [], m, es. by rewrite app_nil_r.
Qed.

(** Without well-formedness the path of an item still starts with the top. *)
Lemma walk_topdown_root keep n : forall top root dirs files,
  In (root, dirs, files) (walk_topdown keep top n) -> exists r, root = top ++ r.
Proof.
  induction n as [m c|m es IH] using node_ind; intros top root dirs files; [done|].
  simpl. intros [[= <- <- <-]|Hin].
  - exists []. by rewrite app_nil_r.
  - apply in_flat_map in Hin as ([d c] & Hes & Hin). simpl in Hin.
    destruct (is_dir c && keep d); [|done].
    rewrite List.Forall_forall in IH. apply (IH _ Hes) in Hin as (r & ->).
    exists (d :: r). by rewrite <- app_assoc.
Qed.

Lemma walk_bottomup_root keep n : forall top root dirs files,
  In (root, dirs, files) (walk_bottomup keep top n) -> exists r, root = top ++ r.
Proof.
  induction n as [m c|m es IH] using node_ind; intros top root dirs files; [done|].
  simpl. rewrite in_app_iff. intros [Hin|[[= <- <- <-]|[]]].
  - apply in_flat_map in Hin as ([d c] & Hes & Hin). simpl in Hin.
    destruct (is_dir c); [|done].
    rewrite List.Forall_forall in IH. apply (IH _ Hes) in Hin as (r & ->).
    exists (d :: r). by rewrite <- app_assoc.
  - exists []. by rewrite app_nil_r.
Qed.

(** The two top-down walks do prune: every component of an item's path
    below the top is a name the loop body kept. *)
Lemma walk_topdown_kept keep n : forall top root dirs files,
  In (root, dirs, files) (walk_topdown keep top n) ->
  exists r, root = top ++ r /\ Forall (fun d => keep d = true) r.
Proof.
  induction n as [m c|m es IH] using node_ind; intros top root dirs files; [done|].
  simpl. intros [[= <- <- <-]|Hin].
  - exists []. by rewrite app_nil_r.
  - apply in_flat_map in Hin as ([d c] & Hes & Hin). simpl in Hin.
    destruct (is_dir c); simpl in Hin; [|done]. destruct (keep d) eqn:Hk; [|done].
    rewrite List.Forall_forall in IH. apply (IH _ Hes) in Hin as (r & -> & Hr).
    exists (d :: r). rewrite <- app_assoc. split; [done|]. by constructor.
Qed.

(** The bottom-up walk yields the listing of every directory below the top. *)
Lemma walk_bottomup_reach keep : forall r n top m es,
  lookup_path n r = Some (Dir m es) ->
  In (top ++ r, List.filter keep (dir_names es), file_names es)
     (walk_bottomup keep top n).
Proof.
  induction r as [|c r IH]; intros n top m es; simpl.
  - intros [= ->]. simpl. rewrite app_nil_r, in_app_iff. right. by left.
  - destruct n as [|m0 es0]; [done|].
    destruct (find_entry c es0) as [n'|] eqn:E; [|done]. intros Hl.
    pose proof (IH n' (top ++ [c]) m es Hl) as Hin. rewrite <- app_assoc in Hin.
    simpl. rewrite in_app_iff. left. apply in_flat_map. exists (c, n').
    split; [by apply find_entry_In|]. simpl.
    destruct n' as [|m' es']; [by destruct r|done].
Qed.

(** ** Path correspondence *)

Lemma commonprefix_app top x : commonprefix top (top ++ x) = top.
Proof.
  induction top as [|c top IH]; simpl; [by destruct x|].
  by rewrite String.eqb_refl, IH.
Qed.

(** Below [top], the relative path is what follows [top]. *)
Lemma relpath_under top x : x <> [] -> os_path_relpath (top ++ x) top = x.
Proof.
  intros Hx. unfold os_path_relpath. rewrite commonprefix_app, Nat.sub_diag.
  simpl. rewrite drop_app_length. by destruct x.
Qed.

Lemma starts_with_app old x : starts_with old (old ++ x) = true.
Proof.
  induction old as [|c old IH]; simpl; [done|]. by rewrite String.eqb_refl, IH.
Qed.

(** A path that begins with [old] has its leftmost occurrence of [old] there. *)
Lemma str_replace_first_prefix old new x :
  str_replace_first old new (old ++ x) = new ++ x.
Proof.
  assert (H : forall s, starts_with old s = true ->
                str_replace_first old new s = new ++ drop (length old) s).
  { intros [|c s] Hs; simpl; by rewrite Hs. }
  rewrite H by apply starts_with_app. by rewrite drop_app_length.
Qed.

Lemma source_side_under source target r :
  r <> [] -> source_side source target (target ++ r) = source ++ r.
Proof. intros Hr. unfold source_side, os_path_join. by rewrite relpath_under. Qed.

(** The items of [os.walk fs keep topdown top], read against the tree. *)
Lemma os_walk_root fs keep topdown top root dirs files :
  In (root, dirs, files) (os_walk fs keep topdown top) -> exists r, root = top ++ r.
Proof.
  unfold os_walk. destruct (lookup_path fs top) as [n|]; [|done].
  destruct topdown; [apply walk_topdown_root|apply walk_bottomup_root].
Qed.

Lemma os_walk_lookup fs keep topdown top root dirs files :
  wf_node fs = true ->
  In (root, dirs, files) (os_walk fs keep topdown top) ->
  exists m es, lookup_path fs root = Some (Dir m es)
    /\ no_dup_names (map fst es) = true
    /\ dirs = List.filter keep (dir_names es) /\ files = file_names es.
Proof.
  unfold os_walk. intros Hwf. destruct (lookup_path fs top) as [n|] eqn:Htop; [|done].
  intros Hin.
  assert (exists r m es, root = top ++ r /\ lookup_path n r = Some (Dir m es)
            /\ dirs = List.filter keep (dir_names es) /\ files = file_names es)
    as (r & m & es & -> & Hl & -> & ->).
  { pose proof (wf_node_lookup _ _ _ Hwf Htop).
    destruct topdown; [by eapply walk_topdown_lookup|by eapply walk_bottomup_lookup]. }
  exists m, es. rewrite lookup_path_app, Htop. simpl. split; [done|]. split; [|done].
  pose proof (wf_node_lookup _ _ _ Hwf Htop) as Hn.
  pose proof (wf_node_lookup _ _ _ Hn Hl) as Hd. simpl in Hd.
  by apply andb_prop in Hd as [? _].
Qed.

(** In a well-formed tree a scanned file exists under its path, and is not a
    directory; a scanned directory is one. *)
Lemma scanned_file_lookup fs keep topdown top root dirs files name :
  wf_node fs = true ->
  In (root, dirs, files) (os_walk fs keep topdown top) ->
  In name files ->
  exists m c, lookup_path fs (os_path_join root [name]) = Some (File m c).
Proof.
  intros Hwf Hit Hname.
  destruct (os_walk_lookup _ _ _ _ _ _ _ Hwf Hit) as (m & es & Hl & Hnd & _ & ->).
  apply in_file_names in Hname as (m' & c & Hin). exists m', c.
  unfold os_path_join. rewrite lookup_path_app, Hl. simpl.
  by rewrite (find_entry_unique _ _ _ Hnd Hin).
Qed.

Lemma scanned_dir_lookup fs keep topdown top root dirs files name :
  wf_node fs = true ->
  In (root, dirs, files) (os_walk fs keep topdown top) ->
  In name dirs ->
  exists m es, lookup_path fs (os_path_join root [name]) = Some (Dir m es).
Proof.
  intros Hwf Hit Hname.
  destruct (os_walk_lookup _ _ _ _ _ _ _ Hwf Hit) as (m & es & Hl & Hnd & -> & _).
  apply filter_In in Hname as [Hname _].
  apply in_dir_names in Hname as (m' & es' & Hin). exists m', es'.
  unfold os_path_join. rewrite lookup_path_app, Hl. simpl.
  by rewrite (find_entry_unique _ _ _ Hnd Hin).
Qed.

(** A copy-candidate pair comes from a scanned source file: its two paths
    are the same relative path below the two roots. *)
Lemma copy_candidate_paths fs source target script_name p sf tf :
  plan_candidates fs source target script_name = Some p ->
  In (sf, tf) (copy_candidates p) ->
  exists root dirs files name r,
    In (root, dirs, files) (os_walk fs not_excluded true source)
    /\ In name files /\ name <> script_name /\ root = source ++ r
    /\ sf = source ++ r ++ [name] /\ tf = target ++ r ++ [name]
    /\ selects_copy fs source target script_name (root, name) = true.
Proof.
  intros Hp Hin. apply plan_candidates_spec in Hp as (_ & _ & Hc). rewrite Hc in Hin.
  apply in_map_iff in Hin as ([root name] & Hpair & Hin).
  apply filter_In in Hin as [Hin Hsel].
  apply in_walk_files in Hin as (dirs & files & Hit & Hname).
  destruct (os_walk_root _ _ _ _ _ _ _ Hit) as [r ->].
  exists (source ++ r), dirs, files, name, r.
  unfold copy_pair, entry_path, os_path_join in Hpair. simpl in Hpair.
  rewrite <- app_assoc, str_replace_first_prefix in Hpair. injection Hpair as <- <-.
  repeat split; try done.
  unfold selects_copy in Hsel. simpl in Hsel.
  intros ->. by rewrite String.eqb_refl in Hsel.
Qed.

(** ** Candidates of different lists are different paths *)

Lemma delete_candidate_source_missing fs source target script_name p x :
  plan_candidates fs source target script_name = Some p ->
  In x (delete_candidates p) ->
  (exists r name, x = target ++ r ++ [name])
  /\ os_path_exists fs (source_side source target x) = false.
Proof.
  intros Hp Hin. apply plan_candidates_spec in Hp as (Hd & _ & _).
  rewrite Hd, in_app_iff, !in_map_iff in Hin.
  destruct Hin as [([root name] & <- & Hin)|([root name] & <- & Hin)];
    apply filter_In in Hin as [Hin Hsel].
  - apply in_walk_files in Hin as (dirs & files & Hit & _).
    apply os_walk_root in Hit as [r ->]. split.
    + exists r, name. unfold entry_path, os_path_join. simpl. by rewrite <- app_assoc.
    + unfold selects_delete, should_delete_file in Hsel.
      apply andb_prop in Hsel as [_ Hsel]. by apply negb_true_iff.
  - apply in_walk_dirs in Hin as (dirs & files & Hit & _).
    apply os_walk_root in Hit as [r ->]. split.
    + exists r, name. unfold entry_path, os_path_join. simpl. by rewrite <- app_assoc.
    + by apply negb_true_iff.
Qed.

(** In a well-formed tree a copy-candidate comes from a source file that
    exists, so neither its target nor the directory of its target is a
    delete-candidate. *)
Lemma copy_target_not_delete fs source target script_name p sf tf :
  wf_node fs = true ->
  plan_candidates fs source target script_name = Some p ->
  In (sf, tf) (copy_candidates p) ->
  ~ In tf (delete_candidates p) /\ ~ In (os_path_dirname tf) (delete_candidates p).
Proof.
  intros Hwf Hp Hin.
  destruct (copy_candidate_paths _ _ _ _ _ _ _ Hp Hin)
    as (root & dirs & files & name & r & Hit & Hname & _ & -> & -> & -> & _).
  destruct (scanned_file_lookup _ _ _ _ _ _ _ _ Hwf Hit Hname) as (m & c & Hl).
  unfold os_path_join in Hl. rewrite <- app_assoc in Hl.
  assert (Hdn : os_path_dirname (target ++ r ++ [name]) = target ++ r).
  { unfold os_path_dirname. rewrite app_assoc. apply removelast_last. }
  rewrite Hdn.
  split; intros Hdel;
    apply (delete_candidate_source_missing _ _ _ _ _ _ Hp) in Hdel
      as ((r' & name' & Heq) & Hmiss).
  - rewrite source_side_under in Hmiss by (by destruct r).
    unfold os_path_exists in Hmiss. by rewrite Hl in Hmiss.
  - apply app_inv_head in Heq.
    rewrite source_side_under in Hmiss by (rewrite Heq; by destruct r').
    unfold os_path_exists in Hmiss. rewrite app_assoc, lookup_path_app in Hl.
    by destruct (lookup_path fs (source ++ r)).
Qed.

(** An overwrite-candidate is newer than its source counterpart, a
    copy-candidate's target is missing or older: never the same path. *)
Lemma copy_target_not_overwrite fs source target script_name p sf tf :
  plan_candidates fs source target script_name = Some p ->
  In (sf, tf) (copy_candidates p) ->
  ~ In tf (overwrite_candidates p).
Proof.
  intros Hp Hin Hov.
  destruct (copy_candidate_paths _ _ _ _ _ _ _ Hp Hin)
    as (root & dirs & files & name & r & Hit & Hname & _ & -> & -> & -> & Hsel).
  apply plan_candidates_spec in Hp as (_ & Ho & _). rewrite Ho in Hov.
  apply in_map_iff in Hov as ([root' name'] & Heq & Hov).
  apply filter_In in Hov as [_ Hov]. unfold selects_overwrite in Hov.
  rewrite Heq, source_side_under in Hov by (by destruct r).
  unfold selects_copy, copy_pair, entry_path, os_path_join in Hsel. simpl in Hsel.
  rewrite <- app_assoc, str_replace_first_prefix in Hsel.
  apply andb_prop in Hsel as [_ Hsel]. apply andb_prop in Hov as [_ Hov].
  unfold should_overwrite_file in Hov.
  unfold os_path_exists, os_path_getmtime in *.
  destruct (lookup_path fs (target ++ r ++ [name])) as [nt|]; simpl in *; [|done].
  destruct (lookup_path fs (source ++ r ++ [name])) as [ns|]; simpl in *; [|done].
  unfold should_overwrite_mtimes, float_gt in *.
  destruct (PrimFloat.leb _ _); [done|].
  destruct (PrimFloat.ltb (node_mtime ns) (node_mtime nt)) eqn:E; [|done].
  apply float_lt_asym in E. by rewrite E in Hsel.
Qed.

(** ** The walks never raise on a well-formed tree *)



(** ** The staleness test *)

(** C1, amended.  For a scanned target file whose source counterpart exists:
    when the two modification times differ by more than [TIME_TOLERANCE], the
    file is an overwrite-candidate exactly when the target's time is strictly
    greater than the source's ([should_overwrite_file] answers ['true'] for a
    newer target); and a target file strictly older than its source is never
    an overwrite-candidate. *)
Theorem overwrite_iff_target_newer fs source target script_name p
    root dirs files name t s :
  plan_candidates fs source target script_name = Some p ->
  In (root, dirs, files) (os_walk fs not_excluded true target) ->
  In name files ->
  name <> script_name ->
  let target_file := os_path_join root [name] in
  let source_file := os_path_join source (os_path_relpath target_file target) in
  os_path_getmtime fs target_file = Some t ->
  os_path_getmtime fs source_file = Some s ->
  (PrimFloat.leb (PrimFloat.abs (PrimFloat.sub t s)) TIME_TOLERANCE = false ->
   (In target_file (overwrite_candidates p) <-> PrimFloat.ltb s t = true))
  /\ (PrimFloat.ltb t s = true -> ~ In target_file (overwrite_candidates p)).
Proof.
  intros Hp Hit Hname Hscript target_file source_file Ht Hs.
  apply plan_candidates_spec in Hp as (_ & Ho & _). rewrite Ho.
  change target_file with (entry_path (root, name)).
  rewrite in_map_entry_path, in_walk_files.
  assert (Hsel : selects_overwrite fs source target script_name (root, name)
                 = String.eqb (should_overwrite_mtimes t s) "true").
  { unfold selects_overwrite, should_delete_file, source_side, should_overwrite_file.
    change (entry_path (root, name)) with target_file. fold source_file.
    rewrite (getmtime_exists _ _ _ Hs), Ht, Hs. simpl.
    apply String.eqb_neq in Hscript. by rewrite Hscript. }
  rewrite Hsel. unfold should_overwrite_mtimes, float_gt. split.
  - intros ->. destruct (PrimFloat.ltb s t); simpl; split; try done; [|by intros [_ ?]].
    intros _. eauto.
  - intros Hlt [_ Hsel']. apply float_lt_asym in Hlt. rewrite Hlt in Hsel'.
    by destruct (PrimFloat.leb _ _).
Qed.

Lemma overwrite_iff_target_newer_witness :
  In ["t"; "a.txt"]
     (overwrite_candidates (Plan [] [["t"; "a.txt"]] []))
  <-> PrimFloat.ltb 100 110 = true.
Proof.
  refine (proj1 (overwrite_iff_target_newer fs_target_newer ["s"] ["t"] "sync.py"
            (Plan [] [["t"; "a.txt"]] []) ["t"] [] ["a.txt"] "a.txt" 110%float 100%float
            _ _ _ _ _ _) _).
  - vm_compute. reflexivity.
  - vm_compute. left. reflexivity.
  - simpl. left. reflexivity.
  - discriminate.
  - vm_compute. reflexivity.
  - vm_compute. reflexivity.
  - vm_compute. reflexivity.
Defined.

(** C1 as the specification words it fails: in [fs_target_newer] the target
    file is ten seconds newer than its source and is an overwrite-candidate,
    so "overwrite-candidate iff the target is strictly older" does not hold. *)
Lemma overwrite_iff_target_older_fails :
  ~ (forall fs source target script_name p root dirs files name t s,
       plan_candidates fs source target script_name = Some p ->
       In (root, dirs, files) (os_walk fs not_excluded true target) ->
       In name files ->
       name <> script_name ->
       os_path_getmtime fs (os_path_join root [name]) = Some t ->
       os_path_getmtime fs
         (os_path_join source (os_path_relpath (os_path_join root [name]) target))
         = Some s ->
       PrimFloat.leb (PrimFloat.abs (PrimFloat.sub t s)) TIME_TOLERANCE = false ->
       (In (os_path_join root [name]) (overwrite_candidates p)
        <-> PrimFloat.ltb t s = true)).
Proof.
  intros H.
  specialize (H fs_target_newer ["s"] ["t"] "sync.py"
                (Plan [] [["t"; "a.txt"]] []) ["t"] [] ["a.txt"] "a.txt"
                110%float 100%float).
  assert (Hlt : PrimFloat.ltb 110 100 = true); [|by vm_compute in Hlt].
  apply H; try (vm_compute; reflexivity).
  - vm_compute. left. reflexivity.
  - simpl. left. reflexivity.
  - discriminate.
  - simpl. left. reflexivity.
Qed.

(** ** The tolerance and the copy test *)

(** C2, amended.  For a scanned target file whose source counterpart exists
    and whose modification time is within [TIME_TOLERANCE] of the source's:
    the file is no delete-candidate and no overwrite-candidate, and it is the
    target of a copy-candidate only together with that counterpart and only
    when the source's time is strictly greater than the target's; when it is
    not, no list of the plan holds the pair, on any run over this file
    system. *)
Theorem within_tolerance_plan fs source target script_name p
    root dirs files name t s :
  plan_candidates fs source target script_name = Some p ->
  In (root, dirs, files) (os_walk fs not_excluded true target) ->
  In name files ->
  name <> script_name ->
  let target_file := os_path_join root [name] in
  let source_file := os_path_join source (os_path_relpath target_file target) in
  os_path_getmtime fs target_file = Some t ->
  os_path_getmtime fs source_file = Some s ->
  PrimFloat.leb (PrimFloat.abs (PrimFloat.sub t s)) TIME_TOLERANCE = true ->
  ~ In target_file (delete_candidates p)
  /\ ~ In target_file (overwrite_candidates p)
  /\ (forall source_path,
        In (source_path, target_file) (copy_candidates p) ->
        source_path = source_file /\ float_gt s t = true)
  /\ (float_gt s t = false ->
      forall source_path, ~ In (source_path, target_file) (copy_candidates p)).
Proof.
  intros Hp Hit Hname Hscript target_file source_file Ht Hs Htol.
  assert (Hcopy : forall source_path,
            In (source_path, target_file) (copy_candidates p) ->
            source_path = source_file /\ float_gt s t = true).
  { intros sf Hin.
    destruct (copy_candidate_paths _ _ _ _ _ _ _ Hp Hin)
      as (root' & dirs' & files' & name' & r' & _ & _ & _ & -> & -> & Htf & Hsel).
    destruct (os_walk_root _ _ _ _ _ _ _ Hit) as [r Hroot].
    unfold source_file, target_file, os_path_join in *. subst root.
    rewrite <- app_assoc in *. apply app_inv_head in Htf.
    rewrite relpath_under in * by (by destruct r).
    unfold selects_copy, copy_pair, entry_path, os_path_join in Hsel. simpl in Hsel.
    rewrite <- app_assoc, str_replace_first_prefix, <- Htf in Hsel.
    rewrite (getmtime_exists _ _ _ Ht), Ht, Hs in Hsel.
    apply andb_prop in Hsel as [_ Hsel]. simpl in Hsel. by rewrite Htf. }
  split; [|split; [|split; [done|]]].
  - intros Hdel.
    apply (delete_candidate_source_missing _ _ _ _ _ _ Hp) in Hdel as [_ Hmiss].
    unfold source_side in Hmiss. fold source_file in Hmiss.
    by rewrite (getmtime_exists _ _ _ Hs) in Hmiss.
  - apply plan_candidates_spec in Hp as (_ & Ho & _). rewrite Ho.
    change target_file with (entry_path (root, name)).
    rewrite in_map_entry_path. unfold selects_overwrite, should_overwrite_file, source_side.
    change (entry_path (root, name)) with target_file. fold source_file.
    rewrite Ht, Hs. simpl. unfold should_overwrite_mtimes. rewrite Htol. simpl.
    rewrite andb_false_r. by intros [_ ?].
  - intros Hle sf Hin. apply Hcopy in Hin as [_ Hgt]. congruence.
Qed.

Lemma within_tolerance_plan_witness :
  ~ In ["t"; "a.txt"] (delete_candidates (Plan [] [] [(["s"; "a.txt"], ["t"; "a.txt"])]))
  /\ ~ In ["t"; "a.txt"]
         (overwrite_candidates (Plan [] [] [(["s"; "a.txt"], ["t"; "a.txt"])])).
Proof.
  destruct (within_tolerance_plan fs_one_second ["s"] ["t"] "sync.py"
              (Plan [] [] [(["s"; "a.txt"], ["t"; "a.txt"])])
              ["t"] [] ["a.txt"] "a.txt" 100%float 101%float)
    as (Hd & Ho & _).
  - vm_compute. reflexivity.
  - vm_compute. left. reflexivity.
  - simpl. left. reflexivity.
  - discriminate.
  - vm_compute. reflexivity.
  - vm_compute. reflexivity.
  - vm_compute. reflexivity.
  - split; [exact Hd|exact Ho].
Defined.

(** C2 as the specification words it fails: in [fs_one_second] the two
    files are one second apart, [should_overwrite_file] answers ['same'], and
    the pair is a copy-candidate all the same, since the copy test compares
    the two times as they are. *)
Lemma within_tolerance_copy_candidate :
  ~ (forall fs source target script_name p root dirs files name t s,
       plan_candidates fs source target script_name = Some p ->
       In (root, dirs, files) (os_walk fs not_excluded true target) ->
       In name files ->
       name <> script_name ->
       os_path_getmtime fs (os_path_join root [name]) = Some t ->
       os_path_getmtime fs
         (os_path_join source (os_path_relpath (os_path_join root [name]) target))
         = Some s ->
       PrimFloat.leb (PrimFloat.abs (PrimFloat.sub t s)) TIME_TOLERANCE = true ->
       ~ In (os_path_join root [name]) (overwrite_candidates p)
       /\ forall source_path,
            ~ In (source_path, os_path_join root [name]) (copy_candidates p)).
Proof.
  intros H.
  destruct (H fs_one_second ["s"] ["t"] "sync.py"
              (Plan [] [] [(["s"; "a.txt"], ["t"; "a.txt"])])
              ["t"] [] ["a.txt"] "a.txt" 100%float 101%float) as [_ Hcopy];
    try (vm_compute; reflexivity).
  - vm_compute. left. reflexivity.
  - simpl. left. reflexivity.
  - discriminate.
  - apply (Hcopy ["s"; "a.txt"]). simpl. left. reflexivity.
Qed.

(** ** Excluded directories *)

(** C3 fails on the code: the bottom-up walk has walked
    [/t/System Volume Information] before the loop body drops that name from
    [dirs], so the directory [sub] below it is tested and becomes a
    delete-candidate. *)
Theorem excluded_subdirectory_delete_candidate :
  os_walk fs_excluded not_excluded false ["t"]
  = [(["t"; "System Volume Information"; "sub"], [], ["f.txt"]);
     (["t"; "System Volume Information"], ["sub"], ["x.dat"]);
     (["t"], [], [])]
  /\ plan_candidates fs_excluded ["s"] ["t"] "sync.py"
     = Some (Plan [["t"; "System Volume Information"; "sub"]] [] []).
Proof. split; vm_compute; reflexivity. Qed.

(** ** The deletion test *)

(** C4.  In a well-formed tree, a scanned target file is a delete-candidate
    exactly when the source root joined with its path relative to the target
    root does not exist, and then it is neither an overwrite-candidate nor
    the target of a copy-candidate; a directory the bottom-up walk goes
    through is a delete-candidate exactly when its source-side path does not
    exist. *)
Theorem delete_iff_source_missing fs source target script_name p :
  wf_node fs = true ->
  plan_candidates fs source target script_name = Some p ->
  (forall root dirs files name,
     In (root, dirs, files) (os_walk fs not_excluded true target) ->
     In name files ->
     name <> script_name ->
     let target_file := os_path_join root [name] in
     let source_file := os_path_join source (os_path_relpath target_file target) in
     (In target_file (delete_candidates p) <-> os_path_exists fs source_file = false)
     /\ (os_path_exists fs source_file = false ->
         ~ In target_file (overwrite_candidates p)
         /\ forall source_path, ~ In (source_path, target_file) (copy_candidates p)))
  /\ (forall root dirs files name,
        In (root, dirs, files) (os_walk fs not_excluded false target) ->
        In name dirs ->
        let target_dir_path := os_path_join root [name] in
        let source_dir_path :=
          os_path_join source (os_path_relpath target_dir_path target) in
        In target_dir_path (delete_candidates p)
        <-> os_path_exists fs source_dir_path = false).
Proof.
  intros Hwf Hp. pose proof (plan_candidates_spec _ _ _ _ _ Hp) as (Hd & Ho & Hc).
  simpl in Hd, Ho, Hc.
  assert (Hdel : forall rn : path * name,
    In (entry_path rn) (delete_candidates p) ->
    os_path_exists fs (source_side source target (entry_path rn)) = false).
  { intros rn. rewrite Hd, in_app_iff, !in_map_entry_path.
    unfold selects_delete, selects_dir_delete, should_delete_file, source_side.
    intros [[_ H]|[_ H]].
    - apply andb_prop in H as [_ H]. by apply negb_true_iff.
    - by apply negb_true_iff. }
  split.
  - intros root dirs files name Hit Hname Hscript target_file source_file.
    change target_file with (entry_path (root, name)) in *.
    change source_file with (source_side source target (entry_path (root, name))).
    split; [split; [apply Hdel|]|].
    + intros Hex. rewrite Hd, in_app_iff. left. apply in_map_entry_path.
      split; [apply in_walk_files; eauto|].
      unfold selects_delete, should_delete_file. fold (source_side source target).
      simpl. apply String.eqb_neq in Hscript. unfold source_side in Hex.
      unfold entry_path in *. simpl in *. by rewrite Hscript, Hex.
    + intros Hex. split.
      * rewrite Ho, in_map_entry_path. unfold selects_overwrite, should_delete_file.
        unfold source_side in *. rewrite Hex. simpl. rewrite andb_false_r. by intros [_ ?].
      * intros sf Hin.
        destruct (copy_candidate_paths _ _ _ _ _ _ _ Hp Hin)
          as (root' & dirs' & files' & name' & r' & Hit' & Hname' & _ & -> & -> & Htf & Hsel).
        destruct (os_walk_root _ _ _ _ _ _ _ Hit) as [r ->].
        unfold entry_path, os_path_join in Htf, Hex. simpl in Htf, Hex.
        rewrite <- app_assoc in Htf, Hex. apply app_inv_head in Htf.
        rewrite source_side_under in Hex by (by destruct r).
        destruct (scanned_file_lookup _ _ _ _ _ _ _ _ Hwf Hit Hname) as (m & c & Hl).
        unfold selects_copy, copy_pair, entry_path, os_path_join in Hsel. simpl in Hsel.
        rewrite <- app_assoc, str_replace_first_prefix in Hsel.
        apply andb_prop in Hsel as [_ Hsel]. rewrite <- Htf in Hsel.
        unfold os_path_join in Hl. rewrite <- app_assoc in Hl.
        unfold os_path_exists at 1 in Hsel. rewrite Hl in Hsel. simpl in Hsel.
        by rewrite (exists_false_getmtime _ _ Hex) in Hsel.
  - intros root dirs files name Hit Hname target_dir_path source_dir_path.
    change target_dir_path with (entry_path (root, name)) in *.
    change source_dir_path with (source_side source target (entry_path (root, name))).
    split; [apply Hdel|].
    intros Hex. rewrite Hd, in_app_iff. right. apply in_map_entry_path.
    split; [apply in_walk_dirs; eauto|].
    unfold selects_dir_delete. by rewrite Hex.
Qed.

Lemma delete_iff_source_missing_witness :
  (In ["t"; "orphan.txt"] (delete_candidates plan_orphan)
   <-> os_path_exists fs_orphan ["s"; "orphan.txt"] = false)
  /\ (In ["t"; "old"] (delete_candidates plan_orphan)
      <-> os_path_exists fs_orphan ["s"; "old"] = false).
Proof.
  destruct (delete_iff_source_missing fs_orphan ["s"] ["t"] "sync.py" plan_orphan)
    as [Hfile Hdir].
  - vm_compute. reflexivity.
  - vm_compute. reflexivity.
  - split.
    + apply (Hfile ["t"] ["old"] ["keep.txt"; "orphan.txt"] "orphan.txt").
      * vm_compute. left. reflexivity.
      * simpl. right. left. reflexivity.
      * discriminate.
    + apply (Hdir ["t"] ["old"] ["keep.txt"; "orphan.txt"] "old").
      * vm_compute. right. left. reflexivity.
      * simpl. left. reflexivity.
Defined.

(** ** The copy test *)

(** C5 fails on the code for a source root that ends in a separator, as the
    script's own default does.  Started outside [DEF_TARGET] with no
    argument, the run takes [DEF_TARGET], the drive [E:] with its separator,
    as the source and [DEF_SOURCE], the directory [dev] on [G:], as the
    target.  The walk lists [a.txt] on [E:]; its counterpart [a.txt] in
    [dev] exists and is of the same age, so the claim has no copy-candidate
    here.  Line 94 replaces the source root in the path of the file by the
    target root and gets [deva.txt] on [G:], a path outside the target
    directory that does not exist: the file is a copy-candidate, with that
    path as its destination. *)
Theorem default_roots_pair_wrong_path :
  let cwd := "C:" +:+ backslash +:+ "Users" in
  let roots := main_roots (parse_arguments None None) cwd in
  roots = (DEF_TARGET, DEF_SOURCE)
  /\ os_walk_str nt_sep fs_drives not_excluded roots.1 = [(DEF_TARGET, [], ["a.txt"])]
  /\ os_path_join_str nt_sep DEF_TARGET "a.txt" = DEF_TARGET +:+ "a.txt"
  /\ os_path_getmtime_str nt_sep fs_drives (DEF_TARGET +:+ "a.txt") = Some 100%float
  /\ os_path_getmtime_str nt_sep fs_drives (DEF_SOURCE +:+ backslash +:+ "a.txt")
     = Some 100%float
  /\ str_replace DEF_TARGET DEF_SOURCE (DEF_TARGET +:+ "a.txt") = DEF_SOURCE +:+ "a.txt"
  /\ path_components nt_sep (DEF_SOURCE +:+ "a.txt") = ["G:"; "deva.txt"]
  /\ os_path_exists_str nt_sep fs_drives (DEF_SOURCE +:+ "a.txt") = false
  /\ scan_source_files_str nt_sep fs_drives roots.1 roots.2 "sync.py"
     = Some [(DEF_TARGET +:+ "a.txt", DEF_SOURCE +:+ "a.txt")].
Proof. repeat split; vm_compute; reflexivity. Qed.

(** ** The directory walk and the script's own name *)

(** C10.  The second walk never tests a name against [script_name]: a
    directory below the target root that bears the script's own file name
    (and is not an excluded name) is a delete-candidate exactly when its
    source-side path does not exist. *)
Theorem script_named_directory_candidate fs source target script_name p r m es :
  plan_candidates fs source target script_name = Some p ->
  not_excluded script_name = true ->
  lookup_path fs (target ++ r ++ [script_name]) = Some (Dir m es) ->
  (In (target ++ r ++ [script_name]) (delete_candidates p)
   <-> os_path_exists fs (source ++ r ++ [script_name]) = false).
Proof.
  intros Hp Hkeep Hl. apply plan_candidates_spec in Hp as (Hd & _ & _).
  rewrite Hd, in_app_iff. rewrite app_assoc.
  change ((target ++ r) ++ [script_name]) with (entry_path (target ++ r, script_name)).
  rewrite !in_map_entry_path.
  assert (Hside : source_side source target (entry_path (target ++ r, script_name))
                  = source ++ r ++ [script_name]).
  { unfold entry_path, os_path_join. simpl. rewrite <- app_assoc.
    apply source_side_under. by destruct r. }
  unfold selects_delete, selects_dir_delete, should_delete_file.
  fold (source_side source target). rewrite Hside. simpl.
  rewrite String.eqb_refl. simpl. split.
  - intros [[_ [=]]|[_ H]]. by apply negb_true_iff.
  - intros Hex. right. rewrite Hex. split; [|done].
    apply in_walk_dirs. rewrite lookup_path_app in Hl.
    destruct (lookup_path fs target) as [n|] eqn:Htop; [|done]. simpl in Hl.
    apply lookup_path_snoc in Hl as (m0 & es0 & Hr & Hfind).
    exists (List.filter not_excluded (dir_names es0)), (file_names es0). split.
    + unfold os_walk. rewrite Htop. by apply (walk_bottomup_reach _ _ _ _ m0).
    + apply filter_In. split; [|done]. apply in_dir_names.
      exists m, es. by apply find_entry_In.
Qed.

Lemma script_named_directory_candidate_witness :
  In ["t"; "sync.py"] (delete_candidates (Plan [["t"; "sync.py"]] [] []))
  <-> os_path_exists fs_script_dir ["s"; "sync.py"] = false.
Proof.
  apply (script_named_directory_candidate fs_script_dir ["s"] ["t"] "sync.py"
           (Plan [["t"; "sync.py"]] [] []) [] 60%float []).
  - vm_compute. reflexivity.
  - vm_compute. reflexivity.
  - vm_compute. reflexivity.
Defined.

(** ** Bottom-up order of the delete list *)

Lemma below_length a b : below a b -> length a < length b.
Proof. intros (r & Hr & ->). rewrite length_app. destruct r; simpl; [done|lia]. Qed.

Lemma StronglySorted_lookup {A} (R : A -> A -> Prop) l i j a b :
  StronglySorted R l -> l !! i = Some a -> l !! j = Some b -> i < j -> R a b.
Proof.
  intros Hs. revert i j. induction Hs as [|x l Hs IH Hall]; intros i j; [done|].
  destruct i as [|i], j as [|j]; simpl; try lia.
  - intros [= ->] Hj _. rewrite List.Forall_forall in Hall. apply Hall.
    apply list_elem_of_In. by eapply list_elem_of_lookup_2.
  - intros Hi Hj Hlt. apply (IH i j); [done|done|lia].
Qed.

Lemma StronglySorted_map_filter {A B} (R : B -> B -> Prop) (f : A -> B) sel l :
  StronglySorted R (map f l) -> StronglySorted R (map f (List.filter sel l)).
Proof.
  induction l as [|x l IH]; simpl; [done|].
  intros [Hs Hall]%StronglySorted_inv. destruct (sel x); simpl; [|by apply IH].
  constructor; [by apply IH|]. rewrite List.Forall_forall in *.
  intros y Hy. apply Hall. apply in_map_iff in Hy as (z & <- & Hz).
  apply in_map. by apply filter_In in Hz as [? _].
Qed.

Lemma StronglySorted_pairwise {A} (R : A -> A -> Prop) l :
  (forall x y, In x l -> In y l -> R x y) -> StronglySorted R l.
Proof.
  induction l as [|x l IH]; intros H; constructor.
  - apply IH. intros y z Hy Hz. apply H; by right.
  - apply List.Forall_forall. intros y Hy. apply H; [by left|by right].
Qed.

Lemma StronglySorted_app_In {A} (R : A -> A -> Prop) l1 l2 :
  (forall x y, In x l1 -> In y l2 -> R x y) ->
  StronglySorted R l1 -> StronglySorted R l2 -> StronglySorted R (l1 ++ l2).
Proof.
  intros Hx H1 H2. induction H1 as [|x l1 H1 IH Hall]; simpl; [done|].
  constructor.
  - apply IH. intros y z Hy Hz. apply Hx; [by right|done].
  - apply Forall_app. split; [done|]. apply List.Forall_forall.
    intros y Hy. apply Hx; [by left|done].
Qed.

Lemma walk_dirs_app l1 l2 : walk_dirs (l1 ++ l2) = walk_dirs l1 ++ walk_dirs l2.
Proof. unfold walk_dirs. apply flat_map_app. Qed.

(** The directories a bottom-up walk goes through lie strictly below its top. *)
Lemma walk_bottomup_dir_paths keep n top x :
  In x (map entry_path (walk_dirs (walk_bottomup keep top n))) ->
  exists r, r <> [] /\ x = top ++ r.
Proof.
  intros ([root name] & <- & Hin)%in_map_iff.
  apply in_walk_dirs in Hin as (dirs & files & Hit & _).
  apply walk_bottomup_root in Hit as [r ->]. exists (r ++ [name]).
  unfold entry_path, os_path_join. simpl. rewrite <- app_assoc. split; [|done].
  by destruct r.
Qed.

Lemma walk_bottomup_children_first keep n : forall top,
  wf_node n = true ->
  children_first (map entry_path (walk_dirs (walk_bottomup keep top n))).
Proof.
  unfold children_first.
  induction n as [m c|m es IH] using node_ind; intros top Hwf; [constructor|].
  simpl. rewrite walk_dirs_app, map_app. simpl in Hwf.
  apply andb_prop in Hwf as [Hnd Hall]. apply StronglySorted_app_In.
  - (* a directory of the top's own listing is no deeper than anything
       found in a sub-walk *)
    intros x y Hx Hy Hbelow. apply below_length in Hbelow.
    apply in_map_iff in Hx as ([root name] & <- & Hx).
    apply in_walk_dirs in Hx as (dirs & files & Hit & _).
    apply in_flat_map in Hit as ([d c] & _ & Hit). simpl in Hit.
    destruct (is_dir c); [|done]. apply walk_bottomup_root in Hit as [r ->].
    unfold walk_dirs in Hy. simpl in Hy. rewrite app_nil_r, map_map in Hy.
    apply in_map_iff in Hy as (d' & <- & _).
    unfold entry_path, os_path_join in Hbelow. simpl in Hbelow.
    rewrite !length_app in Hbelow. simpl in Hbelow. lia.
  - (* the sub-walks, one after the other *)
    clear m. induction es as [|[d c] es IHes]; [constructor|].
    simpl. rewrite walk_dirs_app, map_app. simpl in Hnd, Hall.
    apply andb_prop in Hnd as [Hd Hnd]. apply andb_prop in Hall as [Hc Hall].
    apply List.Forall_cons_iff in IH as [IHc IH]. simpl in IHc.
    apply StronglySorted_app_In; [| |by apply IHes].
    + intros x y Hx Hy (r & Hr & Heq).
      assert (exists rx, x = top ++ [d] ++ rx) as (rx & ->).
      { destruct (is_dir c); [|done].
        apply walk_bottomup_dir_paths in Hx as (rx & _ & ->).
        exists rx. by rewrite <- app_assoc. }
      apply in_map_iff in Hy as ([root name] & <- & Hy).
      apply in_walk_dirs in Hy as (dirs & files & Hit & _).
      apply in_flat_map in Hit as ([d' c'] & Hes & Hit). simpl in Hit.
      destruct (is_dir c'); [|done]. apply walk_bottomup_root in Hit as [r' ->].
      unfold entry_path, os_path_join in Heq. simpl in Heq.
      rewrite <- !app_assoc in Heq. apply app_inv_head in Heq. simpl in Heq.
      injection Heq as -> _. apply negb_true_iff in Hd.
      assert (name_in d (map fst es) = true); [|congruence].
      apply name_in_In. apply in_map_iff. by exists (d, c').
    + destruct (is_dir c); [by apply IHc|constructor].
  - (* the top's own listing: siblings *)
    apply StronglySorted_pairwise. intros x y Hx Hy Hbelow.
    apply below_length in Hbelow. unfold walk_dirs in Hx, Hy. simpl in Hx, Hy.
    rewrite app_nil_r, map_map in Hx, Hy.
    apply in_map_iff in Hx as (dx & <- & _). apply in_map_iff in Hy as (dy & <- & _).
    unfold entry_path, os_path_join in Hbelow. simpl in Hbelow.
    rewrite !length_app in Hbelow. simpl in Hbelow. lia.
Qed.

Lemma file_has_nothing_below fs a b m c :
  lookup_path fs a = Some (File m c) -> below a b -> lookup_path fs b = None.
Proof.
  intros Ha (r & Hr & ->). rewrite lookup_path_app, Ha. simpl. by destruct r.
Qed.

Lemma plan_delete_children_first fs source target script_name p :
  wf_node fs = true ->
  plan_candidates fs source target script_name = Some p ->
  children_first (delete_candidates p).
Proof.
  intros Hwf Hp. apply plan_candidates_spec in Hp as (-> & _ & _).
  assert (Hfile : forall x,
    In x (map entry_path (List.filter (selects_delete fs source target script_name)
            (walk_files (os_walk fs not_excluded true target)))) ->
    exists m c, lookup_path fs x = Some (File m c)).
  { intros x ([root name] & <- & Hin)%in_map_iff. apply filter_In in Hin as [Hin _].
    apply in_walk_files in Hin as (dirs & files & Hit & Hname).
    by eapply scanned_file_lookup. }
  assert (Hdir : forall y,
    In y (map entry_path (List.filter (selects_dir_delete fs source target)
            (walk_dirs (os_walk fs not_excluded false target)))) ->
    exists n, lookup_path fs y = Some n).
  { intros y ([root name] & <- & Hin)%in_map_iff. apply filter_In in Hin as [Hin _].
    apply in_walk_dirs in Hin as (dirs & files & Hit & Hname).
    destruct (scanned_dir_lookup _ _ _ _ _ _ _ _ Hwf Hit Hname) as (m & es & Hl). eauto. }
  apply StronglySorted_app_In.
  - intros x y Hx Hy Hbelow. apply Hfile in Hx as (m & c & Hx).
    apply Hdir in Hy as (n & Hy).
    by rewrite (file_has_nothing_below _ _ _ _ _ Hx Hbelow) in Hy.
  - apply StronglySorted_pairwise. intros x y Hx Hy Hbelow.
    apply Hfile in Hx as (m & c & Hx). apply Hfile in Hy as (m' & c' & Hy).
    by rewrite (file_has_nothing_below _ _ _ _ _ Hx Hbelow) in Hy.
  - apply StronglySorted_map_filter. unfold os_walk.
    destruct (lookup_path fs target) as [n|] eqn:Htop; [|constructor].
    apply walk_bottomup_children_first. by eapply wf_node_lookup.
Qed.

Lemma delete_list_bottom_up fs source target script_name p i j a b :
  wf_node fs = true ->
  plan_candidates fs source target script_name = Some p ->
  delete_candidates p !! i = Some a ->
  delete_candidates p !! j = Some b ->
  below a b ->
  j < i.
Proof.
  intros Hwf Hp Hi Hj Hbelow.
  pose proof (plan_delete_children_first _ _ _ _ _ Hwf Hp) as Hs.
  destruct (Nat.lt_trichotomy i j) as [Hlt|[->|Hlt]]; [|  |done].
  - by destruct (StronglySorted_lookup _ _ _ _ _ _ Hs Hi Hj Hlt).
  - rewrite Hi in Hj. injection Hj as ->. apply below_length in Hbelow. lia.
Qed.

(** ** The change summary *)

Lemma path_eqb_eq a b : path_eqb a b = true <-> a = b.
Proof.
  revert b. induction a as [|x a IH]; intros [|y b]; simpl; try done.
  rewrite andb_true_iff, IH, String.eqb_eq. split; [by intros [-> ->]|by intros [= -> ->]].
Qed.

Lemma path_eqb_refl a : path_eqb a a = true.
Proof. by apply path_eqb_eq. Qed.

Lemma path_eqb_neq a b : path_eqb a b = false <-> a <> b.
Proof.
  rewrite <- path_eqb_eq. destruct (path_eqb a b); split; congruence.
Qed.

Lemma dict_get_append_same d f g :
  dict_get d (dict_append d f g) = Some (default [] (dict_get d g) ++ [f]).
Proof.
  induction g as [|[k fl] g IH]; simpl.
  - by rewrite path_eqb_refl.
  - destruct (path_eqb k d) eqn:E; simpl; by rewrite E.
Qed.

Lemma dict_get_append_other d d' f g :
  d <> d' -> dict_get d' (dict_append d f g) = dict_get d' g.
Proof.
  intros Hne. induction g as [|[k fl] g IH]; simpl.
  - apply path_eqb_neq in Hne. by rewrite Hne.
  - destruct (path_eqb k d) eqn:E; simpl; [|by rewrite IH].
    apply path_eqb_eq in E as ->. apply path_eqb_neq in Hne. by rewrite Hne.
Qed.

Lemma dict_append_keys d f g :
  NoDup (map fst g) -> NoDup (map fst (dict_append d f g))
  /\ forall k, In k (map fst (dict_append d f g)) <-> k = d \/ In k (map fst g).
Proof.
  induction g as [|[k fl] g IH]; simpl.
  - intros _. split; [apply NoDup_singleton|]. intros k. split.
    + intros [<-|[]]. by left.
    + intros [->|[]]. by left.
  - intros [Hk Hnd]%NoDup_cons. destruct (path_eqb k d) eqn:E; simpl.
    + apply path_eqb_eq in E as ->. split; [by constructor|]. intros k. split.
      * intros [->|?]; [by left|by right; right].
      * intros [->|[->|?]]; [by left|by left|by right].
    + destruct (IH Hnd) as [IH1 IH2]. apply path_eqb_neq in E. split.
      * constructor; [|done]. rewrite list_elem_of_In, IH2, <- list_elem_of_In.
        intros [?|?]; [by apply E|by apply Hk].
      * intros k'. rewrite IH2. split.
        -- intros [->|[->|?]]; [by right; left|by left|by right; right].
        -- intros [->|[->|?]]; [by right; left|by left|by right; right].
Qed.

Lemma group_fold_spec l : forall g,
  NoDup (map fst g) ->
  let g' := fold_left (fun directories file =>
                         dict_append (os_path_dirname file) file directories) l g in
  NoDup (map fst g')
  /\ forall d, default [] (dict_get d g') = default [] (dict_get d g) ++ files_in d l.
Proof.
  induction l as [|f l IH]; intros g Hnd; simpl.
  - split; [done|]. intros d. by rewrite app_nil_r.
  - destruct (dict_append_keys (os_path_dirname f) f g Hnd) as [Hnd' _].
    destruct (IH _ Hnd') as [H1 H2]. split; [done|]. intros d. rewrite H2.
    destruct (path_eqb (os_path_dirname f) d) eqn:E.
    + apply path_eqb_eq in E as <-. rewrite dict_get_append_same. simpl.
      by rewrite <- app_assoc.
    + apply path_eqb_neq in E. by rewrite dict_get_append_other.
Qed.

Lemma dict_get_In d files g :
  NoDup (map fst g) -> In (d, files) g -> dict_get d g = Some files.
Proof.
  induction g as [|[k fl] g IH]; simpl; [done|].
  intros [Hk Hnd]%NoDup_cons [[= -> ->]|Hin].
  - by rewrite path_eqb_refl.
  - destruct (path_eqb k d) eqn:E; [|by apply IH].
    apply path_eqb_eq in E as ->. exfalso. apply Hk. apply list_elem_of_In.
    apply in_map_iff. by exists (d, files).
Qed.

(** One group per containing directory, holding the candidates of that
    directory in their order. *)
Lemma group_files_by_directory_spec candidates :
  NoDup (map fst (group_files_by_directory candidates))
  /\ forall directory files,
       In (directory, files) (group_files_by_directory candidates) ->
       files = files_in directory candidates.
Proof.
  destruct (group_fold_spec candidates [] (NoDup_nil_2 (A:=path))) as [Hnd Hget].
  split; [done|]. intros d files Hin.
  specialize (Hget d). unfold group_files_by_directory in Hin.
  by rewrite (dict_get_In _ _ _ Hnd Hin) in Hget.
Qed.

Lemma summarize_app collapsed single g1 g2 :
  summarize collapsed single (g1 ++ g2)
  = summarize collapsed single g1 ++ summarize collapsed single g2.
Proof. unfold summarize. apply flat_map_app. Qed.

(** A non-empty candidate list has a non-empty summary, so the prompt is
    skipped only when there is nothing to delete and nothing to overwrite. *)
Lemma group_fold_head l : forall k fl g,
  fl <> [] ->
  exists fl' g', fl' <> []
    /\ fold_left (fun directories file =>
                    dict_append (os_path_dirname file) file directories)
                 l ((k, fl) :: g) = (k, fl') :: g'.
Proof.
  induction l as [|f l IH]; intros k fl g Hfl; simpl; [eauto|].
  destruct (path_eqb k (os_path_dirname f)); apply IH; [by destruct fl|done].
Qed.

Lemma summarize_nil collapsed single candidates :
  summarize collapsed single (group_files_by_directory candidates) = [] ->
  candidates = [].
Proof.
  destruct candidates as [|f l]; [done|]. unfold group_files_by_directory. simpl.
  destruct (group_fold_head l (os_path_dirname f) [f] []) as (fl' & g' & Hfl & ->);
    [done|].
  unfold summarize. simpl. destruct (Nat.ltb 20 (length fl')); [done|].
  by destruct fl'.
Qed.

(** C9.  Every group of the summary is the group of one containing
    directory: it holds exactly the candidates of that directory, no other
    group has its key, and in the deletion summary (likewise the overwrite
    summary) it stands as one block of lines, a single collapsed line when it
    holds more than 20 entries and one line per entry otherwise: one line
    for 21 entries, 20 lines for 20. *)
Theorem summary_group_lines candidates directory files :
  In (directory, files) (group_files_by_directory candidates) ->
  files = files_in directory candidates
  /\ (exists before after,
        group_files_by_directory candidates = before ++ (directory, files) :: after
        /\ ~ In directory (map fst before) /\ ~ In directory (map fst after)
        /\ deletion_summary candidates
           = summarize "Delete 20+ files in directory: " "Delete file: " before
             ++ group_lines "Delete 20+ files in directory: " "Delete file: "
                            directory files
             ++ summarize "Delete 20+ files in directory: " "Delete file: " after
        /\ overwrite_summary candidates
           = summarize "Overwrite 20+ files in directory: " "Overwrite file: " before
             ++ group_lines "Overwrite 20+ files in directory: " "Overwrite file: "
                            directory files
             ++ summarize "Overwrite 20+ files in directory: " "Overwrite file: " after)
  /\ (forall collapsed single,
        (20 < length files ->
         group_lines collapsed single directory files
         = [collapsed +:+ path_str directory])
        /\ (length files <= 20 ->
            group_lines collapsed single directory files
            = map (fun file => single +:+ path_str file) files)
        /\ (length files = 21 ->
            length (group_lines collapsed single directory files) = 1)
        /\ (length files = 20 ->
            length (group_lines collapsed single directory files) = 20)).
Proof.
  intros Hin. destruct (group_files_by_directory_spec candidates) as [Hnd Hgroups].
  split; [by apply Hgroups|]. split.
  - destruct (in_split _ _ Hin) as (before & after & Heq). exists before, after.
    rewrite Heq, map_app in Hnd. simpl in Hnd.
    apply NoDup_app in Hnd as (_ & Hcross & [Hafter _]%NoDup_cons).
    split; [done|]. split; [|split; [|split]].
    + intros Hb%list_elem_of_In. apply (Hcross _ Hb). by left.
    + by rewrite <- list_elem_of_In.
    + unfold deletion_summary. rewrite Heq, summarize_app. reflexivity.
    + unfold overwrite_summary. rewrite Heq, summarize_app. reflexivity.
  - intros collapsed single. unfold group_lines. repeat split.
    + intros H. apply Nat.ltb_lt in H. by rewrite H.
    + intros H. apply Nat.ltb_ge in H. by rewrite H.
    + intros H. by rewrite H.
    + intros H. rewrite H. simpl. by rewrite length_map.
Qed.

Lemma summary_group_lines_witness :
  candidates_21 = files_in ["t"; "d"] candidates_21
  /\ length (group_lines "Delete 20+ files in directory: " "Delete file: "
                         ["t"; "d"] candidates_21) = 1.
Proof.
  destruct (summary_group_lines candidates_21 ["t"; "d"] candidates_21)
    as (Hfiles & _ & Hlines).
  - vm_compute. left. reflexivity.
  - split; [exact Hfiles|].
    apply (Hlines "Delete 20+ files in directory: " "Delete file: "). reflexivity.
Defined.

(** The two sizes of the specification, run. *)
Example summary_of_21_and_20 :
  deletion_summary candidates_21 = ["Delete 20+ files in directory: t/d"]
  /\ length (deletion_summary candidates_20) = 20
  /\ overwrite_summary candidates_21 = ["Overwrite 20+ files in directory: t/d"]
  /\ length (overwrite_summary candidates_20) = 20.
Proof. repeat split; vm_compute; reflexivity. Qed.

(** ** The execution phases *)

Section EngineFacts.
Variable world : Type.
Variable view : world -> node.
Variable os_call : call -> world -> world * outcome unit.
Variables source target : path.

Lemma replays_app trace1 trace2 w w1 w2 :
  replays world view os_call trace1 w w1 ->
  replays world view os_call trace2 w1 w2 ->
  replays world view os_call (trace1 ++ trace2) w w2.
Proof.
  revert w. induction trace1 as [|[q b|c r] trace1 IH]; intros w; simpl.
  - by intros ->.
  - intros [-> H1] H2. split; [done|by apply IH].
  - intros [-> H1] H2. split; [done|by apply IH].
Qed.

(** What holds of the world at the start and is kept by every operation of
    the steps holds at the end. *)
Lemma replays_invariant (P : world -> Prop) trace w w' :
  replays world view os_call trace w w' ->
  P w ->
  (forall c r w1, In (Called c r) trace -> P w1 -> P (os_call c w1).1) ->
  P w'.
Proof.
  revert w. induction trace as [|[q b|c r] trace IH]; intros w; simpl.
  - by intros ->.
  - intros [_ H] HP Hkeep. apply (IH w); [done|done|].
    intros c r w1 Hin. apply (Hkeep c r). by right.
  - intros [_ H] HP Hkeep. apply (IH (os_call c w).1); [done| |].
    + apply (Hkeep c r); [by left|done].
    + intros c' r' w1 Hin. apply (Hkeep c' r'). by right.
Qed.

(** An attempt always ends normally: what it raised is in [error_paths],
    what it did is in the trace, and the world is what the operations
    left. *)
Lemma run_task_spec t st :
  exists chunk w,
    attempt source target t chunk
    /\ replays world view os_call chunk (st_world st) w
    /\ run_task world view os_call source target t st
       = (RunState w (st_errors st ++ task_errors t chunk)
                   (st_output st ++ task_progress t chunk)
                   (st_trace st ++ chunk), Done tt).
Proof.
  destruct st as [w0 errs out tr]. destruct t as [p|tf|sf tf]; simpl.
  - unfold delete_body, try_except, run_bind, probe, perform, print, record_error.
    simpl. destruct (os_path_isdir (view w0) p) eqn:Hdir; simpl.
    + destruct (os_call (Rmtree p) w0) as [w r] eqn:E.
      exists [Tested (IsDir p) true; Called (Rmtree p) r], w.
      split; [eauto|]. split; [simpl; by rewrite Hdir, E|].
      destruct r as [[]|e]; simpl; by rewrite app_nil_r, <- app_assoc.
    + destruct (os_call (Remove p) w0) as [w r] eqn:E.
      exists [Tested (IsDir p) false; Called (Remove p) r], w.
      split; [eauto|]. split; [simpl; by rewrite Hdir, E|].
      destruct r as [[]|e]; simpl; by rewrite app_nil_r, <- app_assoc.
  - unfold overwrite_body, try_except, run_bind, perform, print, record_error. simpl.
    fold (source_side source target tf).
    destruct (os_call (Copy2 (source_side source target tf) tf) w0) as [w r] eqn:E.
    exists [Called (Copy2 (source_side source target tf) tf) r], w.
    split; [eauto|]. split; [simpl; by rewrite E|].
    destruct r as [[]|e]; simpl; by rewrite app_nil_r.
  - unfold copy_body, try_except, run_bind, probe, perform, print, record_error, run_ret.
    simpl. unfold copy_attempt.
    destruct (os_path_exists (view w0) (os_path_dirname tf)) eqn:Hex; simpl.
    + destruct (os_call (Copy2 sf tf) w0) as [w r] eqn:E.
      exists [Tested (Exists (os_path_dirname tf)) true; Called (Copy2 sf tf) r], w.
      split; [left; eauto|]. split; [simpl; by rewrite Hex, E|].
      destruct r as [[]|e]; simpl; by rewrite app_nil_r, <- app_assoc.
    + destruct (os_call (Makedirs (os_path_dirname tf)) w0) as [w1 [[]|e]] eqn:E1; simpl.
      * destruct (os_call (Copy2 sf tf) w1) as [w r] eqn:E.
        exists [Tested (Exists (os_path_dirname tf)) false;
                Called (Makedirs (os_path_dirname tf)) (Done tt);
                Called (Copy2 sf tf) r], w.
        split; [right; left; eauto|]. split; [simpl; rewrite Hex, E1; simpl; by rewrite E|].
        destruct r as [[]|e]; simpl; by rewrite app_nil_r, <- !app_assoc.
      * exists [Tested (Exists (os_path_dirname tf)) false;
                Called (Makedirs (os_path_dirname tf)) (Raised e)], w1.
        split; [right; right; eauto|]. split; [simpl; by rewrite Hex, E1|].
        by rewrite app_nil_r, <- app_assoc.
Qed.

(** A loop over tasks attempts every one of them, in order, whatever the
    earlier attempts raised. *)
Lemma for_in_tasks_spec ts : forall st,
  exists chunks w,
    Forall2 (attempt source target) ts chunks
    /\ replays world view os_call (concat chunks) (st_world st) w
    /\ for_in world ts (run_task world view os_call source target) st
       = (RunState w (st_errors st ++ all_errors ts chunks)
                   (st_output st ++ all_progress ts chunks)
                   (st_trace st ++ concat chunks), Done tt).
Proof.
  induction ts as [|t ts IH]; intros st.
  - exists [], (st_world st). split; [constructor|]. split; [done|].
    unfold all_errors, all_progress. simpl. rewrite !app_nil_r. by destruct st.
  - destruct (run_task_spec t st) as (chunk & w1 & Ha & Hw1 & Hrun).
    destruct (IH (RunState w1 (st_errors st ++ task_errors t chunk)
                           (st_output st ++ task_progress t chunk)
                           (st_trace st ++ chunk)))
      as (chunks & w & Hall & Hw & Hrest).
    exists (chunk :: chunks), w. split; [by constructor|].
    split; [simpl; by eapply replays_app|].
    simpl. unfold run_bind. rewrite Hrun, Hrest. simpl.
    unfold all_errors, all_progress. simpl. by rewrite <- !app_assoc.
Qed.

Lemma for_in_app {A} (xs ys : list A) (body : A -> run world unit) st :
  for_in world (xs ++ ys) body st
  = run_bind world (for_in world xs body) (fun _ => for_in world ys body) st.
Proof.
  revert st. induction xs as [|x xs IH]; intros st; simpl.
  - unfold run_bind, run_ret. done.
  - unfold run_bind. destruct (body x st) as [st' [[]|e]]; [apply IH|done].
Qed.

Lemma for_in_map {A B} (f : A -> B) (xs : list A) (body : B -> run world unit) st :
  for_in world (map f xs) body st = for_in world xs (fun x => body (f x)) st.
Proof.
  revert st. induction xs as [|x xs IH]; intros st; simpl; [done|].
  unfold run_bind. destruct (body (f x) st) as [st' [[]|e]]; [apply IH|done].
Qed.

Lemma for_in_print lines st :
  for_in world lines (print world) st
  = (RunState (st_world st) (st_errors st) (st_output st ++ lines) (st_trace st),
     Done tt).
Proof.
  revert st. induction lines as [|l lines IH]; intros st; simpl.
  - unfold run_ret. rewrite app_nil_r. by destruct st.
  - unfold run_bind, print at 1. rewrite IH. simpl. by rewrite <- app_assoc.
Qed.

End EngineFacts.

Section ExecuteFacts.
Variable world : Type.
Variable view : world -> node.
Variable os_call : call -> world -> world * outcome unit.
Variables source target : path.

Lemma for_in_ext {A} (xs : list A) (body body' : A -> run world unit) st :
  (forall x st, body x st = body' x st) ->
  for_in world xs body st = for_in world xs body' st.
Proof.
  intros Hext. revert st. induction xs as [|x xs IH]; intros st; simpl; [done|].
  unfold run_bind. rewrite Hext. destruct (body' x st) as [st' [[]|e]]; [apply IH|done].
Qed.

Lemma report_errors_spec st :
  report_errors world st
  = (RunState (st_world st) (st_errors st)
              (st_output st ++ report_lines (st_errors st)) (st_trace st), Done tt).
Proof.
  unfold report_errors, run_bind, get_errors, report_lines. destruct st as [w errs out tr].
  simpl. destruct errs as [|e errs]; [unfold run_ret; by rewrite app_nil_r|].
  rewrite for_in_print. simpl. unfold errors_header. by rewrite <- app_assoc.
Qed.

(** The three loops of the execution phases are one loop over [tasks]. *)
Lemma execute_as_tasks p answer st :
  execute world view os_call source target p answer st
  = run_bind world
      (for_in world (tasks p (confirms answer))
              (run_task world view os_call source target))
      (fun _ => report_errors world)
      (RunState (st_world st) (st_errors st) (st_output st ++ review_lines p)
                (st_trace st)).
Proof.
  unfold execute, review_lines, tasks.
  set (copies := map (fun pair : path * path => Copy pair.1 pair.2) (copy_candidates p)).
  assert (Hcopy : forall st0,
    for_in world (copy_candidates p) (copy_body world view os_call) st0
    = for_in world copies (run_task world view os_call source target) st0).
  { intros st0. unfold copies. rewrite for_in_map. apply for_in_ext.
    by intros [sf tf] st1. }
  destruct (deletion_summary (delete_candidates p)
            ++ overwrite_summary (overwrite_candidates p)) as [|l ls] eqn:Hsum.
  - apply app_eq_nil in Hsum as [Hd Ho]. rewrite Hd, Ho. simpl.
    apply summarize_nil in Hd. apply summarize_nil in Ho. rewrite Hd, Ho. simpl.
    rewrite app_nil_r. destruct (confirms answer); simpl;
      unfold run_bind at 1 2, run_ret; rewrite Hcopy; by destruct st.
  - assert (Nat.ltb 0 (length (deletion_summary (delete_candidates p)))
            || Nat.ltb 0 (length (overwrite_summary (overwrite_candidates p))) = true)
      as ->.
    { destruct (deletion_summary (delete_candidates p)); [|done].
      destruct (overwrite_summary (overwrite_candidates p)); done. }
    rewrite <- Hsum. unfold run_bind at 1 2 3. rewrite for_in_print. simpl.
    unfold prompt. rewrite <- app_assoc.
    set (st1 := RunState _ _ _ _). destruct (confirms answer).
    + unfold run_bind. rewrite <- app_assoc, for_in_app. unfold run_bind.
      rewrite for_in_map.
      change (fun x => run_task world view os_call source target (Delete x))
        with (delete_body world view os_call).
      destruct (for_in world (delete_candidates p) _ st1) as [st2 [[]|e]]; [|done].
      rewrite for_in_app. unfold run_bind. rewrite for_in_map.
      change (fun x => run_task world view os_call source target (Overwrite x))
        with (overwrite_body world os_call source target).
      destruct (for_in world (overwrite_candidates p) _ st2) as [st3 [[]|e]]; [|done].
      by rewrite Hcopy.
    + simpl. unfold run_ret, run_bind. by rewrite Hcopy.
Qed.

Lemma execute_spec p answer st :
  let ts := tasks p (confirms answer) in
  exists chunks w,
    Forall2 (attempt source target) ts chunks
    /\ replays world view os_call (concat chunks) (st_world st) w
    /\ execute world view os_call source target p answer st
       = (RunState w (st_errors st ++ all_errors ts chunks)
            (st_output st ++ review_lines p ++ all_progress ts chunks
             ++ report_lines (st_errors st ++ all_errors ts chunks))
            (st_trace st ++ concat chunks), Done tt).
Proof.
  intros ts. rewrite execute_as_tasks. fold ts.
  destruct (for_in_tasks_spec world view os_call source target ts
              (RunState (st_world st) (st_errors st)
                        (st_output st ++ review_lines p) (st_trace st)))
    as (chunks & w & Hall & Hw & Hrun).
  exists chunks, w. split; [done|]. split; [done|]. unfold run_bind. rewrite Hrun.
  rewrite report_errors_spec. simpl. by rewrite <- !app_assoc.
Qed.

End ExecuteFacts.

Lemma Forall2_map_l {A B C} (P : B -> C -> Prop) (f : A -> B) l k :
  Forall2 P (map f l) k -> Forall2 (fun x => P (f x)) l k.
Proof.
  revert k. induction l as [|x l IH]; intros k; simpl; inversion 1; subst;
    constructor; [done|by apply IH].
Qed.

Lemma Forall2_In_r {A B} (P : A -> B -> Prop) l k y :
  Forall2 P l k -> In y k -> exists x, In x l /\ P x y.
Proof.
  induction 1 as [|x y' l k HP Hall IH]; simpl; [done|].
  intros [->|Hin]; [eauto|]. destruct (IH Hin) as (x' & ? & ?). eauto.
Qed.

(** The attempts at the delete-candidates issue one operation each, on the
    candidate. *)
Lemma delete_attempts_targets source target dc chunks :
  Forall2 (attempt source target) (map Delete dc) chunks ->
  map call_target (calls_of (concat chunks)) = dc.
Proof.
  revert chunks. induction dc as [|d dc IH]; intros chunks; simpl; inversion 1; subst.
  - done.
  - simpl. unfold calls_of in *. rewrite flat_map_app, map_app, IH by done.
    match goal with H : attempt _ _ (Delete d) _ |- _ => destruct H as (r & [->| ->]) end;
      done.
Qed.

(** ** Properties of a run *)

Section RunFacts.
Variable world : Type.
Variable view : world -> node.
Variable os_call : call -> world -> world * outcome unit.
Variables source target : path.
Variable script_name : name.

Lemma sync_directories_planned answer w p :
  plan_candidates (view w) source target script_name = Some p ->
  sync_directories world view os_call source target script_name answer (start world w)
  = execute world view os_call source target p answer (start world w).
Proof.
  intros Hp. unfold sync_directories, run_bind, read. simpl. by rewrite Hp.
Qed.

(** C6.  In the delete list of a well-formed tree, a candidate that lies
    below another candidate (a file or a directory below a directory) stands
    before it; and a confirmed run issues its delete operations first, one
    per candidate, in the order of the list. *)
Theorem delete_candidates_bottom_up answer w p :
  wf_node (view w) = true ->
  plan_candidates (view w) source target script_name = Some p ->
  (forall i j a b,
     delete_candidates p !! i = Some a ->
     delete_candidates p !! j = Some b ->
     below a b ->
     j < i)
  /\ (confirms answer = true ->
      exists st' later,
        sync_directories world view os_call source target script_name answer
                         (start world w) = (st', Done tt)
        /\ map call_target (calls_of (st_trace st'))
           = delete_candidates p ++ later).
Proof.
  intros Hwf Hp. split.
  - intros i j a b. by apply (delete_list_bottom_up (view w) source target script_name).
  - intros Hyes. rewrite (sync_directories_planned _ _ _ Hp).
    destruct (execute_spec world view os_call source target p answer (start world w))
      as (chunks & w' & Hall & _ & Hrun).
    rewrite Hrun. unfold tasks in Hall. rewrite Hyes, <- app_assoc in Hall.
    apply Forall2_app_inv_l in Hall as (dchunks & rest & Hdel & _ & ->).
    eexists _, _. split; [done|]. simpl. unfold calls_of.
    rewrite concat_app, flat_map_app, map_app. f_equal.
    by eapply delete_attempts_targets.
Qed.


(** C8.  Whatever the operations do and however they end, the execution
    phases end normally.  Every task of the run (the delete- and
    overwrite-candidates when the answer is a yes, then the copy-candidates)
    is attempted, in order, on the world its predecessors left; an attempt
    whose operation raised [e] has added the entry made of the task's path
    and [e] to [error_paths], and nothing else has; the closing report, all
    of [error_paths] under its header, is the last thing printed. *)
Theorem failures_are_isolated p answer st :
  let ts := tasks p (confirms answer) in
  exists st' chunks,
    execute world view os_call source target p answer st = (st', Done tt)
    /\ Forall2 (attempt source target) ts chunks
    /\ st_trace st' = st_trace st ++ concat chunks
    /\ replays world view os_call (concat chunks) (st_world st) (st_world st')
    /\ st_errors st' = st_errors st ++ concat (zip_with task_errors ts chunks)
    /\ (forall i t chunk e,
          ts !! i = Some t -> chunks !! i = Some chunk -> failure chunk = Some e ->
          In (task_error_prefix t +:+ ": " +:+ e) (st_errors st'))
    /\ st_output st'
       = st_output st ++ review_lines p
         ++ concat (zip_with task_progress ts chunks)
         ++ report_lines (st_errors st').
Proof.
  intros ts.
  destruct (execute_spec world view os_call source target p answer st)
    as (chunks & w' & Hall & Hw & Hrun).
  fold ts in Hall, Hrun. eexists _, chunks. split; [exact Hrun|]. simpl.
  repeat split; try done.
  intros i t chunk e Ht Hc Hfail. apply in_app_iff. right.
  unfold all_errors. apply in_concat. exists (task_errors t chunk). split.
  - apply list_elem_of_In, list_elem_of_lookup. exists i.
    rewrite lookup_zip_with, Ht. simpl. by rewrite Hc.
  - unfold task_errors. rewrite Hfail. by left.
Qed.
End RunFacts.

Lemma delete_candidates_bottom_up_witness :
  (forall i j a b,
     delete_candidates plan_run !! i = Some a ->
     delete_candidates plan_run !! j = Some b ->
     below a b ->
     j < i)
  /\ (confirms "y" = true ->
      exists st' later,
        run_on disk_run "y" = (st', Done tt)
        /\ map call_target (calls_of (st_trace st'))
           = delete_candidates plan_run ++ later).
Proof.
  apply (delete_candidates_bottom_up disk disk_tree disk_call ["s"] ["t"] "sync.py"
           "y" disk_run plan_run).
  - vm_compute. reflexivity.
  - vm_compute. reflexivity.
Defined.



(** The run behind it: the plan, and the one operation of the declined
    run. *)
Example run_shadowed :
  plan_candidates fs_shadowed ["s"] ["t"] "sync.py" = Some plan_shadowed
  /\ calls_of (st_trace (run_on (Disk fs_shadowed []) "n").1)
     = [Copy2 ["s"; "x"] ["t"; "x"]]
  /\ lookup_path (disk_tree (st_world (run_on (Disk fs_shadowed []) "n").1))
                 ["t"; "x"; "x"]
     = Some (File 200%float "sx").
Proof. repeat split; vm_compute; reflexivity. Qed.

(** A locked file fails its delete; the run goes on and reports it last. *)
Example run_locked_file :
  let st := (run_on (Disk fs_run [["t"; "old"; "x.txt"]]) " Y ").1 in
  st_errors st = ["Error deleting t/old/x.txt: PermissionError"]
  /\ calls_of (st_trace st)
     = [Remove ["t"; "orphan.txt"]; Remove ["t"; "old"; "x.txt"];
        Rmtree ["t"; "old"]; Makedirs ["t"; "new"];
        Copy2 ["s"; "new"; "n.txt"] ["t"; "new"; "n.txt"]]
  /\ exists earlier,
       st_output st
       = earlier ++ [errors_header; "Error deleting t/old/x.txt: PermissionError"].
Proof.
  split; [vm_compute; reflexivity|]. split; [vm_compute; reflexivity|].
  exists (take 7 (st_output (run_on (Disk fs_run [["t"; "old"; "x.txt"]]) " Y ").1)).
  vm_compute. reflexivity.
Qed.

(** ** The scenarios of the specification, run on the disk *)

(** A confirmed run removes the orphan and copies the new file with its
    content and time; a declined run leaves the orphan in place and copies
    all the same. *)
Example run_confirmed :
  let st := (run_on disk_run "y").1 in
  lookup_path (disk_tree (st_world st)) ["t"; "orphan.txt"] = None
  /\ lookup_path (disk_tree (st_world st)) ["t"; "old"] = None
  /\ lookup_path (disk_tree (st_world st)) ["t"; "new"; "n.txt"]
     = Some (File 100%float "n")
  /\ st_errors st = [].
Proof. repeat split; vm_compute; reflexivity. Qed.

Example run_declined :
  let st := (run_on disk_run "n").1 in
  lookup_path (disk_tree (st_world st)) ["t"; "orphan.txt"]
  = Some (File 100%float "o")
  /\ lookup_path (disk_tree (st_world st)) ["t"; "old"]
     = lookup_path fs_run ["t"; "old"]
  /\ lookup_path (disk_tree (st_world st)) ["t"; "new"; "n.txt"]
     = Some (File 100%float "n")
  /\ st_errors st = [].
Proof. repeat split; vm_compute; reflexivity. Qed.

Example confirms_examples :
  confirms "y" = true /\ confirms " Y " = true
  /\ confirms "n" = false /\ confirms "yes" = false /\ confirms "" = false
  /\ confirms (nbsp +:+ "y") = true /\ confirms (em_space +:+ "Y" +:+ nbsp) = true
  /\ confirms (nbsp +:+ "no") = false.
Proof. repeat split; vm_compute; reflexivity. Qed.

(** * Further properties of the planner *)

(** ** Path strings *)

Lemma append_cons c l s : String c l +:+ s = String c (l +:+ s).
Proof. reflexivity. Qed.

Lemma prefix_app p s : String.prefix p s = true <-> exists rest, s = p +:+ rest.
Proof.
  revert s. induction p as [|c p IH]; intros s.
  - split; [intros _; by exists s|intros _; by destruct s].
  - destruct s as [|c' s]; simpl.
    + split; [done|]. intros (rest & H). by rewrite append_cons in H.
    + destruct (Ascii.ascii_dec c c') as [<-|Hne].
      * rewrite IH. split.
        -- intros (rest & ->). by exists rest.
        -- intros (rest & H). rewrite append_cons in H. injection H as ->.
           by exists rest.
      * split; [done|]. intros (rest & H). rewrite append_cons in H.
        by injection H as H _.
Qed.

Lemma append_nil_r s : s +:+ EmptyString = s.
Proof. induction s as [|c s IH]; [done|]. by rewrite append_cons, IH. Qed.

Lemma append_assoc a b c : (a +:+ b) +:+ c = a +:+ (b +:+ c).
Proof. induction a as [|x a IH]; [done|]. by rewrite !append_cons, IH. Qed.

Lemma string_drop_app old x : string_drop (String.length old) (old +:+ x) = x.
Proof. induction old as [|c old IH]; [by destruct x|]. simpl. apply IH. Qed.

Lemma str_replace_unfold old new s :
  str_replace old new s
  = if String.prefix old s then new +:+ string_drop (String.length old) s
    else match s with
         | EmptyString => EmptyString
         | String c s' => String c (str_replace old new s')
         end.
Proof. by destruct s. Qed.

(** A string that begins with [old] has its leftmost occurrence of [old]
    there. *)
Lemma str_replace_prefix old new x : str_replace old new (old +:+ x) = new +:+ x.
Proof.
  rewrite str_replace_unfold.
  assert (String.prefix old (old +:+ x) = true) as -> by (apply prefix_app; eauto).
  by rewrite string_drop_app.
Qed.

Section StringFacts.
Variable sep : ascii.

Lemma split_sep_nonempty s : split_sep sep s <> [].
Proof.
  destruct s as [|c s]; simpl; [done|].
  destruct (Ascii.eqb c sep); [done|]. by destruct (split_sep sep s).
Qed.

Lemma split_sep_no_sep s : Forall (fun x => no_sep sep x = true) (split_sep sep s).
Proof.
  induction s as [|c s IH]; simpl; [by repeat constructor|].
  destruct (Ascii.eqb c sep) eqn:E; [by constructor|].
  destruct (split_sep sep s) as [|x xs]; [by repeat constructor; simpl; rewrite E|].
  apply Forall_cons in IH as [Hx Hxs]. constructor; [|done]. simpl. by rewrite E.
Qed.

Lemma path_string_cons x y l :
  path_string sep (x :: y :: l) = x +:+ String sep (path_string sep (y :: l)).
Proof. reflexivity. Qed.

Lemma split_sep_unfold c s :
  split_sep sep (String c s)
  = if Ascii.eqb c sep then EmptyString :: split_sep sep s
    else match split_sep sep s with
         | x :: xs => String c x :: xs
         | [] => [String c EmptyString]
         end.
Proof. reflexivity. Qed.

Lemma path_string_split s : path_string sep (split_sep sep s) = s.
Proof.
  induction s as [|c s IH]; [done|]. rewrite split_sep_unfold.
  pose proof (split_sep_nonempty s) as Hne.
  destruct (Ascii.eqb c sep) eqn:E.
  - apply Ascii.eqb_eq in E as ->.
    destruct (split_sep sep s) as [|x xs]; [done|]. by rewrite <- IH.
  - destruct (split_sep sep s) as [|x [|y xs]]; [done| |]; by rewrite <- IH.
Qed.

Lemma split_sep_cons x rest :
  no_sep sep x = true -> split_sep sep (x +:+ String sep rest) = x :: split_sep sep rest.
Proof.
  induction x as [|c x IH]; simpl.
  - intros _. by rewrite Ascii.eqb_refl.
  - intros [Hc Hx]%andb_prop. apply negb_true_iff in Hc. rewrite Hc, IH by done. done.
Qed.

Lemma split_sep_single x : no_sep sep x = true -> split_sep sep x = [x].
Proof.
  induction x as [|c x IH]; simpl; [done|].
  intros [Hc Hx]%andb_prop. apply negb_true_iff in Hc. by rewrite Hc, IH.
Qed.

Lemma split_sep_path_string l :
  l <> [] -> Forall (fun x => no_sep sep x = true) l ->
  split_sep sep (path_string sep l) = l.
Proof.
  induction l as [|x [|y l] IH]; intros Hne Hall; [done| |].
  - apply Forall_cons in Hall as [Hx _]. by apply split_sep_single.
  - apply Forall_cons in Hall as [Hx Hl]. rewrite path_string_cons, split_sep_cons by done.
    f_equal. by apply IH.
Qed.

Lemma path_string_app l k :
  l <> [] -> k <> [] ->
  path_string sep (l ++ k) = path_string sep l +:+ String sep (path_string sep k).
Proof.
  induction l as [|x [|y l] IH]; intros Hl Hk; [done| |].
  - destruct k as [|z k]; [done|]. reflexivity.
  - change ((x :: y :: l) ++ k) with (x :: y :: (l ++ k)).
    rewrite !path_string_cons. change (y :: l ++ k) with ((y :: l) ++ k).
    rewrite IH by done. by rewrite append_assoc.
Qed.

Lemma split_sep_app a b :
  split_sep sep (a +:+ String sep b) = split_sep sep a ++ split_sep sep b.
Proof.
  rewrite <- (path_string_split a) at 1. rewrite <- (path_string_split b) at 1.
  rewrite <- path_string_app by apply split_sep_nonempty.
  apply split_sep_path_string.
  - pose proof (split_sep_nonempty a). by destruct (split_sep sep a).
  - apply Forall_app. split; apply split_sep_no_sep.
Qed.

Lemma path_components_app a b :
  path_components sep (a +:+ String sep b)
  = path_components sep a ++ path_components sep b.
Proof. unfold path_components. by rewrite split_sep_app, List.filter_app. Qed.

Lemma plain_inv x :
  plain sep x = true ->
  x <> EmptyString /\ no_sep sep x = true /\ starts_with_sep sep x = false.
Proof.
  unfold plain. intros [Hne Hns]%andb_prop. apply negb_true_iff, String.eqb_neq in Hne.
  split; [done|]. split; [done|]. destruct x as [|c x]; [done|]. simpl in *.
  apply andb_prop in Hns as [Hc _]. by apply negb_true_iff in Hc.
Qed.

Lemma path_components_string q :
  Forall (fun x => plain sep x = true) q -> path_components sep (path_string sep q) = q.
Proof.
  intros Hq. destruct q as [|x q]; [done|]. unfold path_components.
  rewrite split_sep_path_string; [|done|].
  - induction Hq as [|y l Hy Hl IH]; simpl; [done|].
    apply plain_inv in Hy as (Hne & _). apply String.eqb_neq in Hne. rewrite Hne. simpl.
    by rewrite IH.
  - eapply Forall_impl; [exact Hq|]. intros y Hy. by apply plain_inv in Hy as (_ & ? & _).
Qed.

Lemma ends_with_sep_app a b :
  b <> EmptyString -> ends_with_sep sep (a +:+ b) = ends_with_sep sep b.
Proof.
  intros Hb. induction a as [|c a IH]; [done|]. rewrite append_cons.
  simpl. destruct (a +:+ b) eqn:E; [|done].
  destruct a; [by destruct b|done].
Qed.

Lemma no_sep_ends x : no_sep sep x = true -> ends_with_sep sep x = false.
Proof.
  induction x as [|c x IH]; [done|]. simpl. intros [Hc Hx]%andb_prop.
  apply negb_true_iff in Hc. destruct x; [done|]. by apply IH.
Qed.

Lemma ends_with_sep_inv s :
  ends_with_sep sep s = true -> exists s0, s = s0 +:+ String sep EmptyString.
Proof.
  induction s as [|c s IH]; [done|]. simpl. destruct s as [|c' s].
  - intros ->%Ascii.eqb_eq. by exists EmptyString.
  - intros H. destruct (IH H) as [s0 ->]. by exists (String c s0).
Qed.

Lemma last_split_sep s :
  s <> EmptyString -> ends_with_sep sep s = false ->
  List.last (split_sep sep s) EmptyString <> EmptyString.
Proof.
  induction s as [|c s IH]; [done|]. intros _. simpl ends_with_sep.
  destruct s as [|c' s].
  - intros Hc. simpl. by rewrite Hc.
  - intros Hends. specialize (IH ltac:(done) Hends).
    pose proof (split_sep_nonempty (String c' s)) as Hne.
    rewrite (split_sep_unfold c).
    destruct (Ascii.eqb c sep).
    + destruct (split_sep sep (String c' s)); [done|]. done.
    + destruct (split_sep sep (String c' s)) as [|x [|y xs]]; [done| |done]. done.
Qed.

End StringFacts.

Section JoinFacts.
Variable sep : ascii.

Lemma join_plain a x :
  plain sep x = true ->
  os_path_join_str sep a x
  = a +:+ (if String.eqb a EmptyString || ends_with_sep sep a then x
           else String sep x).
Proof.
  intros (Hne & Hns & Hst)%plain_inv. unfold os_path_join_str. rewrite Hst.
  by destruct (_ || _).
Qed.

Lemma append_nonempty a b : a <> EmptyString -> a +:+ b <> EmptyString.
Proof. by destruct a. Qed.

Lemma path_string_nonempty q :
  q <> [] -> Forall (fun x => plain sep x = true) q -> path_string sep q <> EmptyString.
Proof.
  intros Hq Hall. destruct q as [|x [|y q]]; [done| |].
  - apply Forall_cons in Hall as [(Hne & _)%plain_inv _]. done.
  - apply Forall_cons in Hall as [(Hne & _)%plain_inv _]. rewrite path_string_cons.
    by apply append_nonempty.
Qed.

Lemma path_string_snoc q y :
  q <> [] -> path_string sep (q ++ [y]) = path_string sep q +:+ String sep y.
Proof. intros Hq. by rewrite path_string_app. Qed.

Lemma path_string_ends q :
  Forall (fun x => plain sep x = true) q -> ends_with_sep sep (path_string sep q) = false.
Proof.
  intros Hall. destruct q as [|x q] using rev_ind; [done|].
  apply Forall_app in Hall as [Hq [(Hne & Hns & _)%plain_inv _]%Forall_cons].
  destruct q as [|z q].
  - by apply no_sep_ends.
  - rewrite path_string_snoc by done. rewrite ends_with_sep_app by done.
    simpl. destruct x; [done|]. by apply (no_sep_ends sep (String a x)).
Qed.

Lemma join_all_tail top q :
  top <> EmptyString -> Forall (fun x => plain sep x = true) q -> q <> [] ->
  join_all sep top q
  = top +:+ (if ends_with_sep sep top then path_string sep q
             else String sep (path_string sep q)).
Proof.
  intros Htop. induction q as [|y q IH] using rev_ind; [done|]. intros Hall _.
  apply Forall_app in Hall as [Hq [Hy _]%Forall_cons].
  unfold join_all. rewrite fold_left_app. simpl. fold (join_all sep top q).
  rewrite join_plain by done. destruct q as [|z q].
  - simpl. apply String.eqb_neq in Htop. rewrite Htop. simpl.
    by destruct (ends_with_sep sep top).
  - rewrite IH by done. rewrite path_string_snoc by done.
    pose proof (path_string_nonempty (z :: q) ltac:(done) Hq) as Hne.
    pose proof (path_string_ends (z :: q) Hq) as Hends.
    assert (Hnonempty : top +:+ (if ends_with_sep sep top then path_string sep (z :: q)
                                 else String sep (path_string sep (z :: q)))
                        <> EmptyString) by (by apply append_nonempty).
    apply String.eqb_neq in Hnonempty. rewrite Hnonempty. simpl.
    rewrite ends_with_sep_app by (by destruct (ends_with_sep sep top)).
    assert (ends_with_sep sep (if ends_with_sep sep top then path_string sep (z :: q)
                               else String sep (path_string sep (z :: q))) = false) as ->.
    { destruct (ends_with_sep sep top); [done|].
      change (String sep (path_string sep (z :: q)))
        with (String sep EmptyString +:+ path_string sep (z :: q)).
      by rewrite ends_with_sep_app. }
    rewrite append_assoc. f_equal. by destruct (ends_with_sep sep top).
Qed.

Lemma plain_tree_entry m es d n :
  plain_tree sep (Dir m es) = true -> In (d, n) es ->
  plain sep d = true /\ plain_tree sep n = true.
Proof.
  simpl. rewrite forallb_forall. intros Hall Hin.
  by apply (Hall (d, n)), andb_prop in Hin.
Qed.

Lemma plain_tree_lookup p : forall n n',
  plain_tree sep n = true -> lookup_path n p = Some n' -> plain_tree sep n' = true.
Proof.
  induction p as [|c p IH]; intros n n' Hn; simpl.
  - by intros [= <-].
  - destruct n as [|m es]; [done|]. destruct (find_entry c es) as [n1|] eqn:E; [|done].
    apply IH. by apply (plain_tree_entry m es c n1 Hn), find_entry_In.
Qed.

Lemma plain_file_names m es :
  plain_tree sep (Dir m es) = true ->
  Forall (fun x => plain sep x = true) (file_names es).
Proof.
  intros Hn. apply List.Forall_forall. intros d (m' & c & Hin)%in_file_names.
  by apply (plain_tree_entry _ _ _ _ Hn Hin).
Qed.

(** In a tree of plain names, the roots of the component walk are the top
    followed by plain names, and the files it lists are plain. *)
Lemma walk_topdown_plain keep n : forall top root dirs files,
  plain_tree sep n = true ->
  In (root, dirs, files) (walk_topdown keep top n) ->
  exists r, root = top ++ r /\ Forall (fun x => plain sep x = true) r
            /\ Forall (fun x => plain sep x = true) files.
Proof.
  induction n as [m c|m es IH] using node_ind; intros top root dirs files Hn; [done|].
  simpl. intros [[= <- <- <-]|Hin].
  - exists []. rewrite app_nil_r. split; [done|]. split; [done|].
    by apply (plain_file_names m).
  - apply in_flat_map in Hin as ([d c] & Hes & Hin). simpl in Hin.
    destruct (is_dir c && keep d); [|done].
    destruct (plain_tree_entry _ _ _ _ Hn Hes) as [Hd Hc].
    rewrite List.Forall_forall in IH.
    apply (IH _ Hes) in Hin as (r & -> & Hr & Hfiles); [|done].
    exists (d :: r). rewrite <- app_assoc. split; [done|]. split; [by constructor|done].
Qed.

End JoinFacts.

Lemma for_each_nested_gen {R S} (body : R -> name -> S -> option S)
    (items : list (R * list name * list name)) s :
  for_each (fun '(root, _, files) => for_each (body root) files) items s
  = for_each (fun rn => body rn.1 rn.2)
      (flat_map (fun it : R * list name * list name => map (pair it.1.1) it.2) items) s.
Proof.
  revert s. induction items as [|[[root ds] fs0] items IH]; intros s; [done|].
  cbn [for_each flat_map]. rewrite for_each_app.
  assert (Hin : forall s0, for_each (body root) fs0 s0
     = for_each (fun rn => body rn.1 rn.2) (map (pair root) fs0) s0).
  { clear. induction fs0 as [|f fs0 IHf]; intros s0; simpl; [done|].
    destruct (body root f s0); simpl; [apply IHf|done]. }
  simpl. rewrite <- Hin. destruct (for_each (body root) fs0 s); simpl; [|done].
  apply IH.
Qed.


(** ** The walk on path strings *)

Lemma map_flat_map_comm {A B C} (h : B -> C) (g : A -> list B) l :
  map h (flat_map g l) = flat_map (fun x => map h (g x)) l.
Proof. induction l as [|x l IH]; simpl; [done|]. by rewrite map_app, IH. Qed.

Lemma append_nil_l s : EmptyString +:+ s = s.
Proof. done. Qed.

Section WalkStrings.
Variable sep : ascii.

Lemma join_all_rel top q :
  top <> EmptyString -> Forall (fun x => plain sep x = true) q -> q <> [] ->
  join_all sep top q = top +:+ rel_string sep top q.
Proof. apply join_all_tail. Qed.


Lemma path_components_empty : path_components sep EmptyString = [].
Proof. done. Qed.

(** The components of a path built by joining are those of the top, then
    the names joined. *)
Lemma path_components_rel top q :
  Forall (fun x => plain sep x = true) q ->
  path_components sep (top +:+ rel_string sep top q) = path_components sep top ++ q.
Proof.
  intros Hq. unfold rel_string. destruct (ends_with_sep sep top) eqn:E.
  - apply ends_with_sep_inv in E as [s0 ->].
    rewrite append_assoc, append_cons, append_nil_l.
    rewrite !path_components_app, path_components_empty, app_nil_r.
    by rewrite path_components_string.
  - by rewrite path_components_app, path_components_string.
Qed.

(** The replaced path names the same relative path below the target when
    the source root does not end in a separator, or the target root ends in
    one as well. *)
Lemma path_components_aligned source target q :
  ends_with_sep sep source = false \/ ends_with_sep sep target = true ->
  Forall (fun x => plain sep x = true) q ->
  path_components sep (target +:+ rel_string sep source q)
  = path_components sep target ++ q.
Proof.
  intros Hal Hq. destruct (ends_with_sep sep source) eqn:Es.
  - destruct Hal as [?|Et]; [done|].
    rewrite <- (path_components_rel target q Hq). unfold rel_string. by rewrite Es, Et.
  - unfold rel_string. rewrite Es.
    by rewrite path_components_app, path_components_string.
Qed.

Lemma split_sep_glue a b :
  split_sep sep (a +:+ b)
  = removelast (split_sep sep a)
    ++ (List.last (split_sep sep a) EmptyString +:+ hd EmptyString (split_sep sep b))
       :: tl (split_sep sep b).
Proof.
  induction a as [|c a IH].
  - rewrite append_nil_l. simpl. pose proof (split_sep_nonempty sep b).
    by destruct (split_sep sep b).
  - rewrite append_cons, !(split_sep_unfold sep c).
    pose proof (split_sep_nonempty sep a) as Ha.
    destruct (Ascii.eqb c sep).
    + rewrite IH. destruct (split_sep sep a) as [|x xs]; [done|]. done.
    + rewrite IH. destruct (split_sep sep a) as [|x [|y xs]]; [done| |].
      * simpl. by rewrite append_cons.
      * done.
Qed.

Lemma filter_plain q :
  Forall (fun x => plain sep x = true) q ->
  List.filter (fun c => negb (String.eqb c EmptyString)) q = q.
Proof.
  induction 1 as [|x q Hx _ IH]; simpl; [done|].
  apply plain_inv in Hx as (Hne & _). apply String.eqb_neq in Hne.
  by rewrite Hne, IH.
Qed.


(** Where the source root ends in a separator and the target root does
    not, the first name of the relative path is written straight after the
    last component of the target root. *)
Lemma path_components_glued target x q :
  target <> EmptyString -> ends_with_sep sep target = false ->
  Forall (fun x => plain sep x = true) (x :: q) ->
  path_components sep (target +:+ path_string sep (x :: q))
  = removelast (path_components sep target)
    ++ (List.last (path_components sep target) EmptyString +:+ x) :: q.
Proof.
  intros Hne Hends Hq. unfold path_components.
  rewrite split_sep_glue, split_sep_path_string; [|done|].
  2:{ eapply Forall_impl; [exact Hq|]. intros y Hy. by apply plain_inv in Hy as (_ & ? & _). }
  pose proof (last_split_sep sep target Hne Hends) as Hlast.
  pose proof (split_sep_nonempty sep target) as HA.
  set (A := split_sep sep target) in *.
  set (l := List.last A EmptyString) in *.
  rewrite (app_removelast_last EmptyString HA) at 2 3. fold l.
  set (F := List.filter (fun c => negb (String.eqb c EmptyString)) (removelast A)).
  rewrite !List.filter_app. fold F. simpl.
  apply Forall_cons in Hq as [Hx Hq].
  apply plain_inv in Hx as (Hxne & _).
  assert (Hlx : l +:+ x <> EmptyString) by (by apply append_nonempty).
  apply String.eqb_neq in Hlx, Hlast. rewrite Hlx, Hlast. simpl.
  by rewrite removelast_last, last_last, filter_plain.
Qed.
End WalkStrings.

Lemma walk_topdown_str_rel sep keep n : forall top p,
  walk_topdown_str sep keep top n
  = map (fun it : walk_item => (str_root sep top p it.1.1, it.1.2, it.2))
        (walk_topdown keep p n).
Proof.
  induction n as [m c|m es IH] using node_ind; intros top p; [done|].
  cbn [walk_topdown_str walk_topdown map]. f_equal.
  - unfold str_root. simpl. by rewrite drop_all.
  - rewrite map_flat_map_comm.
    induction IH as [|[d c] es Hc _ IHes]; simpl; [done|].
    rewrite IHes. f_equal. destruct (is_dir c && keep d); [|done]. simpl in *.
    rewrite (Hc (os_path_join_str sep top d) (p ++ [d])).
    apply map_ext_in. intros [[root ds] fs0] Hin.
    destruct (walk_topdown_root _ _ _ _ _ _ Hin) as [r ->]. simpl.
    unfold str_root. rewrite drop_app_length, <- app_assoc, drop_app_length. done.
Qed.

Lemma os_walk_str_items sep fs keep top :
  top <> EmptyString ->
  os_walk_str sep fs keep top
  = map (fun it : walk_item =>
           (str_root sep top (path_components sep top) it.1.1, it.1.2, it.2))
        (os_walk fs keep true (path_components sep top)).
Proof.
  intros Htop%String.eqb_neq. unfold os_walk_str, os_walk. rewrite Htop.
  destruct (lookup_path fs (path_components sep top)); [|done].
  apply walk_topdown_str_rel.
Qed.

Lemma walk_files_str sep top p items :
  flat_map (fun it : string * list name * list name => map (pair it.1.1) it.2)
           (map (fun it : walk_item => (str_root sep top p it.1.1, it.1.2, it.2)) items)
  = map (fun rn : path * name => (str_root sep top p rn.1, rn.2)) (walk_files items).
Proof.
  unfold walk_files. induction items as [|[[root ds] fs0] items IH]; simpl; [done|].
  rewrite map_app, IH, map_map. done.
Qed.

(** In a tree of plain names, what the walk of a top lists is plain. *)
Lemma os_walk_plain sep fs keep top root nm :
  plain_tree sep fs = true ->
  In (root, nm) (walk_files (os_walk fs keep true top)) ->
  exists r, root = top ++ r /\ Forall (fun x => plain sep x = true) r
            /\ plain sep nm = true.
Proof.
  intros Hfs (dirs & files & Hit & Hnm)%in_walk_files. unfold os_walk in Hit.
  destruct (lookup_path fs top) as [n|] eqn:Htop; [|done].
  pose proof (plain_tree_lookup sep _ _ _ Hfs Htop) as Hn.
  destruct (walk_topdown_plain sep _ _ _ _ _ _ Hn Hit) as (r & -> & Hr & Hfiles).
  rewrite List.Forall_forall in Hfiles. eauto.
Qed.

(** ** The third walk on path strings, and on components *)

(** The path strings that lines 93 and 94 build for the file [nm] of the
    root [top ++ r]. *)
Lemma third_walk_strings sep source target r nm :
  source <> EmptyString ->
  Forall (fun x => plain sep x = true) r -> plain sep nm = true ->
  let source_file :=
    os_path_join_str sep
      (str_root sep source (path_components sep source) (path_components sep source ++ r))
      nm in
  source_file = source +:+ rel_string sep source (r ++ [nm])
  /\ str_replace source target source_file
     = target +:+ rel_string sep source (r ++ [nm]).
Proof.
  intros Hs Hr Hnm source_file.
  assert (source_file = source +:+ rel_string sep source (r ++ [nm])) as ->.
  { unfold source_file, str_root. rewrite drop_app_length.
    rewrite <- join_all_rel; [|done| |by destruct r].
    - unfold join_all. by rewrite fold_left_app.
    - apply Forall_app. split; [done|by constructor]. }
  split; [done|apply str_replace_prefix].
Qed.

Lemma for_each_In {A B} (body : A -> list B -> option (list B))
    (P : A -> B -> Prop) xs :
  (forall x acc acc' y, In x xs -> body x acc = Some acc' -> In y acc' ->
     In y acc \/ P x y) ->
  forall acc acc' y, for_each body xs acc = Some acc' -> In y acc' ->
    In y acc \/ exists x, In x xs /\ P x y.
Proof.
  induction xs as [|x xs IH]; intros Hbody acc acc' y; simpl.
  - intros [= <-]. by left.
  - destruct (body x acc) as [acc1|] eqn:Hb; simpl; [|done]. intros Hrest Hy.
    destruct (IH (fun x0 a a' y0 Hx => Hbody x0 a a' y0 (or_intror Hx)) _ _ _ Hrest Hy)
      as [Hin|(x' & Hx' & HP)].
    + destruct (Hbody x acc acc1 y (or_introl eq_refl) Hb Hin) as [?|?]; [by left|].
      right. exists x. split; [by left|done].
    + right. exists x'. split; [by right|done].
Qed.


(** Where a pair of the third walk on strings comes from. *)
Lemma third_walk_pair_origin sep fs source target script_name cc sf tf :
  plain_tree sep fs = true ->
  scan_source_files_str sep fs source target script_name = Some cc ->
  In (sf, tf) cc ->
  exists r nm,
    In (path_components sep source ++ r, nm)
       (walk_files (os_walk fs not_excluded true (path_components sep source)))
    /\ Forall (fun x => plain sep x = true) r /\ plain sep nm = true
    /\ nm <> script_name /\ source <> EmptyString
    /\ sf = source +:+ rel_string sep source (r ++ [nm])
    /\ tf = target +:+ rel_string sep source (r ++ [nm])
    /\ (os_path_exists_str sep fs tf = false
        \/ exists s t, os_path_getmtime_str sep fs sf = Some s
                       /\ os_path_getmtime_str sep fs tf = Some t
                       /\ float_gt s t = true).
Proof.
  intros Hfs Hscan Hin. unfold scan_source_files_str in Hscan.
  destruct (String.eqb source EmptyString) eqn:Hs.
  { unfold os_walk_str in Hscan. rewrite Hs in Hscan. simpl in Hscan.
    injection Hscan as <-. done. }
  apply String.eqb_neq in Hs.
  rewrite os_walk_str_items, for_each_nested_gen, walk_files_str in Hscan by done.
  set (pcs := path_components sep source) in *.
  set (P := fun (x : string * name) (y : string * string) =>
     exists r nm,
       In (pcs ++ r, nm) (walk_files (os_walk fs not_excluded true pcs))
       /\ Forall (fun x => plain sep x = true) r /\ plain sep nm = true
       /\ nm <> script_name
       /\ y.1 = source +:+ rel_string sep source (r ++ [nm])
       /\ y.2 = target +:+ rel_string sep source (r ++ [nm])
       /\ (os_path_exists_str sep fs y.2 = false
           \/ exists s t, os_path_getmtime_str sep fs y.1 = Some s
                          /\ os_path_getmtime_str sep fs y.2 = Some t
                          /\ float_gt s t = true)).
  enough (Hstep : forall x acc acc' y,
    In x (map (fun rn : path * name => (str_root sep source pcs rn.1, rn.2))
            (walk_files (os_walk fs not_excluded true pcs))) ->
    source_file_body_str sep fs source target script_name x.1 x.2 acc = Some acc' ->
    In y acc' -> In y acc \/ P x y).
  { destruct (for_each_In _ P _ Hstep _ _ _ Hscan Hin) as [[]|(x & _ & r & nm & H)].
    exists r, nm. simpl in H. destruct H as (? & ? & ? & ? & ? & ? & ?). done. }
  clear Hin. intros x acc acc' y Hx Hbody Hy.
  apply in_map_iff in Hx as ([root nm] & <- & Hx). simpl in Hbody.
  destruct (os_walk_plain sep _ _ _ _ _ Hfs Hx) as (r & -> & Hr & Hnm).
  destruct (third_walk_strings sep source target r nm Hs Hr Hnm) as [Esf Etf].
  fold pcs in Esf, Etf. unfold source_file_body_str in Hbody.
  destruct (String.eqb nm script_name) eqn:Hscript.
  { injection Hbody as <-. by left. }
  apply String.eqb_neq in Hscript. rewrite Etf, Esf in Hbody.
  assert (Hnew : y = (source +:+ rel_string sep source (r ++ [nm]),
                      target +:+ rel_string sep source (r ++ [nm])) ->
            (os_path_exists_str sep fs (target +:+ rel_string sep source (r ++ [nm]))
             = false
             \/ exists s t,
                  os_path_getmtime_str sep fs
                    (source +:+ rel_string sep source (r ++ [nm])) = Some s
                  /\ os_path_getmtime_str sep fs
                       (target +:+ rel_string sep source (r ++ [nm])) = Some t
                  /\ float_gt s t = true) ->
            In y acc \/ P (str_root sep source pcs (pcs ++ r), nm) y).
  { intros -> Htest. right. exists r, nm. simpl. done. }
  destruct (os_path_exists_str sep fs _) eqn:Hex; simpl in Hbody.
  - destruct (os_path_getmtime_str sep fs (source +:+ _)) as [s|] eqn:Hms;
      simpl in Hbody; [|done].
    destruct (os_path_getmtime_str sep fs (target +:+ _)) as [t|] eqn:Hmt;
      simpl in Hbody; [|done].
    destruct (float_gt s t) eqn:Hgt; injection Hbody as <-; [|by left].
    apply in_app_iff in Hy as [?|[<-|[]]]; [by left|].
    apply Hnew; [done|]. right. eauto.
  - injection Hbody as <-. apply in_app_iff in Hy as [?|[<-|[]]]; [by left|].
    apply Hnew; [done|]. by left.
Qed.








(** The source side of a pair of the third walk on strings is a file that
    the walk has reached along kept directories. *)
Lemma third_walk_source_file sep fs source target script_name cc sf tf :
  plain_tree sep fs = true ->
  scan_source_files_str sep fs source target script_name = Some cc ->
  In (sf, tf) cc ->
  exists r nm,
    path_components sep sf = path_components sep source ++ r ++ [nm]
    /\ Forall (fun d => not_excluded d = true) r
    /\ nm <> script_name
    /\ (wf_node fs = true ->
        exists m c, lookup_path fs (path_components sep sf) = Some (File m c)).
Proof.
  intros Hfs Hscan Hin.
  destruct (third_walk_pair_origin _ _ _ _ _ _ _ _ Hfs Hscan Hin)
    as (r & nm & Hx & Hr & Hnm & Hne & Hs & -> & _ & _).
  assert (Hq : Forall (fun d => plain sep d = true) (r ++ [nm]))
    by (apply Forall_app; split; [done|by constructor]).
  exists r, nm. rewrite path_components_rel by done. split; [done|].
  apply in_walk_files in Hx as (dirs & files & Hit & Hname).
  split; [|split; [done|]].
  - unfold os_walk in Hit.
    destruct (lookup_path fs (path_components sep source)); [|done].
    apply walk_topdown_kept in Hit as (r' & Hr' & Hkept).
    by apply app_inv_head in Hr' as <-.
  - intros Hwf.
    destruct (scanned_file_lookup _ _ _ _ _ _ _ _ Hwf Hit Hname) as (m & c & Hl).
    exists m, c. unfold os_path_join in Hl. by rewrite <- app_assoc in Hl.
Qed.

Lemma line_94_pairs sep fs source target script_name cc sf tf :
  plain_tree sep fs = true ->
  scan_source_files_str sep fs source target script_name = Some cc ->
  In (sf, tf) cc ->
  exists x q,
    Forall (fun d => plain sep d = true) (x :: q)
    /\ sf = source +:+ rel_string sep source (x :: q)
    /\ tf = target +:+ rel_string sep source (x :: q).
Proof.
  intros Hfs Hscan Hin.
  destruct (third_walk_pair_origin _ _ _ _ _ _ _ _ Hfs Hscan Hin)
    as (r & nm & _ & Hr & Hnm & _ & Hs & -> & -> & _).
  assert (Hq : Forall (fun d => plain sep d = true) (r ++ [nm]))
    by (apply Forall_app; split; [done|by constructor]).
  destruct (r ++ [nm]) as [|x q'] eqn:Eq; [by destruct r|]. by exists x, q'.
Qed.





(** X1.  The two top-down walks do prune: every overwrite-candidate lies
    below the target root, and the source side of every pair of the third
    walk below the source root, along directories whose names are not in
    [EXCLUDE_DIRS]. *)
Theorem topdown_walks_skip_excluded sep fs source target script_name p cc :
  plain_tree sep fs = true ->
  plan_candidates fs (path_components sep source) (path_components sep target)
                  script_name = Some p ->
  scan_source_files_str sep fs source target script_name = Some cc ->
  (forall x, In x (overwrite_candidates p) ->
     exists r nm, x = path_components sep target ++ r ++ [nm]
                  /\ Forall (fun d => not_excluded d = true) r)
  /\ (forall sf tf, In (sf, tf) cc ->
        exists r nm,
          path_components sep sf = path_components sep source ++ r ++ [nm]
          /\ Forall (fun d => not_excluded d = true) r).
Proof.
  intros Hfs Hp Hscan. split.
  - pose proof (plan_candidates_spec _ _ _ _ _ Hp) as (_ & Ho & _).
    intros x Hx. rewrite Ho in Hx. apply in_map_iff in Hx as ([root nm] & <- & Hx).
    apply filter_In in Hx as [Hx _].
    apply in_walk_files in Hx as (dirs & files & Hit & _).
    unfold os_walk in Hit.
    destruct (lookup_path fs (path_components sep target)); [|done].
    apply walk_topdown_kept in Hit as (r & -> & Hr).
    exists r, nm. unfold entry_path, os_path_join. simpl. by rewrite <- app_assoc.
  - intros sf tf Hin.
    destruct (third_walk_source_file _ _ _ _ _ _ _ _ Hfs Hscan Hin)
      as (r & nm & ? & ? & _). eauto.
Qed.

Lemma topdown_walks_skip_excluded_witness :
  exists r nm,
    path_components posix_sep "s/new/n.txt" = path_components posix_sep "s/" ++ r ++ [nm]
    /\ Forall (fun d => not_excluded d = true) r.
Proof.
  destruct (topdown_walks_skip_excluded posix_sep fs_run "s/" "t" "sync.py" plan_run
              [("s/new/n.txt", "tnew/n.txt")]) as [_ Hcopy].
  - vm_compute. reflexivity.
  - vm_compute. reflexivity.
  - vm_compute. reflexivity.
  - apply (Hcopy "s/new/n.txt" "tnew/n.txt"). left. reflexivity.
Defined.

(** ** The answers of [should_overwrite_file] *)

(** X4.  [should_overwrite_file] raises exactly when one of its two paths is
    missing; otherwise it answers one of ['same'], ['true'] and ['false'];
    and it never answers ['true'] for a pair and for the swapped pair. *)
Theorem should_overwrite_file_answers fs target_file source_file :
  (should_overwrite_file fs target_file source_file = None
   <-> os_path_exists fs target_file = false
       \/ os_path_exists fs source_file = false)
  /\ (forall answer,
        should_overwrite_file fs target_file source_file = Some answer ->
        answer = "same" \/ answer = "true" \/ answer = "false")
  /\ (should_overwrite_file fs target_file source_file = Some "true" ->
      should_overwrite_file fs source_file target_file <> Some "true").
Proof.
  unfold should_overwrite_file, os_path_getmtime, os_path_exists.
  destruct (lookup_path fs target_file) as [nt|], (lookup_path fs source_file) as [ns|];
    simpl.
  - split; [split; [done|by intros [|]]|]. unfold should_overwrite_mtimes, float_gt.
    split.
    + intros answer [= <-]. destruct (PrimFloat.leb _ _); [by left|].
      destruct (PrimFloat.ltb _ _); [by right; left|by right; right].
    + destruct (PrimFloat.leb _ TIME_TOLERANCE); [done|].
      destruct (PrimFloat.ltb (node_mtime ns) (node_mtime nt)) eqn:E; [|done].
      apply float_lt_asym in E. rewrite E. intros _.
      by destruct (PrimFloat.leb _ _).
  - split; [split; [by right|done]|]. split; done.
  - split; [split; [by left|done]|]. split; done.
  - split; [split; [by left|done]|]. split; done.
Qed.

(** ** Where a candidate comes from *)

Lemma delete_candidate_origin fs source target script_name p x :
  plan_candidates fs source target script_name = Some p ->
  In x (delete_candidates p) ->
  (exists root dirs files name,
     In (root, dirs, files) (os_walk fs not_excluded true target)
     /\ In name files /\ name <> script_name /\ x = os_path_join root [name])
  \/ (exists root dirs files name,
        In (root, dirs, files) (os_walk fs not_excluded false target)
        /\ In name dirs /\ x = os_path_join root [name]).
Proof.
  intros Hp Hin. apply plan_candidates_spec in Hp as (Hd & _ & _).
  rewrite Hd, in_app_iff, !in_map_iff in Hin.
  destruct Hin as [([root name] & <- & Hin)|([root name] & <- & Hin)];
    apply filter_In in Hin as [Hin Hsel].
  - left. apply in_walk_files in Hin as (dirs & files & Hit & Hname).
    exists root, dirs, files, name. repeat split; try done.
    unfold selects_delete in Hsel. simpl in Hsel.
    intros ->. by rewrite String.eqb_refl in Hsel.
  - right. apply in_walk_dirs in Hin as (dirs & files & Hit & Hname).
    exists root, dirs, files, name. done.
Qed.

Lemma overwrite_candidate_origin fs source target script_name p x :
  plan_candidates fs source target script_name = Some p ->
  In x (overwrite_candidates p) ->
  exists root dirs files name,
    In (root, dirs, files) (os_walk fs not_excluded true target)
    /\ In name files /\ name <> script_name /\ x = os_path_join root [name]
    /\ selects_overwrite fs source target script_name (root, name) = true.
Proof.
  intros Hp Hin. apply plan_candidates_spec in Hp as (_ & Ho & _).
  rewrite Ho, in_map_iff in Hin. destruct Hin as ([root name] & <- & Hin).
  apply filter_In in Hin as [Hin Hsel].
  apply in_walk_files in Hin as (dirs & files & Hit & Hname).
  exists root, dirs, files, name. repeat split; try done.
  unfold selects_overwrite in Hsel. simpl in Hsel.
  intros ->. by rewrite String.eqb_refl in Hsel.
Qed.

Lemma basename_join root name : os_path_basename (os_path_join root [name]) = name.
Proof. unfold os_path_basename, os_path_join. apply List.last_last. Qed.

Lemma below_join top r name : below top (top ++ r ++ [name]).
Proof. exists (r ++ [name]). split; [by destruct r|done]. Qed.

(** ** No path is planned twice over *)

(** X5.  In a well-formed tree the three lists name different paths: a
    delete-candidate is no overwrite-candidate, and the target of a
    copy-candidate is neither. *)
Theorem candidate_lists_disjoint fs source target script_name p :
  wf_node fs = true ->
  plan_candidates fs source target script_name = Some p ->
  (forall x, In x (delete_candidates p) -> ~ In x (overwrite_candidates p))
  /\ (forall source_file target_file,
        In (source_file, target_file) (copy_candidates p) ->
        ~ In target_file (delete_candidates p)
        /\ ~ In target_file (overwrite_candidates p)).
Proof.
  intros Hwf Hp. split.
  - intros x Hdel Hov.
    destruct (delete_candidate_source_missing _ _ _ _ _ _ Hp Hdel) as [_ Hmiss].
    destruct (overwrite_candidate_origin _ _ _ _ _ _ Hp Hov)
      as (root & dirs & files & name & _ & _ & _ & -> & Hsel).
    unfold selects_overwrite in Hsel.
    apply andb_prop in Hsel as [Hsel _]. apply andb_prop in Hsel as [_ Hex].
    unfold entry_path in Hex. simpl in Hex. congruence.
  - intros sf tf Hin. split.
    + by destruct (copy_target_not_delete _ _ _ _ _ _ _ Hwf Hp Hin).
    + by apply (copy_target_not_overwrite _ _ _ _ _ _ _ Hp Hin).
Qed.

Lemma candidate_lists_disjoint_witness :
  ~ In ["t"; "new"; "n.txt"] (delete_candidates plan_run)
  /\ ~ In ["t"; "new"; "n.txt"] (overwrite_candidates plan_run).
Proof.
  destruct (candidate_lists_disjoint fs_run ["s"] ["t"] "sync.py" plan_run)
    as [_ Hcopy].
  - vm_compute. reflexivity.
  - vm_compute. reflexivity.
  - apply (Hcopy ["s"; "new"; "n.txt"]). simpl. left. reflexivity.
Defined.

(** ** Candidates are entries of the tree *)

(** X6.  In a well-formed tree of plain names the planner lists only what is
    there: a delete-candidate exists strictly below the target root; an
    overwrite-candidate is a file strictly below the target root whose
    source-side path exists; the source side of every pair of the third walk
    is a file strictly below the source root. *)
Theorem candidates_exist sep fs source target script_name p cc :
  wf_node fs = true ->
  plain_tree sep fs = true ->
  plan_candidates fs (path_components sep source) (path_components sep target)
                  script_name = Some p ->
  scan_source_files_str sep fs source target script_name = Some cc ->
  (forall x, In x (delete_candidates p) ->
     os_path_exists fs x = true /\ below (path_components sep target) x)
  /\ (forall x, In x (overwrite_candidates p) ->
        (exists m c, lookup_path fs x = Some (File m c))
        /\ os_path_exists fs
             (source_side (path_components sep source) (path_components sep target) x)
           = true
        /\ below (path_components sep target) x)
  /\ (forall sf tf, In (sf, tf) cc ->
        (exists m c, lookup_path fs (path_components sep sf) = Some (File m c))
        /\ below (path_components sep source) (path_components sep sf)).
Proof.
  intros Hwf Hfs Hp Hscan. split; [|split].
  - intros x Hin.
    destruct (delete_candidate_source_missing _ _ _ _ _ _ Hp Hin)
      as [(r & name & Hx) _].
    split; [|rewrite Hx; apply below_join].
    unfold os_path_exists.
    destruct (delete_candidate_origin _ _ _ _ _ _ Hp Hin)
      as [(root & dirs & files & name' & Hit & Hname & _ & ->)
         |(root & dirs & files & name' & Hit & Hname & ->)].
    + destruct (scanned_file_lookup _ _ _ _ _ _ _ _ Hwf Hit Hname) as (m & c & ->).
      done.
    + destruct (scanned_dir_lookup _ _ _ _ _ _ _ _ Hwf Hit Hname) as (m & es & ->).
      done.
  - intros x Hin.
    destruct (overwrite_candidate_origin _ _ _ _ _ _ Hp Hin)
      as (root & dirs & files & name & Hit & Hname & _ & -> & Hsel).
    split; [by eapply scanned_file_lookup|]. split.
    + unfold selects_overwrite in Hsel.
      apply andb_prop in Hsel as [Hsel _]. by apply andb_prop in Hsel as [_ Hex].
    + destruct (os_walk_root _ _ _ _ _ _ _ Hit) as [r ->].
      unfold os_path_join. rewrite <- app_assoc. apply below_join.
  - intros sf tf Hin.
    destruct (third_walk_source_file _ _ _ _ _ _ _ _ Hfs Hscan Hin)
      as (r & nm & Hsf & _ & _ & Hl).
    split; [by apply Hl|]. rewrite Hsf. apply below_join.
Qed.

Lemma candidates_exist_witness :
  (exists m c, lookup_path fs_run (path_components posix_sep "s/new/n.txt")
               = Some (File m c))
  /\ below (path_components posix_sep "s/") (path_components posix_sep "s/new/n.txt").
Proof.
  destruct (candidates_exist posix_sep fs_run "s/" "t" "sync.py" plan_run
              [("s/new/n.txt", "tnew/n.txt")]) as (_ & _ & Hcopy).
  - vm_compute. reflexivity.
  - vm_compute. reflexivity.
  - vm_compute. reflexivity.
  - vm_compute. reflexivity.
  - apply (Hcopy "s/new/n.txt" "tnew/n.txt"). left. reflexivity.
Defined.

(** ** Names the planner leaves alone *)

(** X7.  The script's own file is never planned for: in a well-formed tree
    of plain names no overwrite-candidate bears the script's name, no pair of
    the third walk has a source file of that name, and a delete-candidate
    that bears it is a directory. *)
Theorem script_file_never_planned sep fs source target script_name p cc :
  wf_node fs = true ->
  plain_tree sep fs = true ->
  plan_candidates fs (path_components sep source) (path_components sep target)
                  script_name = Some p ->
  scan_source_files_str sep fs source target script_name = Some cc ->
  (forall x, In x (overwrite_candidates p) -> os_path_basename x <> script_name)
  /\ (forall sf tf, In (sf, tf) cc ->
        os_path_basename (path_components sep sf) <> script_name)
  /\ (forall x, In x (delete_candidates p) ->
        os_path_basename x = script_name -> os_path_isdir fs x = true).
Proof.
  intros Hwf Hfs Hp Hscan. split; [|split].
  - intros x Hin.
    destruct (overwrite_candidate_origin _ _ _ _ _ _ Hp Hin)
      as (root & dirs & files & name & _ & _ & Hne & -> & _).
    by rewrite basename_join.
  - intros sf tf Hin.
    destruct (third_walk_source_file _ _ _ _ _ _ _ _ Hfs Hscan Hin)
      as (r & nm & -> & _ & Hne & _).
    rewrite !app_assoc. by rewrite basename_join.
  - intros x Hin Hbase.
    destruct (delete_candidate_origin _ _ _ _ _ _ Hp Hin)
      as [(root & dirs & files & name & _ & _ & Hne & ->)
         |(root & dirs & files & name & Hit & Hname & ->)].
    + by rewrite basename_join in Hbase.
    + destruct (scanned_dir_lookup _ _ _ _ _ _ _ _ Hwf Hit Hname) as (m & es & Hl).
      unfold os_path_isdir. by rewrite Hl.
Qed.

Lemma script_file_never_planned_witness :
  path_components posix_sep "s/new/n.txt" = ["s"; "new"; "n.txt"]
  /\ os_path_basename (path_components posix_sep "s/new/n.txt") <> "sync.py".
Proof.
  split; [vm_compute; reflexivity|].
  destruct (script_file_never_planned posix_sep fs_run "s/" "t" "sync.py" plan_run
              [("s/new/n.txt", "tnew/n.txt")]) as (_ & Hcopy & _).
  - vm_compute. reflexivity.
  - vm_compute. reflexivity.
  - vm_compute. reflexivity.
  - vm_compute. reflexivity.
  - apply (Hcopy "s/new/n.txt" "tnew/n.txt"). left. reflexivity.
Defined.

(** X8.  What the filter on [EXCLUDE_DIRS] does protect.  In a well-formed
    tree a delete-candidate that is a directory has a name that is not
    excluded, and a delete-candidate that is a file lies below the target
    root along directories whose names are not excluded: no file inside an
    excluded directory is listed by itself. *)
Theorem exclusion_protects fs source target script_name p x :
  wf_node fs = true ->
  plan_candidates fs source target script_name = Some p ->
  In x (delete_candidates p) ->
  (os_path_isdir fs x = true -> not_excluded (os_path_basename x) = true)
  /\ (os_path_isdir fs x = false ->
      exists r name, x = target ++ r ++ [name]
                     /\ Forall (fun d => not_excluded d = true) r).
Proof.
  intros Hwf Hp Hin.
  destruct (delete_candidate_origin _ _ _ _ _ _ Hp Hin)
    as [(root & dirs & files & name & Hit & Hname & _ & ->)
       |(root & dirs & files & name & Hit & Hname & ->)].
  - destruct (scanned_file_lookup _ _ _ _ _ _ _ _ Hwf Hit Hname) as (m & c & Hl).
    unfold os_path_isdir. rewrite Hl. split; [done|]. intros _.
    unfold os_walk in Hit. destruct (lookup_path fs target); [|done].
    apply walk_topdown_kept in Hit as (r & -> & Hr). exists r, name.
    unfold os_path_join. by rewrite <- app_assoc.
  - destruct (scanned_dir_lookup _ _ _ _ _ _ _ _ Hwf Hit Hname) as (m & es & Hl).
    unfold os_path_isdir. rewrite Hl. split; [|done]. intros _.
    rewrite basename_join.
    destruct (os_walk_lookup _ _ _ _ _ _ _ Hwf Hit) as (m' & es' & _ & _ & -> & _).
    by apply filter_In in Hname as [_ ?].
Qed.

Lemma exclusion_protects_witness :
  (os_path_isdir fs_run ["t"; "old"] = true ->
   not_excluded (os_path_basename ["t"; "old"]) = true)
  /\ (os_path_isdir fs_run ["t"; "old"] = false ->
      exists r name, ["t"; "old"] = ["t"] ++ r ++ [name]
                     /\ Forall (fun d => not_excluded d = true) r).
Proof.
  apply (exclusion_protects fs_run ["s"] ["t"] "sync.py" plan_run).
  - vm_compute. reflexivity.
  - vm_compute. reflexivity.
  - simpl. right. right. left. reflexivity.
Defined.

(** ** The walks miss nothing *)

(** The top-down walk yields the listing of every directory that is reached
    from the top along kept names. *)
Lemma walk_topdown_reach keep : forall r n top m es,
  lookup_path n r = Some (Dir m es) ->
  Forall (fun d => keep d = true) r ->
  In (top ++ r, List.filter keep (dir_names es), file_names es)
     (walk_topdown keep top n).
Proof.
  induction r as [|c r IH]; intros n top m es; simpl.
  - intros [= ->] _. simpl. rewrite app_nil_r. by left.
  - destruct n as [|m0 es0]; [done|].
    destruct (find_entry c es0) as [n'|] eqn:E; [|done]. intros Hl Hkeep.
    apply Forall_cons in Hkeep as [Hc Hr].
    pose proof (IH n' (top ++ [c]) m es Hl Hr) as Hin. rewrite <- app_assoc in Hin.
    simpl. right. apply in_flat_map. exists (c, n').
    split; [by apply find_entry_In|]. simpl. rewrite Hc.
    destruct n' as [|m' es']; [by destruct r|done].
Qed.

Lemma scanned_file_reach fs top r name m c :
  lookup_path fs (top ++ r ++ [name]) = Some (File m c) ->
  Forall (fun d => not_excluded d = true) r ->
  In (top ++ r, name) (walk_files (os_walk fs not_excluded true top)).
Proof.
  intros Hl Hr. rewrite lookup_path_app in Hl. unfold os_walk.
  destruct (lookup_path fs top) as [n|]; [|done]. simpl in Hl.
  apply lookup_path_snoc in Hl as (m0 & es0 & Hl & Hfind).
  apply in_walk_files.
  exists (List.filter not_excluded (dir_names es0)), (file_names es0). split.
  - by apply (walk_topdown_reach _ _ _ _ m0).
  - apply in_file_names. exists m, c. by apply find_entry_In.
Qed.

(** What it takes to be listed: a file below the target root with nothing
    at the same place below the source root, a directory likewise, a file
    below the source root with nothing at the same place below the target
    root. *)
Lemma target_file_delete_intro fs source target script_name p r name m c :
  plan_candidates fs source target script_name = Some p ->
  lookup_path fs (target ++ r ++ [name]) = Some (File m c) ->
  Forall (fun d => not_excluded d = true) r ->
  name <> script_name ->
  os_path_exists fs (source ++ r ++ [name]) = false ->
  In (target ++ r ++ [name]) (delete_candidates p).
Proof.
  intros Hp Hl Hr Hne Hmiss.
  pose proof (scanned_file_reach _ _ _ _ _ _ Hl Hr) as Hscan.
  apply plan_candidates_spec in Hp as (Hd & _ & _).
  rewrite Hd, in_app_iff. left. rewrite app_assoc.
  change ((target ++ r) ++ [name]) with (entry_path (target ++ r, name)).
  apply in_map_entry_path. split; [done|].
  unfold selects_delete, should_delete_file.
  fold (source_side source target (entry_path (target ++ r, name))).
  unfold entry_path, os_path_join. simpl.
  rewrite <- app_assoc, source_side_under by (by destruct r).
  apply String.eqb_neq in Hne. by rewrite Hne, Hmiss.
Qed.

Lemma target_dir_delete_intro fs source target script_name p r name m es :
  plan_candidates fs source target script_name = Some p ->
  lookup_path fs (target ++ r ++ [name]) = Some (Dir m es) ->
  not_excluded name = true ->
  os_path_exists fs (source ++ r ++ [name]) = false ->
  In (target ++ r ++ [name]) (delete_candidates p).
Proof.
  intros Hp Hl Hkeep Hmiss. apply plan_candidates_spec in Hp as (Hd & _ & _).
  rewrite Hd, in_app_iff. right. rewrite app_assoc.
  change ((target ++ r) ++ [name]) with (entry_path (target ++ r, name)).
  apply in_map_entry_path. split.
  - apply in_walk_dirs. rewrite lookup_path_app in Hl.
    destruct (lookup_path fs target) as [n|] eqn:Htop; [|done]. simpl in Hl.
    apply lookup_path_snoc in Hl as (m0 & es0 & Hr & Hfind).
    exists (List.filter not_excluded (dir_names es0)), (file_names es0). split.
    + unfold os_walk. rewrite Htop. by apply (walk_bottomup_reach _ _ _ _ m0).
    + apply filter_In. split; [|done]. apply in_dir_names.
      exists m, es. by apply find_entry_In.
  - unfold selects_dir_delete, entry_path, os_path_join. simpl.
    rewrite <- app_assoc, source_side_under by (by destruct r). by rewrite Hmiss.
Qed.


(** X9.  The first walk classifies every file of the target tree: a file
    below the target root, reached along directories whose names are not
    excluded and not named as the script, is a delete-candidate exactly when
    the same relative path is missing below the source root, and an
    overwrite-candidate exactly when that path exists there and
    [should_overwrite_file] answers ['true'] for the two modification
    times. *)
Theorem target_file_classified fs source target script_name p r name m c :
  plan_candidates fs source target script_name = Some p ->
  lookup_path fs (target ++ r ++ [name]) = Some (File m c) ->
  Forall (fun d => not_excluded d = true) r ->
  name <> script_name ->
  (In (target ++ r ++ [name]) (delete_candidates p)
   <-> os_path_exists fs (source ++ r ++ [name]) = false)
  /\ (In (target ++ r ++ [name]) (overwrite_candidates p)
      <-> exists s, os_path_getmtime fs (source ++ r ++ [name]) = Some s
                    /\ should_overwrite_mtimes m s = "true").
Proof.
  intros Hp Hl Hr Hne.
  pose proof (scanned_file_reach _ _ _ _ _ _ Hl Hr) as Hscan.
  assert (Hside : source_side source target (target ++ r ++ [name])
                  = source ++ r ++ [name]).
  { apply source_side_under. by destruct r. }
  assert (Hentry : entry_path (target ++ r, name) = target ++ r ++ [name]).
  { unfold entry_path, os_path_join. simpl. by rewrite <- app_assoc. }
  apply String.eqb_neq in Hne. split.
  - split.
    + intros Hin.
      destruct (delete_candidate_source_missing _ _ _ _ _ _ Hp Hin) as [_ Hmiss].
      by rewrite Hside in Hmiss.
    + apply String.eqb_neq in Hne. by eapply target_file_delete_intro.
  - apply plan_candidates_spec in Hp as (_ & Ho & _).
    rewrite Ho, <- Hentry, in_map_entry_path.
    unfold selects_overwrite, should_delete_file, should_overwrite_file.
    fold (source_side source target (entry_path (target ++ r, name))).
    rewrite Hentry, Hside. simpl. rewrite Hne. simpl.
    unfold os_path_exists, os_path_getmtime. rewrite Hl. simpl.
    destruct (lookup_path fs (source ++ r ++ [name])) as [ns|]; simpl.
    + split.
      * intros [_ H%String.eqb_eq]. eauto.
      * intros (s & [= <-] & H). split; [done|]. by apply String.eqb_eq.
    + split; [by intros [_ ?]|by intros (s & ? & _)].
Qed.

Lemma target_file_classified_witness :
  In ["t"; "old"; "x.txt"] (delete_candidates plan_run)
  <-> os_path_exists fs_run ["s"; "old"; "x.txt"] = false.
Proof.
  refine (proj1 (target_file_classified fs_run ["s"] ["t"] "sync.py" plan_run
                   ["old"] "x.txt" 100%float "x" _ _ _ _)).
  - vm_compute. reflexivity.
  - vm_compute. reflexivity.
  - repeat constructor.
  - discriminate.
Defined.




(** X11.  The second walk tests every directory of the target tree whose own
    name is not excluded, at any depth and whatever the names above it: it
    is a delete-candidate exactly when the same relative path is missing
    below the source root. *)
Theorem target_directory_classified fs source target script_name p r name m es :
  plan_candidates fs source target script_name = Some p ->
  lookup_path fs (target ++ r ++ [name]) = Some (Dir m es) ->
  not_excluded name = true ->
  (In (target ++ r ++ [name]) (delete_candidates p)
   <-> os_path_exists fs (source ++ r ++ [name]) = false).
Proof.
  intros Hp Hl Hkeep.
  assert (Hside : source_side source target (target ++ r ++ [name])
                  = source ++ r ++ [name]).
  { apply source_side_under. by destruct r. }
  split.
  - intros Hin.
    destruct (delete_candidate_source_missing _ _ _ _ _ _ Hp Hin) as [_ Hmiss].
    by rewrite Hside in Hmiss.
  - by eapply target_dir_delete_intro.
Qed.

Lemma target_directory_classified_witness :
  In ["t"; "System Volume Information"; "sub"]
     (delete_candidates (Plan [["t"; "System Volume Information"; "sub"]] [] []))
  <-> os_path_exists fs_excluded ["s"; "System Volume Information"; "sub"] = false.
Proof.
  apply (target_directory_classified fs_excluded ["s"] ["t"] "sync.py"
           (Plan [["t"; "System Volume Information"; "sub"]] [] [])
           ["System Volume Information"] "sub" 60%float
           [("f.txt", File 70%float "f")]).
  - vm_compute. reflexivity.
  - vm_compute. reflexivity.
  - vm_compute. reflexivity.
Defined.

(** ** Mirrored trees *)




Section MirroredRun.
Variable world : Type.
Variable view : world -> node.
Variable os_call : call -> world -> world * outcome unit.


End MirroredRun.


(** ** Every candidate is listed once *)

Lemma no_dup_names_NoDup l : no_dup_names l = true -> NoDup l.
Proof.
  induction l as [|x l IH]; simpl; [constructor|].
  intros [Hx Hl]%andb_prop. constructor; [|by apply IH].
  rewrite list_elem_of_In, <- name_in_In. by destruct (name_in x l).
Qed.

Lemma NoDup_map_inj_in {A B} (f : A -> B) l :
  (forall x y, In x l -> In y l -> f x = f y -> x = y) ->
  NoDup l -> NoDup (map f l).
Proof.
  induction l as [|x l IH]; simpl; intros Hinj; [constructor|].
  intros [Hx Hl]%NoDup_cons. constructor.
  - rewrite list_elem_of_In, in_map_iff. intros (y & Heq & Hy).
    apply Hx. rewrite list_elem_of_In.
    rewrite (Hinj x y); [done|by left|by right|done].
  - apply IH; [|done]. intros a b Ha Hb. apply Hinj; by right.
Qed.

Lemma NoDup_list_filter {A} (sel : A -> bool) l :
  NoDup l -> NoDup (List.filter sel l).
Proof. rewrite !NoDup_ListNoDup. apply List.NoDup_filter. Qed.

Lemma NoDup_file_names es : NoDup (map fst es) -> NoDup (file_names es).
Proof.
  induction es as [|[d n] es IH]; simpl; [done|].
  intros [Hd Hes]%NoDup_cons. destruct (is_dir n); [by apply IH|].
  constructor; [|by apply IH]. intros Hin. apply Hd.
  apply list_elem_of_In in Hin. apply in_file_names in Hin as (m & c & Hin).
  apply list_elem_of_In, in_map_iff. by exists (d, File m c).
Qed.

Lemma NoDup_dir_names es : NoDup (map fst es) -> NoDup (dir_names es).
Proof.
  induction es as [|[d n] es IH]; simpl; [done|].
  intros [Hd Hes]%NoDup_cons. destruct (is_dir n); [|by apply IH].
  constructor; [|by apply IH]. intros Hin. apply Hd.
  apply list_elem_of_In in Hin. apply in_dir_names in Hin as (m & es' & Hin).
  apply list_elem_of_In, in_map_iff. by exists (d, Dir m es').
Qed.

(** Lists of paths below different entries of one directory have nothing in
    common. *)
Lemma NoDup_flat_map_entries (top : path) (f : name * node -> list path) es :
  NoDup (map fst es) ->
  (forall e, In e es -> NoDup (f e)) ->
  (forall e x, In e es -> In x (f e) -> exists r, x = top ++ [e.1] ++ r) ->
  NoDup (flat_map f es).
Proof.
  induction es as [|e es IH]; simpl; [constructor|].
  intros [He Hes]%NoDup_cons Hnd Hroot. apply NoDup_app. split; [|split].
  - apply Hnd. by left.
  - intros x Hx%list_elem_of_In Hx'%list_elem_of_In.
    apply in_flat_map in Hx' as (e' & He' & Hx').
    destruct (Hroot e x) as [r Hr]; [by left|done|].
    destruct (Hroot e' x) as [r' Hr']; [by right|done|].
    rewrite Hr in Hr'. apply app_inv_head in Hr'. injection Hr' as Hname _.
    apply He. rewrite Hname. apply list_elem_of_In, in_map. done.
  - apply IH; [done| |].
    + intros e' He'. apply Hnd. by right.
    + intros e' x He'. apply Hroot. by right.
Qed.

Lemma longer_path_differs (top r : path) : r <> [] -> top ++ r <> top.
Proof.
  intros Hr Heq. apply (f_equal length) in Heq. rewrite length_app in Heq.
  destruct r; simpl in *; [done|lia].
Qed.

(** No directory is yielded twice by a walk of a well-formed tree. *)
Lemma walk_topdown_roots_NoDup keep n : forall top,
  wf_node n = true ->
  NoDup (map (fun it : walk_item => it.1.1) (walk_topdown keep top n)).
Proof.
  induction n as [m c|m es IH] using node_ind; intros top Hwf; [constructor|].
  simpl. rewrite map_flat_map_comm.
  assert (Hsub : forall e x, In e es ->
    In x (map (fun it : walk_item => it.1.1)
            (if is_dir e.2 && keep e.1
             then walk_topdown keep (top ++ [e.1]) e.2 else [])) ->
    exists r, x = top ++ [e.1] ++ r).
  { intros e x He Hx. destruct (is_dir e.2 && keep e.1); [|done].
    apply in_map_iff in Hx as ([[root dirs] files] & <- & Hit).
    apply walk_topdown_root in Hit as [r ->]. exists r. by rewrite <- app_assoc. }
  constructor.
  - rewrite list_elem_of_In, in_flat_map. intros (e & He & Hx).
    destruct (Hsub e top He Hx) as [r Hr]. symmetry in Hr.
    by apply longer_path_differs in Hr.
  - simpl in Hwf. apply andb_prop in Hwf as [Hnames Hall].
    apply (NoDup_flat_map_entries top); [by apply no_dup_names_NoDup| |done].
    intros e He. destruct (is_dir e.2 && keep e.1); [|constructor].
    rewrite List.Forall_forall in IH. apply (IH e He).
    rewrite forallb_forall in Hall. by apply Hall.
Qed.

Lemma walk_bottomup_roots_NoDup keep n : forall top,
  wf_node n = true ->
  NoDup (map (fun it : walk_item => it.1.1) (walk_bottomup keep top n)).
Proof.
  induction n as [m c|m es IH] using node_ind; intros top Hwf; [constructor|].
  simpl. rewrite map_app, map_flat_map_comm. simpl.
  assert (Hsub : forall e x, In e es ->
    In x (map (fun it : walk_item => it.1.1)
            (if is_dir e.2 then walk_bottomup keep (top ++ [e.1]) e.2 else [])) ->
    exists r, x = top ++ [e.1] ++ r).
  { intros e x He Hx. destruct (is_dir e.2); [|done].
    apply in_map_iff in Hx as ([[root dirs] files] & <- & Hit).
    apply walk_bottomup_root in Hit as [r ->]. exists r. by rewrite <- app_assoc. }
  apply NoDup_app. split; [|split].
  - simpl in Hwf. apply andb_prop in Hwf as [Hnames Hall].
    apply (NoDup_flat_map_entries top); [by apply no_dup_names_NoDup| |done].
    intros e He. destruct (is_dir e.2); [|constructor].
    rewrite List.Forall_forall in IH. apply (IH e He).
    rewrite forallb_forall in Hall. by apply Hall.
  - intros x Hx%list_elem_of_In Htop%list_elem_of_In.
    destruct Htop as [<-|[]]. apply in_flat_map in Hx as (e & He & Hx).
    destruct (Hsub e top He Hx) as [r Hr]. symmetry in Hr.
    by apply longer_path_differs in Hr.
  - apply NoDup_singleton.
Qed.

Lemma os_walk_roots_NoDup fs keep topdown top :
  wf_node fs = true ->
  NoDup (map (fun it : walk_item => it.1.1) (os_walk fs keep topdown top)).
Proof.
  intros Hwf. unfold os_walk. destruct (lookup_path fs top) as [n|] eqn:E; [|constructor].
  pose proof (wf_node_lookup _ _ _ Hwf E).
  destruct topdown; [by apply walk_topdown_roots_NoDup|by apply walk_bottomup_roots_NoDup].
Qed.

(** Hence no entry is gone through twice by the nested loops. *)
Lemma nested_loop_NoDup (pick : walk_item -> list name) items :
  NoDup (map (fun it : walk_item => it.1.1) items) ->
  (forall it, In it items -> NoDup (pick it)) ->
  NoDup (flat_map (fun it : walk_item => map (pair it.1.1) (pick it)) items).
Proof.
  induction items as [|it items IH]; simpl; [constructor|].
  intros [Hit Hitems]%NoDup_cons Hpick. apply NoDup_app. split; [|split].
  - apply NoDup_map_inj_in; [by intros x y _ _ [= ->]|]. apply Hpick. by left.
  - intros [root name] Hx%list_elem_of_In Hx'%list_elem_of_In.
    apply in_map_iff in Hx as (name' & [= <- <-] & _).
    apply in_flat_map in Hx' as (it' & Hit' & Hx').
    apply in_map_iff in Hx' as (name2 & [= Heq _] & _).
    apply Hit. rewrite <- Heq. apply list_elem_of_In, in_map_iff. by exists it'.
  - apply IH; [done|]. intros it' Hit'. apply Hpick. by right.
Qed.

Lemma walk_files_NoDup fs keep topdown top :
  wf_node fs = true -> NoDup (walk_files (os_walk fs keep topdown top)).
Proof.
  intros Hwf. apply (nested_loop_NoDup (fun it => it.2)).
  - by apply os_walk_roots_NoDup.
  - intros [[root dirs] files] Hit.
    destruct (os_walk_lookup _ _ _ _ _ _ _ Hwf Hit) as (m & es & _ & Hnd & _ & ->).
    simpl. by apply NoDup_file_names, no_dup_names_NoDup.
Qed.

Lemma walk_dirs_NoDup fs keep topdown top :
  wf_node fs = true -> NoDup (walk_dirs (os_walk fs keep topdown top)).
Proof.
  intros Hwf. apply (nested_loop_NoDup (fun it => it.1.2)).
  - by apply os_walk_roots_NoDup.
  - intros [[root dirs] files] Hit.
    destruct (os_walk_lookup _ _ _ _ _ _ _ Hwf Hit) as (m & es & _ & Hnd & -> & _).
    simpl. by apply NoDup_list_filter, NoDup_dir_names, no_dup_names_NoDup.
Qed.

Lemma NoDup_entry_paths (sel : path * name -> bool) l :
  NoDup l -> NoDup (map entry_path (List.filter sel l)).
Proof.
  intros Hl. apply NoDup_map_inj_in; [|by apply NoDup_list_filter].
  intros x y _ _. apply entry_path_inj.
Qed.

Lemma delete_candidates_NoDup fs source target script_name p :
  wf_node fs = true ->
  plan_candidates fs source target script_name = Some p ->
  NoDup (delete_candidates p).
Proof.
  intros Hwf Hp. pose proof (plan_candidates_spec _ _ _ _ _ Hp) as (Hd & _ & _).
  rewrite Hd. apply NoDup_app. split; [|split].
  - by apply NoDup_entry_paths, walk_files_NoDup.
  - intros x Hx%list_elem_of_In Hx'%list_elem_of_In.
    apply in_map_iff in Hx as ([root name] & <- & Hx).
    apply filter_In in Hx as [(dirs & files & Hit & Hname)%in_walk_files _].
    apply in_map_iff in Hx' as ([root' name'] & Heq & Hx').
    apply filter_In in Hx' as [(dirs' & files' & Hit' & Hname')%in_walk_dirs _].
    destruct (scanned_file_lookup _ _ _ _ _ _ _ _ Hwf Hit Hname) as (m & c & Hl).
    destruct (scanned_dir_lookup _ _ _ _ _ _ _ _ Hwf Hit' Hname') as (m' & es' & Hl').
    unfold entry_path in Heq. simpl in Heq. congruence.
  - by apply NoDup_entry_paths, walk_dirs_NoDup.
Qed.

(** X13.  In a well-formed tree no path is listed twice: each of the three
    lists is free of duplicates, and so are the targets of the
    copy-candidates. *)
Theorem candidates_listed_once fs source target script_name p :
  wf_node fs = true ->
  plan_candidates fs source target script_name = Some p ->
  NoDup (delete_candidates p)
  /\ NoDup (overwrite_candidates p)
  /\ NoDup (map fst (copy_candidates p))
  /\ NoDup (map snd (copy_candidates p)).
Proof.
  intros Hwf Hp. pose proof (plan_candidates_spec _ _ _ _ _ Hp) as (Hd & Ho & Hc).
  split; [|split; [|split]].
  - by apply (delete_candidates_NoDup fs source target script_name).
  - rewrite Ho. by apply NoDup_entry_paths, walk_files_NoDup.
  - rewrite Hc, map_map. simpl. by apply NoDup_entry_paths, walk_files_NoDup.
  - rewrite Hc, map_map. simpl.
    apply NoDup_map_inj_in; [|by apply NoDup_list_filter, walk_files_NoDup].
    intros [root name] [root' name'] Hx Hy.
    apply filter_In in Hx as [(dirs & files & Hit & _)%in_walk_files _].
    apply filter_In in Hy as [(dirs' & files' & Hit' & _)%in_walk_files _].
    apply os_walk_root in Hit as [r ->]. apply os_walk_root in Hit' as [r' ->].
    unfold entry_path, os_path_join. simpl.
    rewrite <- !app_assoc, !str_replace_first_prefix. intros Heq.
    apply app_inv_head in Heq. by apply app_inj_tail in Heq as [-> ->].
Qed.

Lemma candidates_listed_once_witness :
  NoDup (delete_candidates plan_run)
  /\ NoDup (overwrite_candidates plan_run)
  /\ NoDup (map fst (copy_candidates plan_run))
  /\ NoDup (map snd (copy_candidates plan_run)).
Proof.
  apply (candidates_listed_once fs_run ["s"] ["t"] "sync.py" plan_run).
  - vm_compute. reflexivity.
  - vm_compute. reflexivity.
Defined.

(** ** A side that is missing *)

Lemma missing_below fs top r q :
  os_path_exists fs (top ++ r) = false -> os_path_exists fs (top ++ r ++ q) = false.
Proof.
  unfold os_path_exists. rewrite (app_assoc top r q), (lookup_path_app fs (top ++ r) q).
  by destruct (lookup_path fs (top ++ r)).
Qed.

Lemma listed_target_exists fs source target script_name p x :
  wf_node fs = true ->
  plan_candidates fs source target script_name = Some p ->
  In x (delete_candidates p) \/ In x (overwrite_candidates p) ->
  os_path_exists fs x = true /\ exists q name, x = target ++ q ++ [name].
Proof.
  intros Hwf Hp [Hin|Hin].
  - destruct (delete_candidate_source_missing _ _ _ _ _ _ Hp Hin) as [Hx _].
    split; [|done]. unfold os_path_exists.
    destruct (delete_candidate_origin _ _ _ _ _ _ Hp Hin)
      as [(root & dirs & files & name' & Hit & Hname & _ & ->)
         |(root & dirs & files & name' & Hit & Hname & ->)].
    + destruct (scanned_file_lookup _ _ _ _ _ _ _ _ Hwf Hit Hname) as (m & c & ->).
      done.
    + destruct (scanned_dir_lookup _ _ _ _ _ _ _ _ Hwf Hit Hname) as (m & es & ->).
      done.
  - destruct (overwrite_candidate_origin _ _ _ _ _ _ Hp Hin)
      as (root & dirs & files & name & Hit & Hname & _ & -> & _).
    split.
    + unfold os_path_exists.
      by destruct (scanned_file_lookup _ _ _ _ _ _ _ _ Hwf Hit Hname) as (m & c & ->).
    + destruct (os_walk_root _ _ _ _ _ _ _ Hit) as [q ->]. exists q, name.
      unfold os_path_join. by rewrite <- app_assoc.
Qed.

(** X14.  Where the source side is missing, everything goes: if the path [r]
    does not exist below the source root (the source root itself, for the
    empty [r]), then every file below [r] in the target tree that the first
    walk reaches, and every directory below it whose name is not excluded, is
    a delete-candidate, each listed by itself; and in a well-formed tree
    nothing below [r] is an overwrite-candidate or the source of a
    copy-candidate. *)
Theorem missing_source_side fs source target script_name p r :
  plan_candidates fs source target script_name = Some p ->
  os_path_exists fs (source ++ r) = false ->
  (forall q name m c,
     lookup_path fs (target ++ r ++ q ++ [name]) = Some (File m c) ->
     Forall (fun d => not_excluded d = true) (r ++ q) ->
     name <> script_name ->
     In (target ++ r ++ q ++ [name]) (delete_candidates p))
  /\ (forall q name m es,
        lookup_path fs (target ++ r ++ q ++ [name]) = Some (Dir m es) ->
        not_excluded name = true ->
        In (target ++ r ++ q ++ [name]) (delete_candidates p))
  /\ (forall q, ~ In (target ++ r ++ q) (overwrite_candidates p))
  /\ (wf_node fs = true ->
      forall q target_file,
        ~ In (source ++ r ++ q, target_file) (copy_candidates p)).
Proof.
  intros Hp Hmiss. split; [|split; [|split]].
  - intros q name m c Hl Hkeep Hne. rewrite (app_assoc r q) in *.
    eapply target_file_delete_intro; try done.
    rewrite <- app_assoc. by apply missing_below.
  - intros q name m es Hl Hkeep. rewrite (app_assoc r q) in *.
    eapply target_dir_delete_intro; try done.
    rewrite <- app_assoc. by apply missing_below.
  - intros q Hin.
    destruct (overwrite_candidate_origin _ _ _ _ _ _ Hp Hin)
      as (root & dirs & files & name & Hit & _ & _ & Heq & Hsel).
    destruct (os_walk_root _ _ _ _ _ _ _ Hit) as [r0 ->].
    unfold selects_overwrite in Hsel.
    apply andb_prop in Hsel as [Hsel _]. apply andb_prop in Hsel as [_ Hex].
    unfold entry_path in Hex. simpl in Hex. rewrite <- Heq in Hex.
    rewrite source_side_under in Hex.
    + by rewrite (missing_below _ _ _ q Hmiss) in Hex.
    + unfold os_path_join in Heq. rewrite <- app_assoc in Heq.
      apply app_inv_head in Heq. rewrite Heq. by destruct r0.
  - intros Hwf q tf Hin.
    destruct (copy_candidate_paths _ _ _ _ _ _ _ Hp Hin)
      as (root & dirs & files & name & r0 & Hit & Hname & _ & -> & Hsf & _ & _).
    destruct (scanned_file_lookup _ _ _ _ _ _ _ _ Hwf Hit Hname) as (m & c & Hl).
    unfold os_path_join in Hl. rewrite <- app_assoc, <- Hsf in Hl.
    pose proof (missing_below _ _ _ q Hmiss) as Hq.
    unfold os_path_exists in Hq. by rewrite Hl in Hq.
Qed.

Lemma missing_source_side_witness :
  In ["t"; "a"; "b"; "file.txt"] (delete_candidates plan_nested).
Proof.
  refine (proj1 (missing_source_side fs_nested ["s"] ["t"] "sync.py" plan_nested
                   ["a"] _ _) ["b"] "file.txt" 70%float "f" _ _ _).
  - vm_compute. reflexivity.
  - vm_compute. reflexivity.
  - vm_compute. reflexivity.
  - repeat constructor.
  - discriminate.
Defined.



(** ** Contents are never looked at *)

Lemma erase_content_is_dir n : is_dir (erase_content n) = is_dir n.
Proof. by destruct n. Qed.

Lemma erase_content_mtime n : node_mtime (erase_content n) = node_mtime n.
Proof. by destruct n. Qed.

Lemma erase_entries_find c es :
  find_entry c (erase_entries es) = option_map erase_content (find_entry c es).
Proof.
  induction es as [|[d n] es IH]; simpl; [done|]. by destruct (String.eqb c d).
Qed.

Lemma erase_content_lookup p : forall n,
  lookup_path (erase_content n) p = option_map erase_content (lookup_path n p).
Proof.
  induction p as [|c p IH]; intros n; simpl; [done|].
  destruct n as [m ct|m es]; simpl; [done|].
  fold (erase_entries es). rewrite erase_entries_find.
  destruct (find_entry c es) as [n'|]; simpl; [apply IH|done].
Qed.

Lemma erase_content_exists fs p :
  os_path_exists (erase_content fs) p = os_path_exists fs p.
Proof.
  unfold os_path_exists. rewrite erase_content_lookup. by destruct (lookup_path fs p).
Qed.

Lemma erase_content_getmtime fs p :
  os_path_getmtime (erase_content fs) p = os_path_getmtime fs p.
Proof.
  unfold os_path_getmtime. rewrite erase_content_lookup.
  destruct (lookup_path fs p); simpl; [by rewrite erase_content_mtime|done].
Qed.

Lemma erase_entries_dir_names es : dir_names (erase_entries es) = dir_names es.
Proof.
  induction es as [|[d n] es IH]; simpl; [done|].
  rewrite erase_content_is_dir, IH. done.
Qed.

Lemma erase_entries_file_names es : file_names (erase_entries es) = file_names es.
Proof.
  induction es as [|[d n] es IH]; simpl; [done|].
  rewrite erase_content_is_dir, IH. done.
Qed.

Lemma erase_content_walk_topdown keep n : forall top,
  walk_topdown keep top (erase_content n) = walk_topdown keep top n.
Proof.
  induction n as [m c|m es IH] using node_ind; intros top; [done|].
  simpl. fold (erase_entries es).
  rewrite erase_entries_dir_names, erase_entries_file_names. f_equal.
  induction IH as [|[d n] es Hn Hes IHes]; simpl; [done|].
  rewrite erase_content_is_dir, IHes. f_equal.
  destruct (is_dir n && keep d); [apply Hn|done].
Qed.

Lemma erase_content_walk_bottomup keep n : forall top,
  walk_bottomup keep top (erase_content n) = walk_bottomup keep top n.
Proof.
  induction n as [m c|m es IH] using node_ind; intros top; [done|].
  simpl. fold (erase_entries es).
  rewrite erase_entries_dir_names, erase_entries_file_names. f_equal.
  induction IH as [|[d n] es Hn Hes IHes]; simpl; [done|].
  rewrite erase_content_is_dir, IHes. f_equal.
  destruct (is_dir n); [apply Hn|done].
Qed.

Lemma erase_content_os_walk fs keep topdown top :
  os_walk (erase_content fs) keep topdown top = os_walk fs keep topdown top.
Proof.
  unfold os_walk. rewrite erase_content_lookup.
  destruct (lookup_path fs top) as [n|]; simpl; [|done].
  destruct topdown; [apply erase_content_walk_topdown|apply erase_content_walk_bottomup].
Qed.

Lemma for_each_ext {A S} (body body' : A -> S -> option S) xs :
  (forall x s, body x s = body' x s) ->
  forall s, for_each body xs s = for_each body' xs s.
Proof.
  intros Hext. induction xs as [|x xs IH]; intros s; simpl; [done|].
  rewrite Hext. destruct (body' x s); simpl; [apply IH|done].
Qed.

Lemma filter_ext_all {A} (sel sel' : A -> bool) l :
  (forall x, sel x = sel' x) -> List.filter sel l = List.filter sel' l.
Proof.
  intros Hext. induction l as [|x l IH]; simpl; [done|]. by rewrite Hext, IH.
Qed.

Lemma erase_content_plan fs source target script_name :
  plan_candidates (erase_content fs) source target script_name
  = plan_candidates fs source target script_name.
Proof.
  unfold plan_candidates.
  assert (H1 : scan_target_files (erase_content fs) source target script_name
               = scan_target_files fs source target script_name).
  { unfold scan_target_files. rewrite erase_content_os_walk, !for_each_nested.
    apply for_each_ext. intros [root name] st. simpl.
    unfold target_file_body, should_delete_file, should_overwrite_file.
    by rewrite !erase_content_exists, !erase_content_getmtime. }
  assert (H2 : forall dc, scan_target_dirs (erase_content fs) source target dc
                          = scan_target_dirs fs source target dc).
  { intros dc. rewrite !scan_target_dirs_spec, erase_content_os_walk. do 2 f_equal.
    apply filter_ext_all. intros rn. unfold selects_dir_delete.
    by rewrite erase_content_exists. }
  assert (H3 : scan_source_files (erase_content fs) source target script_name
               = scan_source_files fs source target script_name).
  { unfold scan_source_files. rewrite erase_content_os_walk, !for_each_nested.
    apply for_each_ext. intros [root name] cc. simpl.
    unfold source_file_body.
    by rewrite !erase_content_exists, !erase_content_getmtime. }
  rewrite H1, H3. destruct (scan_target_files fs source target script_name)
    as [[dc oc]|]; simpl; [|done].
  by rewrite H2.
Qed.

(** X16.  The planner never reads a file: two file systems with the same
    names, kinds and modification times, whatever the contents of their
    files, get the same three lists.  A file changed without a change of its
    time is not seen. *)
Theorem plan_ignores_contents fs fs' source target script_name :
  erase_content fs = erase_content fs' ->
  plan_candidates fs source target script_name
  = plan_candidates fs' source target script_name.
Proof.
  intros Heq.
  rewrite <- (erase_content_plan fs), <- (erase_content_plan fs'). by rewrite Heq.
Qed.

Lemma plan_ignores_contents_witness :
  plan_candidates fs_mirrored ["s"] ["t"] "sync.py"
  = plan_candidates fs_mirrored_edited ["s"] ["t"] "sync.py".
Proof.
  apply (plan_ignores_contents fs_mirrored fs_mirrored_edited ["s"] ["t"] "sync.py").
  vm_compute. reflexivity.
Defined.

(** * Further properties of a run *)

Section RunOutcomes.
Variable world : Type.
Variable view : world -> node.
Variable os_call : call -> world -> world * outcome unit.
Variables source target : path.

Lemma replays_outcomes (good : outcome unit -> Prop) trace w w' :
  (forall c w0, good (os_call c w0).2) ->
  replays world view os_call trace w w' ->
  forall c r, In (Called c r) trace -> good r.
Proof.
  intros Hgood. revert w. induction trace as [|[q b|c0 r0] trace IH]; intros w; simpl.
  - by intros _ c r [].
  - intros [_ H] c r [[=]|Hin]. by apply (IH w H c r).
  - intros [-> H] c r [[= <- <-]|Hin]; [apply (Hgood c0 w)|]. by apply (IH _ H c r).
Qed.

Lemma all_errors_length ts chunks :
  length (all_errors ts chunks) <= length ts.
Proof.
  revert chunks. unfold all_errors. induction ts as [|t ts IH]; intros [|chunk chunks];
    simpl; try lia.
  rewrite length_app. specialize (IH chunks).
  assert (length (task_errors t chunk) <= 1).
  { unfold task_errors. destruct (failure chunk); simpl; lia. }
  lia.
Qed.

Lemma attempts_all_done ts chunks :
  Forall2 (attempt source target) ts chunks ->
  (forall c r, In (Called c r) (concat chunks) -> r = Done tt) ->
  all_errors ts chunks = [] /\ length (all_progress ts chunks) = length ts.
Proof.
  unfold all_errors, all_progress.
  induction 1 as [|t chunk ts chunks Ha Hall IH]; intros Hdone; simpl; [done|].
  destruct IH as [IH1 IH2].
  { intros c r Hin. apply (Hdone c r). simpl. apply in_app_iff. by right. }
  rewrite IH1, length_app, IH2.
  assert (Hchunk : forall c r, In (Called c r) chunk -> r = Done tt).
  { intros c r Hin. apply (Hdone c r). simpl. apply in_app_iff. by left. }
  assert (task_errors t chunk = [] /\ length (task_progress t chunk) = 1) as [-> ->];
    [|done].
  unfold task_errors, task_progress, failure.
  destruct t as [x|x|sf tf]; simpl in Ha.
  - destruct Ha as (r & [->| ->]); rewrite (Hchunk _ r) by (simpl; auto); done.
  - destruct Ha as (r & ->). rewrite (Hchunk _ r) by (simpl; auto). done.
  - destruct Ha as [(r & ->)|[(r & ->)|(e & ->)]].
    + rewrite (Hchunk _ r) by (simpl; auto). done.
    + rewrite (Hchunk _ r) by (simpl; auto). done.
    + assert (Raised e = Done tt :> outcome unit) as [=].
      apply (Hchunk (Makedirs (os_path_dirname tf))). simpl. auto.
Qed.

Lemma attempts_all_raised ts chunks :
  Forall2 (attempt source target) ts chunks ->
  (forall c r, In (Called c r) (concat chunks) -> exists e, r = Raised e) ->
  length (all_errors ts chunks) = length ts /\ all_progress ts chunks = [].
Proof.
  unfold all_errors, all_progress.
  induction 1 as [|t chunk ts chunks Ha Hall IH]; intros Hbad; simpl; [done|].
  destruct IH as [IH1 IH2].
  { intros c r Hin. apply (Hbad c r). simpl. apply in_app_iff. by right. }
  rewrite IH2, length_app, IH1.
  assert (Hchunk : forall c r, In (Called c r) chunk -> exists e, r = Raised e).
  { intros c r Hin. apply (Hbad c r). simpl. apply in_app_iff. by left. }
  assert (length (task_errors t chunk) = 1 /\ task_progress t chunk = []) as [-> ->];
    [|done].
  unfold task_errors, task_progress, failure.
  destruct t as [x|x|sf tf]; simpl in Ha.
  - destruct Ha as (r & [->| ->]).
    + destruct (Hchunk (Rmtree x) r) as [e ->]; simpl; auto.
    + destruct (Hchunk (Remove x) r) as [e ->]; simpl; auto.
  - destruct Ha as (r & ->).
    destruct (Hchunk (Copy2 (source_side source target x) x) r) as [e ->]; simpl; auto.
  - destruct Ha as [(r & ->)|[(r & ->)|(e & ->)]].
    + destruct (Hchunk (Copy2 sf tf) r) as [e ->]; simpl; auto.
    + destruct (Hchunk (Makedirs (os_path_dirname tf)) (Done tt)) as [e [=]].
      simpl. auto.
    + done.
Qed.

(** X17.  When no file operation raises, the run records no error and
    prints, after the summary and the prompt, one progress line for every
    task, and no report if [error_paths] was empty at the start. *)
Theorem clean_run_reports_nothing p answer st :
  (forall c w, (os_call c w).2 = Done tt) ->
  exists st' progress,
    execute world view os_call source target p answer st = (st', Done tt)
    /\ st_errors st' = st_errors st
    /\ length progress = length (tasks p (confirms answer))
    /\ st_output st'
       = st_output st ++ review_lines p ++ progress ++ report_lines (st_errors st).
Proof.
  intros Hok.
  destruct (execute_spec world view os_call source target p answer st)
    as (chunks & w' & Hall & Hw & Hrun).
  destruct (attempts_all_done _ _ Hall) as [Herr Hprog].
  { apply (replays_outcomes (fun r => r = Done tt) _ _ _ Hok Hw). }
  eexists _, (all_progress (tasks p (confirms answer)) chunks).
  split; [exact Hrun|]. simpl. rewrite Herr, app_nil_r. done.
Qed.

(** X18.  A run adds at most one entry to [error_paths] for every task; when
    every file operation raises it adds exactly one for every task, prints no
    progress line, and still ends normally with its report. *)
Theorem errors_at_most_one_per_task p answer st :
  exists st' new_errors,
    execute world view os_call source target p answer st = (st', Done tt)
    /\ st_errors st' = st_errors st ++ new_errors
    /\ length new_errors <= length (tasks p (confirms answer))
    /\ ((forall c w, exists e, (os_call c w).2 = Raised e) ->
        length new_errors = length (tasks p (confirms answer))
        /\ st_output st'
           = st_output st ++ review_lines p ++ report_lines (st_errors st')).
Proof.
  destruct (execute_spec world view os_call source target p answer st)
    as (chunks & w' & Hall & Hw & Hrun).
  eexists _, (all_errors (tasks p (confirms answer)) chunks).
  split; [exact Hrun|]. simpl. split; [done|]. split; [apply all_errors_length|].
  intros Hbad. destruct (attempts_all_raised _ _ Hall) as [Herr Hprog].
  { apply (replays_outcomes (fun r => exists e, r = Raised e) _ _ _ Hbad Hw). }
  split; [done|]. by rewrite Hprog.
Qed.

Lemma first_char_differs c c' s s' : c <> c' -> String c s <> String c' s'.
Proof. intros Hc [= H _]. done. Qed.

Lemma progress_not_prompt ts chunks line :
  In line (all_progress ts chunks) -> line <> prompt.
Proof.
  unfold all_progress. intros (l & Hl & Hin)%in_concat.
  apply list_elem_of_In, list_elem_of_lookup in Hl as [i Hl].
  apply lookup_zip_with_Some in Hl as (t & chunk & -> & _ & _).
  unfold task_progress in Hin. destruct (failure chunk); [done|].
  destruct t as [x|x|sf tf].
  - destruct (last chunk) as [[|[]]|]; destruct Hin as [<-|[]]; by apply first_char_differs.
  - destruct Hin as [<-|[]]. by apply first_char_differs.
  - destruct Hin as [<-|[]]. by apply first_char_differs.
Qed.

Lemma errors_not_prompt ts chunks line :
  In line (all_errors ts chunks) -> line <> prompt.
Proof.
  unfold all_errors. intros (l & Hl & Hin)%in_concat.
  apply list_elem_of_In, list_elem_of_lookup in Hl as [i Hl].
  apply lookup_zip_with_Some in Hl as (t & chunk & -> & _ & _).
  unfold task_errors in Hin. destruct (failure chunk); [|done].
  destruct Hin as [<-|[]]. destruct t; by apply first_char_differs.
Qed.

(** X19.  The prompt is printed exactly when there is something to delete or
    to overwrite.  With both lists empty the run is the copy phase and the
    report from the state it started in: nothing is printed first, the
    answer is not read, and the prompt is no line of its output unless it
    was one before, or an entry of [error_paths].  Otherwise the summary is
    not empty, and the run is the summary and then the prompt, printed with
    the world and the trace as they were, followed by the tasks that the
    answer selects and the report: nothing is tested or attempted before the
    prompt. *)
Theorem prompt_iff_destructive p answer st :
  let summary := deletion_summary (delete_candidates p)
                 ++ overwrite_summary (overwrite_candidates p) in
  let work proceed st0 :=
    run_bind world
      (for_in world (tasks p proceed) (run_task world view os_call source target))
      (fun _ => report_errors world) st0 in
  (delete_candidates p = [] -> overwrite_candidates p = [] ->
   execute world view os_call source target p answer st = work false st
   /\ (~ In prompt (st_output st) -> ~ In prompt (st_errors st) ->
       ~ In prompt
           (st_output (execute world view os_call source target p answer st).1)))
  /\ (delete_candidates p <> [] \/ overwrite_candidates p <> [] ->
      summary <> []
      /\ execute world view os_call source target p answer st
         = work (confirms answer)
             (RunState (st_world st) (st_errors st)
                       (st_output st ++ summary ++ [prompt]) (st_trace st))).
Proof.
  intros summary work. split.
  - intros Hd Ho. split.
    + rewrite execute_as_tasks. unfold work, tasks, review_lines.
      rewrite Hd, Ho. simpl. rewrite app_nil_r.
      destruct st. by destruct (confirms answer).
    + intros Hout Herr.
      destruct (execute_spec world view os_call source target p answer st)
        as (chunks & w' & _ & _ & ->). simpl.
      unfold review_lines. rewrite Hd, Ho. simpl.
      rewrite !in_app_iff. intros [?|[Hin|Hin]]; [done| |].
      * by apply progress_not_prompt in Hin.
      * unfold report_lines in Hin.
        destruct (st_errors st ++ _) as [|e es] eqn:E; [done|]. rewrite <- E in Hin.
        destruct Hin as [Hin|Hin]; [by apply first_char_differs in Hin|].
        apply in_app_iff in Hin as [?|Hin]; [done|].
        by apply errors_not_prompt in Hin.
  - intros Hsome.
    assert (Hsum : summary <> []).
    { unfold summary. intros [Hd%summarize_nil Ho%summarize_nil]%app_eq_nil.
      by destruct Hsome. }
    split; [done|]. rewrite execute_as_tasks. unfold work, review_lines.
    fold summary. by destruct summary.
Qed.

End RunOutcomes.

Lemma clean_run_reports_nothing_witness :
  exists st' progress,
    execute node id (fun _ w => (w, Done tt)) ["s"] ["t"] plan_run "y"
            (start node fs_run) = (st', Done tt)
    /\ st_errors st' = []
    /\ length progress = length (tasks plan_run (confirms "y"))
    /\ st_output st' = [] ++ review_lines plan_run ++ progress ++ report_lines [].
Proof.
  apply (clean_run_reports_nothing node id (fun _ w => (w, Done tt)) ["s"] ["t"]
           plan_run "y" (start node fs_run)).
  reflexivity.
Defined.

Lemma prompt_iff_destructive_witness :
  deletion_summary (delete_candidates plan_run)
  ++ overwrite_summary (overwrite_candidates plan_run) <> []
  /\ execute disk disk_tree disk_call ["s"] ["t"] plan_run "n" (start disk disk_run)
     = run_bind disk
         (for_in disk (tasks plan_run (confirms "n"))
                 (run_task disk disk_tree disk_call ["s"] ["t"]))
         (fun _ => report_errors disk)
         (RunState disk_run [] ([] ++ (deletion_summary (delete_candidates plan_run)
                               ++ overwrite_summary (overwrite_candidates plan_run))
                               ++ [prompt]) []).
Proof.
  refine (proj2 (prompt_iff_destructive disk disk_tree disk_call ["s"] ["t"] plan_run "n"
                   (start disk disk_run)) _).
  left. discriminate.
Defined.

(** ** The answer to the prompt *)

Lemma lstrip_spaces l s : all_space l = true -> lstrip (l ++ s) = lstrip s.
Proof.
  unfold all_space. induction l as [|c l IH]; simpl; [done|].
  intros [Hc Hl]%andb_prop. rewrite Hc. by apply IH.
Qed.

Lemma lstrip_split s : exists l, all_space l = true /\ s = l ++ lstrip s.
Proof.
  unfold all_space. induction s as [|c s (l & Hl & Hs)]; simpl.
  - by exists [].
  - destruct (is_space c) eqn:Hc.
    + exists (c :: l). simpl. rewrite Hc, Hl. split; [done|]. by f_equal.
    + by exists [].
Qed.

Lemma all_space_rev s : all_space (rev s) = all_space s.
Proof.
  unfold all_space. induction s as [|c s IH]; simpl; [done|].
  rewrite forallb_app, IH. simpl. rewrite andb_true_r. apply andb_comm.
Qed.

Lemma lower_char_y c :
  lower_char c = 121%N <-> c = 121%N \/ c = 89%N.
Proof.
  unfold lower_char. split.
  - destruct (N.leb 65 c && N.leb c 90) eqn:E; [|by left].
    apply andb_prop in E as [?%N.leb_le ?%N.leb_le]. lia.
  - intros [->| ->]; reflexivity.
Qed.

(** X20.  The destructive phases run exactly on an answer that is one letter
    [y] or [Y] with nothing around it but code points that [str.strip()]
    removes (the blanks of ASCII and of the rest of Unicode alike): a longer
    word such as [yes], an empty answer, or anything else, declines. *)
Theorem confirms_iff_single_y answer :
  confirms answer = true
  <-> exists before c after,
        utf8_decode answer = before ++ c :: after
        /\ all_space before = true /\ all_space after = true
        /\ (c = 121%N \/ c = 89%N).
Proof.
  unfold confirms, lower, strip. split.
  - destruct (map lower_char _) as [|c1 [|c2 l]] eqn:Hmap; try done.
    intros Hc%N.eqb_eq. subst c1.
    destruct (rev (lstrip (rev (lstrip (utf8_decode answer))))) as [|c [|c' l]] eqn:Hrev;
      try done.
    injection Hmap as Hc%lower_char_y.
    apply (f_equal (@rev N)) in Hrev. rewrite rev_involutive in Hrev. simpl in Hrev.
    destruct (lstrip_split (utf8_decode answer)) as (before & Hbefore & Hanswer).
    destruct (lstrip_split (rev (lstrip (utf8_decode answer)))) as (l' & Hl' & Hm).
    rewrite Hrev in Hm. apply (f_equal (@rev N)) in Hm.
    rewrite rev_involutive, rev_app_distr in Hm. simpl in Hm.
    exists before, c, (rev l'). rewrite all_space_rev. rewrite Hm in Hanswer. done.
  - intros (before & c & after & -> & Hbefore & Hafter & Hc).
    rewrite lstrip_spaces by done.
    assert (Hns : is_space c = false) by (by destruct Hc as [->| ->]).
    simpl. rewrite Hns. simpl.
    rewrite lstrip_spaces by (by rewrite all_space_rev).
    simpl. rewrite Hns. simpl. by destruct Hc as [->| ->].
Qed.

(** ** The summary leaves no candidate out *)

Lemma dict_append_concat d f g :
  Permutation (concat (map snd (dict_append d f g))) (concat (map snd g) ++ [f]).
Proof.
  induction g as [|[k fl] g IH]; simpl; [done|].
  destruct (path_eqb k d); simpl.
  - rewrite <- !app_assoc. apply Permutation_app_head, Permutation_app_comm.
  - rewrite IH. by rewrite app_assoc.
Qed.

Lemma group_fold_concat l : forall g,
  Permutation
    (concat (map snd (fold_left (fun directories file =>
                                   dict_append (os_path_dirname file) file directories)
                                l g)))
    (concat (map snd g) ++ l).
Proof.
  induction l as [|f l IH]; intros g; simpl; [by rewrite app_nil_r|].
  rewrite IH, dict_append_concat, <- app_assoc. done.
Qed.

Lemma dict_append_nonempty d f g :
  Forall (fun group : path * list path => group.2 <> []) g ->
  Forall (fun group : path * list path => group.2 <> []) (dict_append d f g).
Proof.
  induction 1 as [|[k fl] g Hk Hg IH]; simpl.
  - by repeat constructor.
  - destruct (path_eqb k d); constructor; simpl in *; try done. by destruct fl.
Qed.

Lemma group_fold_nonempty l : forall g,
  Forall (fun group : path * list path => group.2 <> []) g ->
  Forall (fun group : path * list path => group.2 <> [])
    (fold_left (fun directories file =>
                  dict_append (os_path_dirname file) file directories) l g).
Proof.
  induction l as [|f l IH]; intros g Hg; simpl; [done|].
  by apply IH, dict_append_nonempty.
Qed.

Lemma dict_get_Some d files g : dict_get d g = Some files -> In (d, files) g.
Proof.
  induction g as [|[k fl] g IH]; simpl; [done|].
  destruct (path_eqb k d) eqn:E.
  - apply path_eqb_eq in E as ->. intros [= ->]. by left.
  - intros H. right. by apply IH.
Qed.

Lemma candidate_in_its_group candidates f :
  In f candidates ->
  exists files, In (os_path_dirname f, files) (group_files_by_directory candidates)
                /\ In f files.
Proof.
  intros Hin.
  destruct (group_fold_spec candidates [] (NoDup_nil_2 (A:=path))) as [_ Hget].
  specialize (Hget (os_path_dirname f)). simpl in Hget.
  assert (Hf : In f (files_in (os_path_dirname f) candidates)).
  { apply filter_In. split; [done|apply path_eqb_refl]. }
  rewrite <- Hget in Hf. fold (group_files_by_directory candidates) in Hf.
  destruct (dict_get (os_path_dirname f) (group_files_by_directory candidates))
    as [files|] eqn:E; [|done].
  exists files. split; [by apply dict_get_Some|done].
Qed.

(** X21.  Grouping loses nothing and invents nothing: the groups, taken
    together, are a rearrangement of the candidate list; no group is empty;
    and every candidate sits in the group of its own containing directory. *)
Theorem grouping_is_a_partition candidates :
  Permutation (concat (map snd (group_files_by_directory candidates))) candidates
  /\ (forall directory files,
        In (directory, files) (group_files_by_directory candidates) ->
        files <> []
        /\ forall file, In file files ->
             In file candidates /\ os_path_dirname file = directory)
  /\ (forall file, In file candidates ->
        exists files,
          In (os_path_dirname file, files) (group_files_by_directory candidates)
          /\ In file files).
Proof.
  split; [apply (group_fold_concat candidates [])|]. split.
  - intros directory files Hin. split.
    + pose proof (group_fold_nonempty candidates [] (Forall_nil_2 _)) as Hne.
      rewrite List.Forall_forall in Hne. apply (Hne _ Hin).
    + destruct (group_files_by_directory_spec candidates) as [_ Hgroups].
      rewrite (Hgroups _ _ Hin). intros file [Hfile Hdir%path_eqb_eq]%filter_In. done.
  - apply candidate_in_its_group.
Qed.

Lemma summarize_length collapsed single groups :
  length (summarize collapsed single groups) <= length (concat (map snd groups)).
Proof.
  induction groups as [|[k fl] groups IH]; simpl; [done|].
  rewrite !length_app. destruct (Nat.ltb 20 (length fl)) eqn:E; simpl.
  - apply Nat.ltb_lt in E. lia.
  - rewrite length_map. lia.
Qed.

Lemma summarize_accounts collapsed single candidates file :
  In file candidates ->
  In (single +:+ path_str file)
     (summarize collapsed single (group_files_by_directory candidates))
  \/ In (collapsed +:+ path_str (os_path_dirname file))
        (summarize collapsed single (group_files_by_directory candidates)).
Proof.
  intros Hin. destruct (candidate_in_its_group _ _ Hin) as (files & Hgroup & Hfile).
  unfold summarize. rewrite !in_flat_map.
  destruct (Nat.ltb 20 (length files)) eqn:E.
  - right. exists (os_path_dirname file, files). split; [done|]. simpl.
    rewrite E. by left.
  - left. exists (os_path_dirname file, files). split; [done|]. simpl.
    rewrite E. apply in_map_iff. eauto.
Qed.

(** X22.  The change summary accounts for every candidate: each one has its
    own line, or the collapsed line of its containing directory; the summary
    never has more lines than there are candidates, and it is empty only when
    there is no candidate. *)
Theorem summary_accounts_for_every_candidate candidates :
  (forall file, In file candidates ->
     (In ("Delete file: " +:+ path_str file) (deletion_summary candidates)
      \/ In ("Delete 20+ files in directory: " +:+ path_str (os_path_dirname file))
            (deletion_summary candidates))
     /\ (In ("Overwrite file: " +:+ path_str file) (overwrite_summary candidates)
         \/ In ("Overwrite 20+ files in directory: "
                +:+ path_str (os_path_dirname file))
               (overwrite_summary candidates)))
  /\ length (deletion_summary candidates) <= length candidates
  /\ length (overwrite_summary candidates) <= length candidates
  /\ (deletion_summary candidates = [] <-> candidates = [])
  /\ (overwrite_summary candidates = [] <-> candidates = []).
Proof.
  pose proof (Permutation_length (group_fold_concat candidates [])) as Hlen.
  simpl in Hlen. fold (group_files_by_directory candidates) in Hlen.
  split; [|split; [|split; [|split]]].
  - intros file Hin. split; by apply summarize_accounts.
  - unfold deletion_summary. rewrite <- Hlen. apply summarize_length.
  - unfold overwrite_summary. rewrite <- Hlen. apply summarize_length.
  - split; [apply summarize_nil|by intros ->].
  - split; [apply summarize_nil|by intros ->].
Qed.

(** * The entry point *)

(** X23.  The entry point and the third walk together, with no argument
    given.  Started in a working directory that begins, as a string, with
    [DEF_TARGET], the run mirrors [DEF_SOURCE] into [DEF_TARGET], and every
    pair of the third walk has the same relative path on both sides.  Started
    anywhere else the two roots are exchanged: the source root is then
    [DEF_TARGET], which ends in a separator, the target root [DEF_SOURCE],
    which does not, and every pair of the third walk has its target side
    written straight after [DEF_SOURCE], a path in the directory above
    [dev] whose name begins with [dev]. *)
Theorem main_roots_follow_cwd fs cwd script_name cc sf tf :
  let roots := main_roots (parse_arguments None None) cwd in
  plain_tree nt_sep fs = true ->
  scan_source_files_str nt_sep fs roots.1 roots.2 script_name = Some cc ->
  In (sf, tf) cc ->
  exists x q,
    Forall (fun d => plain nt_sep d = true) (x :: q)
    /\ (String.prefix DEF_TARGET cwd = true ->
        roots = (DEF_SOURCE, DEF_TARGET)
        /\ path_components nt_sep sf = ["G:"; "dev"] ++ x :: q
        /\ path_components nt_sep tf = ["E:"] ++ x :: q)
    /\ (String.prefix DEF_TARGET cwd = false ->
        roots = (DEF_TARGET, DEF_SOURCE)
        /\ path_components nt_sep sf = ["E:"] ++ x :: q
        /\ tf = DEF_SOURCE +:+ path_string nt_sep (x :: q)
        /\ path_components nt_sep tf = ["G:"; "dev" +:+ x] ++ q).
Proof.
  intros roots Hfs Hscan Hin.
  destruct (line_94_pairs _ _ _ _ _ _ _ _ Hfs Hscan Hin) as (x & q & Hq & -> & ->).
  exists x, q. split; [done|].
  assert (Hroots : roots = if String.prefix DEF_TARGET cwd
                           then (DEF_SOURCE, DEF_TARGET) else (DEF_TARGET, DEF_SOURCE)).
  { unfold roots, main_roots. simpl. by destruct (String.prefix DEF_TARGET cwd). }
  split; intros Hcwd; rewrite Hcwd in Hroots; rewrite Hroots; cbn [fst snd].
  - split; [done|]. split.
    + by rewrite (path_components_rel nt_sep DEF_SOURCE (x :: q)).
    + by rewrite (path_components_aligned nt_sep DEF_SOURCE DEF_TARGET (x :: q)); [|left|].
  - split; [done|]. split; [|split].
    + by rewrite (path_components_rel nt_sep DEF_TARGET (x :: q)).
    + done.
    + change (rel_string nt_sep DEF_TARGET (x :: q)) with (path_string nt_sep (x :: q)).
      by rewrite (path_components_glued nt_sep DEF_SOURCE x q).
Qed.

Lemma main_roots_follow_cwd_witness :
  exists x q,
    DEF_SOURCE +:+ "a.txt" = DEF_SOURCE +:+ path_string nt_sep (x :: q)
    /\ path_components nt_sep (DEF_SOURCE +:+ "a.txt") = ["G:"; "dev" +:+ x] ++ q.
Proof.
  destruct (main_roots_follow_cwd fs_drives ("C:" +:+ backslash +:+ "Users") "sync.py"
              [(DEF_TARGET +:+ "a.txt", DEF_SOURCE +:+ "a.txt")]
              (DEF_TARGET +:+ "a.txt") (DEF_SOURCE +:+ "a.txt"))
    as (x & q & _ & _ & H).
  - vm_compute. reflexivity.
  - vm_compute. reflexivity.
  - left. reflexivity.
  - destruct H as (_ & _ & H1 & H2); [vm_compute; reflexivity|].
    exists x, q. split; [exact H1|exact H2].
Defined.

(** * The deletion phase on the disk *)

Lemma find_entry_remove_other c d es :
  d <> c -> find_entry d (remove_entry c es) = find_entry d es.
Proof.
  intros Hne. induction es as [|[k n] es IH]; simpl; [done|].
  destruct (String.eqb c k) eqn:E.
  - apply String.eqb_eq in E as <-. apply String.eqb_neq in Hne. by rewrite Hne.
  - simpl. by destruct (String.eqb d k).
Qed.

Lemma find_entry_set c d n es :
  find_entry d (set_entry c n es)
  = if String.eqb d c then Some n else find_entry d es.
Proof.
  induction es as [|[k n'] es IH]; simpl; [done|].
  destruct (String.eqb c k) eqn:E; simpl.
  - apply String.eqb_eq in E as <-. by destruct (String.eqb d c).
  - rewrite IH. destruct (String.eqb d k) eqn:E2; [|done].
    apply String.eqb_eq in E2 as ->. by rewrite String.eqb_sym, E.
Qed.

Lemma tree_remove_deeper c c' x m es :
  tree_remove (c :: c' :: x) (Dir m es)
  = match find_entry c es with
    | Some n' =>
        n'' ← tree_remove (c' :: x) n'; Some (Dir m (set_entry c n'' es))
    | None => None
    end.
Proof. reflexivity. Qed.

(** Removing [x] leaves in place whatever is neither [x] nor below it. *)
Lemma tree_remove_keeps x : forall fs fs' y,
  tree_remove x fs = Some fs' ->
  (forall q, y <> x ++ q) ->
  is_Some (lookup_path fs y) -> is_Some (lookup_path fs' y).
Proof.
  induction x as [|c x IH]; intros fs fs' y; [by destruct fs|].
  destruct fs as [|m es]; [by destruct x|]. destruct x as [|c' x].
  - simpl. destruct (find_entry c es) eqn:E; [|done]. intros [= <-] Hy Hl.
    destruct y as [|d y]; [by eexists|]. simpl in *.
    rewrite find_entry_remove_other; [done|]. intros ->. by apply (Hy y).
  - rewrite tree_remove_deeper.
    destruct (find_entry c es) as [n'|] eqn:E; [|done].
    destruct (tree_remove (c' :: x) n') as [n''|] eqn:E'; [|done].
    simpl. intros [= <-] Hy Hl.
    destruct y as [|d y]; [by eexists|]. simpl in *. rewrite find_entry_set.
    destruct (String.eqb d c) eqn:Ed; [|done].
    apply String.eqb_eq in Ed as ->. rewrite E in Hl.
    apply (IH n' n'' y E'); [|done]. intros q ->. by apply (Hy q).
Qed.

(** What exists can be removed. *)
Lemma tree_remove_defined x : forall fs n,
  x <> [] -> lookup_path fs x = Some n -> is_Some (tree_remove x fs).
Proof.
  induction x as [|c x IH]; intros fs n Hne; [done|].
  destruct fs as [|m es]; [done|]. simpl lookup_path.
  destruct (find_entry c es) as [n'|] eqn:E; [|done]. intros Hl.
  destruct x as [|c' x].
  - simpl. rewrite E. by eexists.
  - rewrite tree_remove_deeper, E.
    destruct (IH n' n) as [n'' ->]; [done|done|]. by eexists.
Qed.

Lemma disk_delete_succeeds d x :
  disk_locked d = [] -> x <> [] -> os_path_exists (disk_tree d) x = true ->
  exists fs',
    tree_remove x (disk_tree d) = Some fs'
    /\ disk_call (if os_path_isdir (disk_tree d) x then Rmtree x else Remove x) d
       = (Disk fs' [], Done tt).
Proof.
  intros Hlock Hne Hex. unfold os_path_exists, os_path_isdir in *.
  destruct (lookup_path (disk_tree d) x) as [n|] eqn:Hl; [|done].
  destruct (tree_remove_defined x _ n Hne Hl) as [fs' Hrm]. exists fs'.
  split; [done|]. unfold disk_call.
  destruct n as [m c|m es]; simpl; by rewrite Hlock, Hl, Hrm.
Qed.

(** The attempts at a list of paths that exist, free of duplicates and with
    nothing before one of its own descendants, all succeed on a disk with
    nothing locked. *)
Lemma delete_chunks_succeed source target : forall dc chunks d w1,
  disk_locked d = [] ->
  NoDup dc -> children_first dc ->
  Forall (fun x => x <> [] /\ os_path_exists (disk_tree d) x = true) dc ->
  Forall2 (attempt source target) (map Delete dc) chunks ->
  replays disk disk_tree disk_call (concat chunks) d w1 ->
  forall c r, In (Called c r) (concat chunks) -> r = Done tt.
Proof.
  induction dc as [|x dc IH]; intros chunks d w1 Hlock Hnd Hsort Hex Hall Hrep.
  - inversion Hall; subst. by intros c r [].
  - inversion Hall as [|? chunk ? chunks' Hatt Hall']; subst.
    apply NoDup_cons in Hnd as [Hx Hnd].
    apply StronglySorted_inv in Hsort as [Hsort Hhead].
    apply Forall_cons in Hex as [[Hne Hexx] Hex].
    destruct (disk_delete_succeeds d x Hlock Hne Hexx) as (fs' & Hrm & Hcall).
    assert (Hrest : Forall (fun y => y <> [] /\ os_path_exists fs' y = true) dc).
    { rewrite List.Forall_forall in *. intros y Hy.
      destruct (Hex y Hy) as [Hyne Hyex]. split; [done|].
      unfold os_path_exists in *.
      destruct (tree_remove_keeps x _ _ y Hrm) as [n ->]; [| |done].
      - intros q ->. destruct q as [|c0 q].
        + rewrite app_nil_r in Hy. by apply Hx, list_elem_of_In.
        + apply (Hhead _ Hy). by exists (c0 :: q).
      - by destruct (lookup_path (disk_tree d) y); [eexists|]. }
    simpl in Hatt. destruct Hatt as (r0 & [->| ->]); simpl in Hrep;
      destruct Hrep as (Hb & Hr & Hrep); rewrite <- Hb in Hcall;
      rewrite Hcall in Hr, Hrep; simpl in Hr, Hrep; subst r0;
      (intros c r [[=]|[[= <- <-]|Hin]]; [done|]);
      by apply (IH chunks' (Disk fs' []) w1 eq_refl Hnd Hsort Hrest Hall' Hrep c r).
Qed.

Lemma replays_split (world : Type) (view : world -> node)
    (os_call : call -> world -> world * outcome unit) trace1 trace2 w w2 :
  replays world view os_call (trace1 ++ trace2) w w2 ->
  exists w1, replays world view os_call trace1 w w1
             /\ replays world view os_call trace2 w1 w2.
Proof.
  revert w. induction trace1 as [|[q b|c r] trace1 IH]; intros w; simpl.
  - intros H. by exists w.
  - intros [-> H]. destruct (IH _ H) as (w1 & H1 & H2). by exists w1.
  - intros [-> H]. destruct (IH _ H) as (w1 & H1 & H2). by exists w1.
Qed.

(** X24.  The order of the delete list does its work: on a disk with nothing
    locked and no name listed twice, a confirmed run removes every
    delete-candidate without an error.  Every [remove] and every [rmtree] of
    the run ends normally, because a candidate is still there when its turn
    comes: what was removed before it is neither the candidate nor a
    directory above it. *)
Theorem deletion_phase_never_fails source target script_name answer d p :
  wf_node (disk_tree d) = true ->
  disk_locked d = [] ->
  plan_candidates (disk_tree d) source target script_name = Some p ->
  confirms answer = true ->
  exists st',
    sync_directories disk disk_tree disk_call source target script_name answer
                     (start disk d) = (st', Done tt)
    /\ forall c r, In (Called c r) (st_trace st') ->
         (exists x, c = Rmtree x \/ c = Remove x) -> r = Done tt.
Proof.
  intros Hwf Hlock Hp Hyes. rewrite (sync_directories_planned _ _ _ _ _ _ _ _ _ Hp).
  destruct (execute_spec disk disk_tree disk_call source target p answer (start disk d))
    as (chunks & w' & Hall & Hw & Hrun).
  rewrite Hrun. eexists. split; [done|]. simpl.
  unfold tasks in Hall. rewrite Hyes, <- app_assoc in Hall.
  apply Forall2_app_inv_l in Hall as (dchunks & rest & Hdel & Hrest & ->).
  rewrite concat_app in *. simpl in Hw.
  apply replays_split in Hw as (w1 & Hw1 & _).
  intros c r [Hin|Hin]%in_app_iff Hkind.
  - apply (fun H1 H2 H3 =>
             delete_chunks_succeed source target (delete_candidates p) dchunks d w1
               Hlock H1 H2 H3 Hdel Hw1 c r); try done.
    + by apply (delete_candidates_NoDup (disk_tree d) source target script_name).
    + by apply (plan_delete_children_first (disk_tree d) source target script_name).
    + apply List.Forall_forall. intros x Hx.
      destruct (listed_target_exists _ _ _ _ _ _ Hwf Hp (or_introl Hx))
        as (Hex & q & name & ->).
      split; [|done]. intros Heq. apply (f_equal length) in Heq.
      rewrite !length_app in Heq. simpl in Heq. lia.
  - exfalso. apply in_concat in Hin as (chunk & Hchunk & Hin).
    destruct (Forall2_In_r _ _ _ _ Hrest Hchunk) as (t & Ht & Hatt).
    apply in_app_iff in Ht as [Ht|Ht]; apply in_map_iff in Ht as (y & <- & _);
      simpl in Hatt; destruct Hkind as (x & [->| ->]).
    + destruct Hatt as (r' & ->). by destruct Hin as [[=]|[]].
    + destruct Hatt as (r' & ->). by destruct Hin as [[=]|[]].
    + destruct Hatt as [(r' & ->)|[(r' & ->)|(e & ->)]]; simpl in Hin;
        repeat (destruct Hin as [[=]|Hin]); done.
    + destruct Hatt as [(r' & ->)|[(r' & ->)|(e & ->)]]; simpl in Hin;
        repeat (destruct Hin as [[=]|Hin]); done.
Qed.

Lemma deletion_phase_never_fails_witness :
  exists st',
    run_on disk_run "y" = (st', Done tt)
    /\ forall c r, In (Called c r) (st_trace st') ->
         (exists x, c = Rmtree x \/ c = Remove x) -> r = Done tt.
Proof.
  apply (deletion_phase_never_fails ["s"] ["t"] "sync.py" "y" disk_run plan_run).
  - vm_compute. reflexivity.
  - reflexivity.
  - vm_compute. reflexivity.
  - vm_compute. reflexivity.
Defined.

(** * A declined run on the disk *)

Lemma tree_put_deeper c c' x new m es :
  tree_put (c :: c' :: x) new (Dir m es)
  = match find_entry c es with
    | Some n' => n'' ← tree_put (c' :: x) new n'; Some (Dir m (set_entry c n'' es))
    | None => None
    end.
Proof. reflexivity. Qed.

(** Putting a node under [p] leaves alone what is neither above [p], nor
    [p], nor below it. *)
Lemma tree_put_other p : forall n n' new y,
  tree_put p new n = Some n' ->
  (forall q, p <> y ++ q) -> (forall q, y <> p ++ q) ->
  lookup_path n' y = lookup_path n y.
Proof.
  induction p as [|c p IH]; intros n n' new y; [by destruct n|].
  destruct n as [|m es]; [by destruct p|].
  destruct y as [|d y]; [intros _ Hy; by destruct (Hy (c :: p))|].
  destruct p as [|c' p].
  - simpl. intros [= <-] _ Hy. rewrite find_entry_set.
    destruct (String.eqb d c) eqn:E; [|done].
    apply String.eqb_eq in E as ->. by destruct (Hy y).
  - rewrite tree_put_deeper. destruct (find_entry c es) as [n1|] eqn:E; [|done].
    destruct (tree_put (c' :: p) new n1) as [n2|] eqn:E2; [|done]. simpl.
    intros [= <-] Hy1 Hy2. rewrite find_entry_set.
    destruct (String.eqb d c) eqn:Ed; [|done].
    apply String.eqb_eq in Ed as ->. rewrite E.
    apply (IH n1 n2 new y E2).
    + intros q Hq. apply (Hy1 q). simpl. by rewrite Hq.
    + intros q Hq. apply (Hy2 q). simpl. by rewrite Hq.
Qed.

(** What lies above the path of a successful put is a directory. *)
Lemma tree_put_above p : forall n n' new y c q,
  tree_put p new n = Some n' -> p = y ++ c :: q ->
  exists m es, lookup_path n y = Some (Dir m es).
Proof.
  induction p as [|c0 p IH]; intros n n' new y c q; [by destruct n|].
  destruct n as [|m es]; [by destruct p|]. intros Hput Hp.
  destruct y as [|d y]; [simpl; eauto|]. simpl in Hp. injection Hp as <- ->.
  destruct (y ++ c :: q) as [|c' p] eqn:Ep; [by destruct y|].
  rewrite tree_put_deeper in Hput.
  simpl. destruct (find_entry c0 es) as [n1|] eqn:E; [|done].
  destruct (tree_put (c' :: p) new n1) as [n2|] eqn:E2; [|done].
  by apply (IH n1 n2 new y c q E2).
Qed.

(** After a put the path names the node that was put. *)
Lemma tree_put_at p : forall n n' new q,
  tree_put p new n = Some n' -> lookup_path n' (p ++ q) = lookup_path new q.
Proof.
  induction p as [|c p IH]; intros n n' new q; [by destruct n|].
  destruct n as [|m es]; [by destruct p|]. destruct p as [|c' p].
  - simpl. intros [= <-]. by rewrite find_entry_set, String.eqb_refl.
  - rewrite tree_put_deeper. destruct (find_entry c es) as [n1|] eqn:E; [|done].
    destruct (tree_put (c' :: p) new n1) as [n2|] eqn:E2; [|done]. simpl.
    intros [= <-]. rewrite find_entry_set, String.eqb_refl. by apply (IH n1).
Qed.

(** [makedirs] changes nothing but the path it is given and what is above
    it. *)
Lemma tree_mkdirs_other p : forall n n' y,
  tree_mkdirs p n = Some n' ->
  (forall q, p <> y ++ q) ->
  lookup_path n' y = lookup_path n y.
Proof.
  induction p as [|c p IH]; intros n n' y.
  - destruct n as [|m es]; [done|]. by intros [= <-].
  - destruct n as [|m es]; [done|]. simpl.
    destruct (tree_mkdirs p (default (Dir 0%float []) (find_entry c es))) as [n2|] eqn:E2;
      [|done].
    simpl. intros [= <-] Hy.
    destruct y as [|d y]; [by destruct (Hy (c :: p))|]. simpl. rewrite find_entry_set.
    destruct (String.eqb d c) eqn:Ed; [|done].
    apply String.eqb_eq in Ed as ->.
    rewrite (IH _ n2 y E2).
    + destruct (find_entry c es) as [n1|]; simpl; [done|].
      destruct y as [|d' y]; [|done]. by destruct (Hy p).
    + intros q Hq. apply (Hy q). simpl. by rewrite Hq.
Qed.

(** A successful [makedirs] has found no file on its way. *)
Lemma tree_mkdirs_above p : forall n n' y q m c,
  tree_mkdirs p n = Some n' -> p = y ++ q -> lookup_path n y <> Some (File m c).
Proof.
  induction p as [|c0 p IH]; intros n n' y q m c Hmk Hp.
  - destruct y; [|done]. simpl. destruct n; [done|]. done.
  - destruct n as [|m0 es]; [done|]. simpl in Hmk.
    destruct (tree_mkdirs p (default (Dir 0%float []) (find_entry c0 es))) as [n2|] eqn:E2;
      [|done].
    destruct y as [|d y]; [done|]. simpl in Hp. injection Hp as <- ->. simpl.
    destruct (find_entry c0 es) as [n1|] eqn:E; [|done]. simpl in E2.
    by apply (IH n1 n2 y q m c E2).
Qed.

Section DeclinedOnDisk.
Variables source target : path.
Variable script_name : name.

Lemma copy_targets_not_nested fs p sf tf sf' tf' c q :
  wf_node fs = true ->
  plan_candidates fs source target script_name = Some p ->
  In (sf, tf) (copy_candidates p) -> In (sf', tf') (copy_candidates p) ->
  tf' <> tf ++ c :: q.
Proof.
  intros Hwf Hp Hin Hin' Heq.
  destruct (copy_candidate_paths _ _ _ _ _ _ _ Hp Hin)
    as (root & dirs & files & nm & r & Hit & Hnm & _ & -> & -> & -> & _).
  destruct (copy_candidate_paths _ _ _ _ _ _ _ Hp Hin')
    as (root' & dirs' & files' & nm' & r' & Hit' & Hnm' & _ & -> & -> & -> & _).
  destruct (scanned_file_lookup _ _ _ _ _ _ _ _ Hwf Hit Hnm) as (m & c0 & Hl).
  destruct (scanned_file_lookup _ _ _ _ _ _ _ _ Hwf Hit' Hnm') as (m' & c0' & Hl').
  unfold os_path_join in *. rewrite <- !app_assoc in *.
  apply app_inv_head in Heq. rewrite Heq, !app_assoc, lookup_path_app in Hl'.
  rewrite <- !app_assoc, Hl in Hl'. done.
Qed.

Lemma delete_candidate_not_above_copy fs p x sf tf q :
  wf_node fs = true ->
  plan_candidates fs source target script_name = Some p ->
  In x (delete_candidates p) -> In (sf, tf) (copy_candidates p) ->
  tf <> x ++ q.
Proof.
  intros Hwf Hp Hx Hin Heq.
  destruct (copy_candidate_paths _ _ _ _ _ _ _ Hp Hin)
    as (root & dirs & files & nm & r & Hit & Hnm & _ & -> & -> & -> & _).
  destruct (scanned_file_lookup _ _ _ _ _ _ _ _ Hwf Hit Hnm) as (m & c0 & Hl).
  destruct (delete_candidate_source_missing _ _ _ _ _ _ Hp Hx)
    as [(r' & nm' & ->) Hmiss].
  rewrite source_side_under in Hmiss by (by destruct r').
  rewrite <- !app_assoc in Heq. apply app_inv_head in Heq.
  apply (missing_below _ _ _ q) in Hmiss.
  unfold os_path_join in Hl. rewrite <- !app_assoc in Hl, Hmiss. rewrite Heq in Hl.
  unfold os_path_exists in Hmiss. by rewrite Hl in Hmiss.
Qed.

(** X26.  The frame of a declined run on the disk.  If no copy-candidate
    has an existing directory for its target, a declined run leaves every
    delete-candidate and every overwrite-candidate as it was, whatever is
    locked: a [copy2] then writes its target path and nothing else, every
    [makedirs] creates directories above such a target, and no candidate is
    a copy target, above one or below one. *)
Theorem declined_run_keeps_candidates d answer p :
  wf_node (disk_tree d) = true ->
  plan_candidates (disk_tree d) source target script_name = Some p ->
  confirms answer = false ->
  (forall sf tf, In (sf, tf) (copy_candidates p) ->
     os_path_isdir (disk_tree d) tf = false) ->
  forall x, In x (delete_candidates p) \/ In x (overwrite_candidates p) ->
    lookup_path
      (disk_tree (st_world (sync_directories disk disk_tree disk_call source target
                              script_name answer (start disk d)).1)) x
    = lookup_path (disk_tree d) x.
Proof.
  intros Hwf Hp Hno Hnodir.
  rewrite (sync_directories_planned _ _ _ _ _ _ _ _ _ Hp).
  destruct (execute_spec disk disk_tree disk_call source target p answer (start disk d))
    as (chunks & w' & Hall & Hw & ->).
  unfold tasks in Hall. rewrite Hno in Hall. simpl in Hall, Hw |- *.
  apply Forall2_map_l in Hall. simpl in Hall.
  set (fs := disk_tree d) in *.
  set (Inv := fun d' : disk =>
    (forall x, In x (delete_candidates p) \/ In x (overwrite_candidates p) ->
       lookup_path (disk_tree d') x = lookup_path fs x)
    /\ (forall sf tf, In (sf, tf) (copy_candidates p) ->
          os_path_isdir (disk_tree d') tf = false)).
  enough (HI : Inv w') by apply HI.
  apply (replays_invariant disk disk_tree disk_call Inv _ _ _ Hw); [by split|].
  intros c r d1 Hin [Hkeep Hdir].
  assert (Hcall : copy_phase_call p c).
  { apply in_concat in Hin as (chunk & Hchunk & Hin).
    destruct (Forall2_In_r _ _ _ _ Hall Hchunk) as ([sf tf] & Hcand & Hatt).
    simpl in Hatt.
    destruct Hatt as [(r' & ->)|[(r' & ->)|(e & ->)]]; simpl in Hin.
    - by destruct Hin as [[=]|[[= <- <-]|[]]].
    - destruct Hin as [[=]|[[= <- <-]|[[= <- <-]|[]]]]; simpl; eauto.
    - destruct Hin as [[=]|[[= <- <-]|[]]]. simpl. eauto. }
  assert (Hfile : forall x, In x (overwrite_candidates p) ->
            exists m c0, lookup_path fs x = Some (File m c0)).
  { intros x Hx.
    destruct (overwrite_candidate_origin _ _ _ _ _ _ Hp Hx)
      as (root & dirs & files & nm & Hit & Hnm & _ & -> & _).
    by eapply scanned_file_lookup. }
  assert (Habove : forall x sf tf c0 q,
            In x (delete_candidates p) \/ In x (overwrite_candidates p) ->
            In (sf, tf) (copy_candidates p) -> tf = x ++ c0 :: q ->
            exists m c1, lookup_path (disk_tree d1) x = Some (File m c1)).
  { intros x sf tf c0 q [Hx|Hx] Hcand Heq.
    - by destruct (delete_candidate_not_above_copy _ _ _ _ _ (c0 :: q) Hwf Hp Hx Hcand).
    - rewrite Hkeep by (by right). by apply Hfile. }
  assert (Hne : forall x sf tf,
            In x (delete_candidates p) \/ In x (overwrite_candidates p) ->
            In (sf, tf) (copy_candidates p) -> tf <> x).
  { intros x sf tf [Hx|Hx] Hcand ->.
    - destruct (delete_candidate_not_above_copy _ _ _ _ _ [] Hwf Hp Hx Hcand).
      by rewrite app_nil_r.
    - by apply (copy_target_not_overwrite _ _ _ _ _ _ _ Hp Hcand). }
  unfold disk_call. destruct (existsb _ _); [by split|].
  destruct (tree_call c (disk_tree d1)) as [fs'|] eqn:Hcalled; [|by split]. simpl.
  destruct c as [x0|x0|sf tf|dir]; simpl in Hcall; try done.
  - (* copy2 *)
    simpl in Hcalled. destruct (lookup_path (disk_tree d1) sf) as [[m c0|]|]; try done.
    pose proof (Hdir sf tf Hcall) as Htf. unfold os_path_isdir in Htf.
    assert (Hput : tree_put tf (File m c0) (disk_tree d1) = Some fs').
    { by destruct (lookup_path (disk_tree d1) tf) as [[|]|]. }
    clear Hcalled.
    assert (Hbelow : forall y c1 q, y = tf ++ c1 :: q ->
              lookup_path fs' y = None /\ lookup_path (disk_tree d1) y = None).
    { intros y c1 q ->. rewrite (tree_put_at _ _ _ _ _ Hput). split; [done|].
      rewrite lookup_path_app. by destruct (lookup_path (disk_tree d1) tf) as [[|]|]. }
    assert (Hsame : forall y, (forall q, tf <> y ++ q) ->
              lookup_path fs' y = lookup_path (disk_tree d1) y).
    { intros y Hy. destruct (decide (tf `prefix_of` y)) as [[q Hq]|Hq].
      - destruct q as [|c1 q]; [rewrite app_nil_r in Hq; subst; by destruct (Hy [])
                               ; rewrite app_nil_r|].
        destruct (Hbelow y c1 q Hq) as [-> ->]. done.
      - apply (tree_put_other _ _ _ _ _ Hput Hy). intros q Hyq. apply Hq. by exists q. }
    split.
    + intros x Hx. rewrite <- (Hkeep x Hx). apply Hsame. intros [|c1 q] Heq.
      * rewrite app_nil_r in Heq. by apply (Hne x sf tf Hx Hcall).
      * destruct (Habove x sf tf c1 q Hx Hcall Heq) as (m1 & c2 & Hl).
        destruct (tree_put_above _ _ _ _ _ _ _ Hput Heq) as (m2 & es & Hl2). congruence.
    + intros sf2 tf2 Hcand2. unfold os_path_isdir.
      destruct (decide (tf2 `prefix_of` tf)) as [[[|c1 q] Hq]|Hq].
      * rewrite app_nil_r in Hq. subst tf2.
        rewrite <- (app_nil_r tf), (tree_put_at _ _ _ _ _ Hput). done.
      * by destruct (copy_targets_not_nested _ _ _ _ _ _ c1 q Hwf Hp Hcand2 Hcall).
      * rewrite Hsame; [apply (Hdir sf2 tf2 Hcand2)|]. intros q Hyq. apply Hq. by exists q.
  - (* makedirs *)
    destruct Hcall as (sf & tf & Hcand & ->). simpl in Hcalled.
    destruct (os_path_exists (disk_tree d1) (os_path_dirname tf)); [done|].
    assert (Hprefix : forall y q, os_path_dirname tf = y ++ q ->
              exists c1 q', tf = y ++ c1 :: q').
    { intros y q Hq. unfold os_path_dirname in Hq.
      destruct tf as [|c1 tf] using rev_ind.
      - simpl in Hq. destruct y; [|done]. 
        destruct (copy_candidate_paths _ _ _ _ _ _ _ Hp Hcand)
          as (? & ? & ? & nm & r0 & _ & _ & _ & _ & _ & Htf & _).
        by destruct target, r0.
      - rewrite removelast_last in Hq. rewrite Hq, <- app_assoc.
        destruct q as [|c2 q]; simpl; eauto. }
    split.
    + intros x Hx. rewrite <- (Hkeep x Hx).
      apply (tree_mkdirs_other _ _ _ _ Hcalled). intros q Hq.
      destruct (Hprefix x q Hq) as (c1 & q' & Heq).
      destruct (Habove x sf tf c1 q' Hx Hcand Heq) as (m1 & c2 & Hl).
      by apply (tree_mkdirs_above _ _ _ _ _ m1 c2 Hcalled Hq).
    + intros sf2 tf2 Hcand2.
      rewrite <- (Hdir sf2 tf2 Hcand2). unfold os_path_isdir.
      rewrite (tree_mkdirs_other _ _ _ _ Hcalled); [done|]. intros q Hq.
      destruct (Hprefix tf2 q Hq) as (c1 & q' & Heq).
      by apply (copy_targets_not_nested _ _ _ _ _ _ c1 q' Hwf Hp Hcand2 Hcand).
Qed.

End DeclinedOnDisk.

Lemma declined_run_keeps_candidates_witness :
  lookup_path (disk_tree (st_world (run_on disk_run "n").1)) ["t"; "old"; "x.txt"]
  = lookup_path fs_run ["t"; "old"; "x.txt"].
Proof.
  apply (declined_run_keeps_candidates ["s"] ["t"] "sync.py" disk_run "n" plan_run).
  - vm_compute. reflexivity.
  - vm_compute. reflexivity.
  - vm_compute. reflexivity.
  - intros sf tf [[= <- <-]|[]]. vm_compute. reflexivity.
  - left. simpl. right. left. reflexivity.
Defined.

(** * More runs *)

(** A run in which every operation is refused: four tasks, four entries in
    [error_paths], no progress line, the report at the end. *)
Example run_all_refused :
  let st := (execute node id (fun _ w => (w, Raised "PermissionError"))
               ["s"] ["t"] plan_run "y" (start node fs_run)).1 in
  st_errors st
  = ["Error deleting t/orphan.txt: PermissionError";
     "Error deleting t/old/x.txt: PermissionError";
     "Error deleting t/old: PermissionError";
     "Error copying s/new/n.txt: PermissionError"]
  /\ st_output st = review_lines plan_run ++ report_lines (st_errors st).
Proof. split; vm_compute; reflexivity. Qed.

(** The working directory decides the direction: with the defaults, a run
    started below [DEF_TARGET] mirrors [DEF_SOURCE] into it; started anywhere
    else, also below [DEF_SOURCE], it mirrors [DEF_TARGET] into
    [DEF_SOURCE]. *)
Example main_roots_defaults :
  main_roots (parse_arguments None None) (DEF_TARGET +:+ "backup")
  = (DEF_SOURCE, DEF_TARGET)
  /\ main_roots (parse_arguments None None) ("C:" +:+ backslash +:+ "Users")
     = (DEF_TARGET, DEF_SOURCE)
  /\ main_roots (parse_arguments None None) (DEF_SOURCE +:+ backslash +:+ "sub")
     = (DEF_TARGET, DEF_SOURCE).
Proof. repeat split; vm_compute; reflexivity. Qed.

(** Line 94 on four pairs of roots: only a source root that ends in a
    separator with a target root that does not gives a wrong path; a target
    root that ends in one gives a doubled separator, which names the same
    path. *)
Example trailing_slash_pairs_wrong_path :
  scan_source_files_str posix_sep fs_run "s/" "t" "sync.py"
  = Some [("s/new/n.txt", "tnew/n.txt")]
  /\ scan_source_files_str posix_sep fs_run "s" "t" "sync.py"
     = Some [("s/new/n.txt", "t/new/n.txt")]
  /\ scan_source_files_str posix_sep fs_run "s/" "t/" "sync.py"
     = Some [("s/new/n.txt", "t/new/n.txt")]
  /\ scan_source_files_str posix_sep fs_run "/s" "/t/" "sync.py"
     = Some [("/s/new/n.txt", "/t//new/n.txt")].
Proof. repeat split; vm_compute; reflexivity. Qed.
